(** * web_scrap: the concurrent image scraper of [auto_scrap_100/data_scraper2.py]

    A shallow embedding of the scraper: extension inference, the search
    adapter [fetch_image_urls], the content fetcher [download_image] (both as
    the sequential function the source reads as, and as the worker state
    machine whose steps interleave inside a thread pool), and the orchestrator
    [download_images].

    Python [str] is [string] (one [ascii] per character), [bytes] is
    [list byte], [int] is [Z].  The network, the disk, the thread scheduler
    and the iteration order of a [set] are oracles gathered in one record;
    every theorem quantifies over them.

    Left out: what [print] writes; [os.makedirs] and [time.sleep], which are
    taken to return (the folder can be made, [pause_time] is a duration);
    the timeouts, which show as a GET that raises; characters outside
    ASCII; paths other than POSIX ones. *)

From Stdlib Require Import ZArith String Ascii List Bool Lia Permutation.
From stdpp Require Import base decidable option list gmap strings pretty.

Local Open Scope string_scope.
Local Open Scope Z_scope.
Local Open Scope list_scope.

(** ** Exceptions

    A computation either returns or raises.  Only the exception classes that
    the code can meet are named. *)

Inductive PyExn : Type :=
| ValueError          (* urlparse on a bad authority, ThreadPoolExecutor(0) *)
| ZeroDivisionError   (* [x % 0] *)
| IndexError          (* [l[i]] out of range *)
| OSError             (* open / write *)
| RequestException    (* session.get, reading the body *)
| SearchException.    (* DDGS *)

Inductive exn (A : Type) : Type :=
| Ret (a : A)
| Raise (e : PyExn).
Arguments Ret {A} a.
Arguments Raise {A} e.

Global Instance exn_ret : MRet exn := fun _ a => Ret a.
Global Instance exn_bind : MBind exn := fun _ _ k m =>
  match m with
  | Ret a => k a
  | Raise e => Raise e
  end.

(** ** Strings, the Python way *)

Module Str.

Fixpoint take (n : nat) (s : string) : string :=
  match n, s with
  | S n', String c s' => String c (take n' s')
  | _, _ => ""
  end.

Fixpoint drop (n : nat) (s : string) : string :=
  match n, s with
  | S n', String _ s' => drop n' s'
  | _, _ => s
  end.

(** [s.find(c)], counting from [i]; [-1] when [c] does not occur. *)
Fixpoint find_from (c : ascii) (s : string) (i : Z) : Z :=
  match s with
  | "" => -1
  | String d s' => if Ascii.eqb c d then i else find_from c s' (i + 1)
  end.

Definition find (c : ascii) (s : string) : Z := find_from c s 0.

(** [s.rfind(c)]: [last] is the best index seen so far. *)
Fixpoint rfind_from (c : ascii) (s : string) (i last : Z) : Z :=
  match s with
  | "" => last
  | String d s' => rfind_from c s' (i + 1) (if Ascii.eqb c d then i else last)
  end.

Definition rfind (c : ascii) (s : string) : Z := rfind_from c s 0 (-1).

(** [c in s] *)
Fixpoint mem (c : ascii) (s : string) : bool :=
  match s with
  | "" => false
  | String d s' => Ascii.eqb c d || mem c s'
  end.

(** [s.startswith(p)] *)
Fixpoint startswith (p s : string) : bool :=
  match p, s with
  | "", _ => true
  | String a p', String b s' => Ascii.eqb a b && startswith p' s'
  | _, _ => false
  end.

(** [s.lstrip(c)] for a one-character argument *)
Fixpoint lstrip (c : ascii) (s : string) : string :=
  match s with
  | String d s' => if Ascii.eqb c d then lstrip c s' else s
  | "" => ""
  end.

(** [s.replace(a, b)] for one-character arguments *)
Fixpoint replace (a b : ascii) (s : string) : string :=
  match s with
  | "" => ""
  | String d s' => String (if Ascii.eqb a d then b else d) (replace a b s')
  end.

(** The part of [s] before the first character that satisfies [p], and the
    rest from that character on. *)
Fixpoint break (p : ascii -> bool) (s : string) : string * string :=
  match s with
  | "" => ("", "")
  | String d s' =>
      if p d then ("", s)
      else let '(a, b) := break p s' in (String d a, b)
  end.

(** [s.split(c, 1)] when [c in s]; [(s, "")] otherwise. *)
Definition split1 (c : ascii) (s : string) : string * string :=
  let '(a, b) := break (Ascii.eqb c) s in (a, drop 1 b).

(** [s.split(c)[0]] *)
Definition split_head (c : ascii) (s : string) : string :=
  fst (break (Ascii.eqb c) s).

Definition is_lower (c : ascii) : bool :=
  let n := nat_of_ascii c in (97 <=? n)%nat && (n <=? 122)%nat.
Definition is_upper (c : ascii) : bool :=
  let n := nat_of_ascii c in (65 <=? n)%nat && (n <=? 90)%nat.
Definition is_digit (c : ascii) : bool :=
  let n := nat_of_ascii c in (48 <=? n)%nat && (n <=? 57)%nat.
Definition is_alpha (c : ascii) : bool := is_lower c || is_upper c.

Definition lower_char (c : ascii) : ascii :=
  if is_upper c then ascii_of_nat (nat_of_ascii c + 32) else c.

Fixpoint lower (s : string) : string :=
  match s with
  | "" => ""
  | String d s' => String (lower_char d) (lower s')
  end.

Fixpoint all (p : ascii -> bool) (s : string) : bool :=
  match s with
  | "" => true
  | String d s' => p d && all p s'
  end.

(** truthiness of a [str] *)
Definition nonempty (s : string) : bool :=
  match s with "" => false | _ => true end.

Definition len (s : string) : Z := Z.of_nat (String.length s).

(** [s.lstrip(chars)], [p] telling the characters of [chars] *)
Fixpoint lstrip_chars (p : ascii -> bool) (s : string) : string :=
  match s with
  | String d s' => if p d then lstrip_chars p s' else s
  | "" => ""
  end.

(** [s] with every character that satisfies [p] taken out, as a chain of
    [s.replace(b, "")] leaves it *)
Fixpoint remove_chars (p : ascii -> bool) (s : string) : string :=
  match s with
  | "" => ""
  | String d s' => if p d then remove_chars p s' else String d (remove_chars p s')
  end.

(** [s.split(c)] *)
Fixpoint split (c : ascii) (s : string) : list string :=
  match s with
  | "" => [""]
  | String d s' =>
      if Ascii.eqb c d then "" :: split c s'
      else match split c s' with
           | part :: parts => String d part :: parts
           | [] => [String d ""]
           end
  end.

(** [s.rpartition(c)[2]] *)
Definition after_last (c : ascii) (s : string) : string :=
  let i := rfind c s in
  if i <? 0 then s else drop (Z.to_nat i + 1) s.

Definition is_hex (c : ascii) : bool :=
  let n := nat_of_ascii c in
  is_digit c || ((97 <=? n)%nat && (n <=? 102)%nat)
  || ((65 <=? n)%nat && (n <=? 70)%nat).

(** [int(s, 10)] for a string of digits *)
Fixpoint int_of_digits (acc : Z) (s : string) : Z :=
  match s with
  | "" => acc
  | String d s' => int_of_digits (10 * acc + (Z.of_nat (nat_of_ascii d) - 48)) s'
  end.

End Str.

(** ** [ipaddress]: the strings that [IPv4Address] and [IPv6Address] take

    Each function tells whether the library function of its name returns;
    it raises otherwise. *)

(** [IPv4Address._parse_octet] *)
Definition parse_octet (octet_str : string) : bool :=
  Str.nonempty octet_str
  && Str.all Str.is_digit octet_str
  && (String.length octet_str <=? 3)%nat
  && (String.eqb octet_str "0" || negb (Str.startswith "0" octet_str))
  && (Str.int_of_digits 0 octet_str <=? 255).

(** [IPv4Address(address)] *)
Definition IPv4Address (address : string) : bool :=
  negb (Str.mem "/" address)
  && Str.nonempty address
  && (let octets := Str.split "." address in
      (length octets =? 4)%nat && forallb parse_octet octets).

(** [IPv6Address._parse_hextet]; [int("", 16)] raises. *)
Definition parse_hextet (hextet_str : string) : bool :=
  Str.all Str.is_hex hextet_str
  && (String.length hextet_str <=? 4)%nat
  && Str.nonempty hextet_str.

(** The indices, counted from [i], of the empty strings of [parts]. *)
Fixpoint empty_parts (i : nat) (parts : list string) : list nat :=
  match parts with
  | [] => []
  | part :: rest =>
      if Str.nonempty part then empty_parts (S i) rest
      else i :: empty_parts (S i) rest
  end.

(** [IPv6Address._ip_int_from_string].  An IPv4 suffix is replaced by two
    hextets; their digits depend on its value and are well formed whatever
    it is, so [0] stands for each. *)
Definition ipv6_int_from_string (ip_str : string) : bool :=
  Str.nonempty ip_str
  && (let parts := Str.split ":" ip_str in
      (3 <=? length parts)%nat
      && (let '(parts, suffix) :=
            if Str.mem "." (List.last parts "")
            then (removelast parts ++ ["0"; "0"], IPv4Address (List.last parts ""))
            else (parts, true) in
          suffix
          && (length parts <=? 9)%nat
          && (let first_empty := negb (Str.nonempty (hd "" parts)) in
              let last_empty := negb (Str.nonempty (List.last parts "")) in
              (* [for i in range(1, len(parts) - 1): if not parts[i]: ...] *)
              match empty_parts 1 (removelast (tl parts)) with
              | [] =>
                  (length parts =? 8)%nat && negb first_empty && negb last_empty
                  && forallb parse_hextet parts
              | [skip_index] =>
                  let parts_hi := skip_index in
                  let parts_lo := (length parts - skip_index - 1)%nat in
                  (if first_empty then (parts_hi - 1 =? 0)%nat else true)
                  && (if last_empty then (parts_lo - 1 =? 0)%nat else true)
                  && (let parts_hi :=
                        if first_empty then (parts_hi - 1)%nat else parts_hi in
                      let parts_lo :=
                        if last_empty then (parts_lo - 1)%nat else parts_lo in
                      (parts_hi + parts_lo <=? 7)%nat
                      && forallb parse_hextet (List.firstn parts_hi parts)
                      && forallb parse_hextet
                           (List.skipn (length parts - parts_lo) parts))
              | _ => false                        (* more than one [::] *)
              end))).

(** [IPv6Address(address)], with [_split_scope_id] *)
Definition IPv6Address (address : string) : bool :=
  negb (Str.mem "/" address)
  && (let '(addr, rest) := Str.break (Ascii.eqb "%") address in
      match rest with
      | "" => ipv6_int_from_string addr                       (* no [%] *)
      | String _ scope_id =>
          Str.nonempty scope_id && negb (Str.mem "%" scope_id)
          && ipv6_int_from_string addr
      end).

(** ** [urllib.parse.urlparse]

    The library function, as far as the scraper reads its result: the
    leading blanks and the tabs and newlines that it takes out, the split
    into scheme, authority, path, parameters, query and fragment, and the
    [ValueError] on an authority whose brackets are unbalanced or do not
    hold an IPv6 or IPvFuture address.  URLs are taken to be ASCII. *)

Record ParseResult : Type := mkParseResult {
  scheme : string;
  netloc : string;
  path : string;
  params : string;
  query : string;
  fragment : string
}.

Definition scheme_char (c : ascii) : bool :=
  Str.is_alpha c || Str.is_digit c || Str.mem c "+-.".

Definition uses_params : list string :=
  [""; "ftp"; "hdl"; "prospero"; "http"; "imap"; "https"; "shttp"; "rtsp";
   "rtspu"; "sip"; "sips"; "mms"; "sftp"; "tel"].

(** [_splitparams] *)
Definition splitparams (url : string) : string * string :=
  let i :=
    if Str.mem "/" url then
      let r := Z.to_nat (Str.rfind "/" url) in
      let j := Str.find ";" (Str.drop r url) in
      if j <? 0 then -1 else Z.of_nat r + j
    else Str.find ";" url in
  if i <? 0 then (url, "")
  else (Str.take (Z.to_nat i) url, Str.drop (Z.to_nat i + 1) url).

(** [_WHATWG_C0_CONTROL_OR_SPACE] and [_UNSAFE_URL_BYTES_TO_REMOVE] *)
Definition c0_control_or_space (c : ascii) : bool := (nat_of_ascii c <=? 32)%nat.

Definition unsafe_url_byte (c : ascii) : bool :=
  let n := nat_of_ascii c in (n =? 9)%nat || (n =? 13)%nat || (n =? 10)%nat.

(** [re.match(r"\Av[a-fA-F0-9]+\..+\Z", hostname)], for a [hostname]
    that starts with [v] and holds no newline *)
Definition ipvfuture (hostname : string) : bool :=
  let '(digits, rest) :=
    Str.break (fun c => negb (Str.is_hex c)) (Str.drop 1 hostname) in
  Str.nonempty digits && Str.startswith "." rest && Str.nonempty (Str.drop 1 rest).

(** [_check_bracketed_host]: [ipaddress.ip_address] tries an IPv4 address
    first, which may not stand in brackets, and then an IPv6 one. *)
Definition check_bracketed_host (hostname : string) : exn unit :=
  if Str.startswith "v" hostname then
    if ipvfuture hostname then Ret tt else Raise ValueError
  else if IPv4Address hostname then Raise ValueError
  else if IPv6Address hostname then Ret tt
  else Raise ValueError.

(** [_check_bracketed_netloc] *)
Definition check_bracketed_netloc (netloc : string) : exn unit :=
  let hostname_and_port := Str.after_last "@" netloc in
  if Str.mem "[" hostname_and_port then
    let '(before_bracket, bracketed) := Str.split1 "[" hostname_and_port in
    if Str.nonempty before_bracket then Raise ValueError
    else
      let '(hostname, port) := Str.split1 "]" bracketed in
      if Str.nonempty port && negb (Str.startswith ":" port) then Raise ValueError
      else check_bracketed_host hostname
  else check_bracketed_host (Str.split_head ":" hostname_and_port).

Definition urlparse (url : string) : exn ParseResult :=
  let url := Str.lstrip_chars c0_control_or_space url in
  let url := Str.remove_chars unsafe_url_byte url in
  (* scheme *)
  let i := Str.find ":" url in
  let '(scheme, url) :=
    if (0 <? i) && Str.is_alpha (default "000"%char (String.get 0 url))
       && Str.all scheme_char (Str.take (Z.to_nat i) url)
    then (Str.lower (Str.take (Z.to_nat i) url), Str.drop (Z.to_nat i + 1) url)
    else ("", url) in
  (* authority *)
  '(netloc, url) ←
    (if Str.startswith "//" url then
       let '(netloc, rest) :=
         Str.break (fun c => Str.mem c "/?#") (Str.drop 2 url) in
       if (Str.mem "[" netloc && negb (Str.mem "]" netloc))
          || (Str.mem "]" netloc && negb (Str.mem "[" netloc))
       then Raise ValueError
       else if Str.mem "[" netloc && Str.mem "]" netloc
       then _ ← check_bracketed_netloc netloc; Ret (netloc, rest)
       else Ret (netloc, rest)
     else Ret ("", url));
  let '(url, fragment) := Str.split1 "#" url in
  let '(url, query) := Str.split1 "?" url in
  let '(url, params) :=
    if bool_decide (scheme ∈ uses_params) && Str.mem ";" url
    then splitparams url else (url, "") in
  Ret (mkParseResult scheme netloc url params query fragment).

(** ** [os.path.splitext] (POSIX flavour: [/] separates, [.] starts the
    extension, leading dots of the last component are not an extension) *)

Fixpoint skip_leading_dots (fuel : nat) (p : string) (filenameIndex dotIndex : Z) : bool :=
  match fuel with
  | O => false
  | S fuel' =>
      if filenameIndex <? dotIndex then
        if negb (String.eqb (Str.take 1 (Str.drop (Z.to_nat filenameIndex) p)) ".")
        then true
        else skip_leading_dots fuel' p (filenameIndex + 1) dotIndex
      else false
  end.

Definition splitext (p : string) : string * string :=
  let sepIndex := Str.rfind "/" p in
  let dotIndex := Str.rfind "." p in
  if (sepIndex <? dotIndex)
     && skip_leading_dots (String.length p) p (sepIndex + 1) dotIndex
  then (Str.take (Z.to_nat dotIndex) p, Str.drop (Z.to_nat dotIndex) p)
  else (p, "").

(** ** Responses *)

Definition bytes : Type := list Byte.byte.

Record Response : Type := mkResponse {
  status_code : Z;
  content_type : option string;   (* [headers.get("content-type")] *)
  content : exn bytes             (* reading the streamed body may raise *)
}.

(** [response.headers.get("content-type", "")] *)
Definition header_content_type (r : Response) : string :=
  default "" (content_type r).

Section Extension.

(** [mimetypes.guess_extension]: a table of the host system. *)
Variable guess_extension : string -> option string.

Definition get_extension_from_url_or_content (url : string) (response : Response)
  : exn string :=
  parsed ← urlparse url;
  let ext := snd (splitext (path parsed)) in
  if Str.nonempty ext && (Str.len ext <=? 5) then
    Ret (Str.lstrip "." ext)
  else
    let content_type := Str.split_head ";" (header_content_type response) in
    match guess_extension content_type with
    | Some guessed =>
        if Str.nonempty guessed then Ret (Str.lstrip "." guessed) else Ret "jpg"
    | None => Ret "jpg"
    end.

End Extension.

(** ** Python sets

    A [set] of strings is kept as the duplicate-free list of its members in
    the order they were added.  The code reads a set through membership and,
    in the memory control of the orchestrator, through [list(s)], whose
    order is the hash table's and is supplied by an oracle. *)

Definition pyset : Type := list string.

Definition set_in (x : string) (s : pyset) : bool := bool_decide (x ∈ s).

Definition set_add (x : string) (s : pyset) : pyset :=
  if set_in x s then s else s ++ [x].

(** ** The search adapter *)

(** What one call of the search backend hands over: result rows, each with
    its ["image"] field if it has one, until the rows end or the backend
    raises. *)
Inductive Results : Type :=
| NoMore
| Fails (e : PyExn)
| Row (image : option string) (rest : Results).

Fixpoint rows (results : Results) : list (option string) :=
  match results with
  | Row image rest => image :: rows rest
  | _ => []
  end.

Section SearchAdapter.

(** [DDGS().images]: the answer to the [n]-th query of the run. *)
Variable ddgs_images : nat -> string -> Z -> Results.

(** [for r in results: ...] with [urls] and [seen_urls] as they stand *)
Fixpoint scan_results (results : Results) (total_needed : Z)
    (seen_urls : pyset) (urls : list string) : exn (list string) * pyset :=
  match results with
  | NoMore => (Ret urls, seen_urls)
  | Fails e => (Raise e, seen_urls)
  | Row image rest =>
      let '(urls, seen_urls) :=
        match image with
        | Some url =>
            if Str.nonempty url && negb (set_in url seen_urls)
            then (urls ++ [url], set_add url seen_urls)
            else (urls, seen_urls)
        | None => (urls, seen_urls)
        end in
      if Z.of_nat (length urls) >=? total_needed
      then (Ret urls, seen_urls)                                  (* break *)
      else scan_results rest total_needed seen_urls urls
  end.

(** [for attempt in range(retries)], with [n] attempts left; [calls]
    counts the queries made so far. *)
Fixpoint fetch_attempts (n : nat) (keyword : string) (total_needed : Z)
    (seen_urls : pyset) (calls : nat) : exn (list string) * pyset * nat :=
  match n with
  | O => (Ret [], seen_urls, calls)
  | S n' =>
      let results := ddgs_images calls keyword (total_needed * 5) in
      let '(r, seen_urls) := scan_results results total_needed seen_urls [] in
      match r with
      | Ret urls => (Ret urls, seen_urls, S calls)
      | Raise _ =>                                   (* except Exception *)
          fetch_attempts n' keyword total_needed seen_urls (S calls)
      end
  end.

Definition fetch_image_urls (keyword : string) (total_needed : Z)
    (seen_urls : pyset) (calls : nat) (retries : Z)
  : exn (list string) * pyset * nat :=
  fetch_attempts (Z.to_nat retries) keyword total_needed seen_urls calls.

End SearchAdapter.

Definition default_retries : Z := 3.

(** ** The content fetcher *)

(** What the disk does with [open(file_path, "wb")] followed by
    [f.write(img_bytes)]. *)
Inductive WriteOutcome : Type :=
| WriteOk
| OpenFails                      (* no file is created *)
| WriteFails (written : bytes).  (* a truncated file is left behind *)

(** A file as a call has written it: [file_hash] is the digest that its
    name carries. *)
Record File : Type := mkFile {
  file_path : string;
  file_hash : string;
  file_content : bytes;
  file_complete : bool
}.

(** What the workers of a run share: the two sets, the disk, and the
    network as seen from outside: [requests] lists the GETs issued and
    [writes] counts the attempts to write a file.  [files] lists the files
    written, one entry for each [open(file_path, "wb")] that has
    succeeded, in the order of the writes; a path that is written again is
    listed again, and the disk then holds the later file (see [on_disk]). *)
Record Shared : Type := mkShared {
  seen_hashes : pyset;
  bad_domains : gset string;
  files : list File;
  requests : list string;
  writes : nat
}.

Definition log_request (url : string) (sh : Shared) : Shared :=
  mkShared (seen_hashes sh) (bad_domains sh) (files sh) (requests sh ++ [url]) (writes sh).

Definition add_hash (h : string) (sh : Shared) : Shared :=
  mkShared (set_add h (seen_hashes sh)) (bad_domains sh) (files sh) (requests sh) (writes sh).

Definition add_bad_domain (host : string) (sh : Shared) : Shared :=
  mkShared (seen_hashes sh) ({[host]} ∪ bad_domains sh) (files sh) (requests sh) (writes sh).

Definition log_write (sh : Shared) : Shared :=
  mkShared (seen_hashes sh) (bad_domains sh) (files sh) (requests sh) (S (writes sh)).

Definition add_file (f : File) (sh : Shared) : Shared :=
  mkShared (seen_hashes sh) (bad_domains sh) (files sh ++ [f]) (requests sh) (writes sh).

(** [os.path.join(a, b)], POSIX flavour *)
Definition path_join (a b : string) : string :=
  if Str.startswith "/" b then b
  else if negb (Str.nonempty a) || String.eqb (Str.drop (String.length a - 1) a) "/"
       then a +:+ b
       else a +:+ "/" +:+ b.

(** The oracles of the fetcher. *)
Record Net : Type := mkNet {
  (** [hashlib.md5(b).hexdigest()] *)
  md5_hexdigest : bytes -> string;
  (** [mimetypes.guess_extension] *)
  guess_extension : string -> option string;
  (** the answer to the [n]-th [session.get] of the run *)
  session_get : nat -> string -> exn Response;
  (** the outcome of the [n]-th attempt of the run to write a file *)
  disk : nat -> string -> WriteOutcome
}.

Section Fetcher.

Variable net : Net.
Variables (folder person_name : string) (max_retries : nat).

(** [response.status_code == 200 and
     response.headers.get("content-type", "").startswith("image")] *)
Definition acceptable (response : Response) : bool :=
  (status_code response =? 200)
  && Str.startswith "image" (header_content_type response).

(** [os.path.join(folder, f"{person_name.replace(' ', '_')}_{img_hash}.{ext}")] *)
Definition target_path (img_hash ext : string) : string :=
  path_join folder
    (Str.replace " " "_" person_name +:+ "_" +:+ img_hash +:+ "." +:+ ext).

(** [open(file_path, "wb")] and [f.write(img_bytes)]: the path returned,
    or [None] when either raises. *)
Definition write_image (file_path img_hash : string) (img_bytes : bytes)
    (sh : Shared) : option string * Shared :=
  let outcome := disk net (writes sh) file_path in
  let sh := log_write sh in
  match outcome with
  | WriteOk =>
      (Some file_path, add_file (mkFile file_path img_hash img_bytes true) sh)
  | OpenFails => (None, sh)
  | WriteFails written =>
      (None, add_file (mkFile file_path img_hash written false) sh)
  end.

(** *** As the source reads: one call, run to its end *)

(** [for attempt in range(max_retries)] with [n] attempts left; [None]
    when the loop runs out. *)
Fixpoint download_attempts (n : nat) (url : string) (sh : Shared)
  : option (exn (option string)) * Shared :=
  match n with
  | O => (None, sh)
  | S n' =>
      let answer := session_get net (length (requests sh)) url in
      let sh := log_request url sh in
      match answer with
      | Raise _ => download_attempts n' url sh           (* except: sleep(2) *)
      | Ret response =>
          if acceptable response then
            match content response with
            | Raise _ => download_attempts n' url sh
            | Ret img_bytes =>
                let img_hash := md5_hexdigest net img_bytes in
                (* with lock: *)
                if set_in img_hash (seen_hashes sh) then (Some (Ret None), sh)
                else
                  let sh := add_hash img_hash sh in
                  match get_extension_from_url_or_content
                          (guess_extension net) url response with
                  | Raise _ => download_attempts n' url sh
                  | Ret ext =>
                      match write_image (target_path img_hash ext)
                              img_hash img_bytes sh with
                      | (Some file_path, sh) => (Some (Ret (Some file_path)), sh)
                      | (None, sh) => download_attempts n' url sh
                      end
                  end
            end
          else download_attempts n' url sh
      end
  end.

Definition download_image (url : string) (sh : Shared)
  : exn (option string) * Shared :=
  match urlparse url with
  | Raise e => (Raise e, sh)
  | Ret parsed =>
      if bool_decide (netloc parsed ∈ bad_domains sh) then (Ret None, sh)
      else
        match download_attempts max_retries url sh with
        | (Some r, sh) => (r, sh)
        | (None, sh) => (Ret None, add_bad_domain (netloc parsed) sh)
        end
  end.

(** *** As the threads run it: one step at a time

    A worker is at one of the points of [download_image] where it reads
    or writes what it shares with the others: before the blocklist check,
    before a GET, before taking the lock, before writing the file, before
    blocklisting the host, or past its [return]. *)
Inductive Pc : Type :=
| AtStart
| AtGet (attempt : nat)
| AtLock (attempt : nat) (response : Response) (img_bytes : bytes)
| AtWrite (attempt : nat) (response : Response) (img_bytes : bytes)
| AtBlock
| Finished (result : exn (option string)).

(** Where the loop goes after attempt number [attempt] has failed. *)
Definition next_attempt (attempt : nat) : Pc :=
  if (S attempt <? max_retries)%nat then AtGet (S attempt) else AtBlock.

(** The host of a URL that [urlparse] accepted. *)
Definition host_of (url : string) : string :=
  match urlparse url with
  | Ret parsed => netloc parsed
  | Raise _ => ""
  end.

Definition worker_step (url : string) (pc : Pc) (sh : Shared) : Pc * Shared :=
  match pc with
  | AtStart =>
      match urlparse url with
      | Raise e => (Finished (Raise e), sh)
      | Ret parsed =>
          if bool_decide (netloc parsed ∈ bad_domains sh)
          then (Finished (Ret None), sh)
          else (if (0 <? max_retries)%nat then AtGet 0 else AtBlock, sh)
      end
  | AtGet attempt =>
      let answer := session_get net (length (requests sh)) url in
      let sh := log_request url sh in
      match answer with
      | Raise _ => (next_attempt attempt, sh)
      | Ret response =>
          if acceptable response then
            match content response with
            | Raise _ => (next_attempt attempt, sh)
            | Ret img_bytes => (AtLock attempt response img_bytes, sh)
            end
          else (next_attempt attempt, sh)
      end
  | AtLock attempt response img_bytes =>
      let img_hash := md5_hexdigest net img_bytes in
      if set_in img_hash (seen_hashes sh) then (Finished (Ret None), sh)
      else (AtWrite attempt response img_bytes, add_hash img_hash sh)
  | AtWrite attempt response img_bytes =>
      let img_hash := md5_hexdigest net img_bytes in
      match get_extension_from_url_or_content
              (guess_extension net) url response with
      | Raise _ => (next_attempt attempt, sh)
      | Ret ext =>
          match write_image (target_path img_hash ext) img_hash img_bytes sh with
          | (Some file_path, sh) => (Finished (Ret (Some file_path)), sh)
          | (None, sh) => (next_attempt attempt, sh)
          end
      end
  | AtBlock => (Finished (Ret None), add_bad_domain (host_of url) sh)
  | Finished result => (Finished result, sh)
  end.

(** A worker on its own, for [fuel] steps. *)
Fixpoint run_worker (fuel : nat) (url : string) (pc : Pc) (sh : Shared)
  : Pc * Shared :=
  match fuel with
  | O => (pc, sh)
  | S fuel' =>
      let '(pc, sh) := worker_step url pc sh in run_worker fuel' url pc sh
  end.

End Fetcher.

(** ** The worker pool

    [ThreadPoolExecutor(max_workers=threads)] runs the submitted calls on
    [threads] threads: the calls are taken up in the order of submission, so
    the ones that can move are the first [threads] unfinished ones.  Which of
    them moves next is the scheduler's choice. *)

Record Worker : Type := mkWorker {
  w_url : string;
  w_pc : Pc
}.

Definition is_finished (pc : Pc) : bool :=
  match pc with Finished _ => true | _ => false end.

Fixpoint unfinished_from (i : nat) (ws : list Worker) : list nat :=
  match ws with
  | [] => []
  | w :: ws' =>
      if is_finished (w_pc w) then unfinished_from (S i) ws'
      else i :: unfinished_from (S i) ws'
  end.

Definition runnable (threads : nat) (ws : list Worker) : list nat :=
  take threads (unfinished_from 0 ws).

(** [executor.submit(download_image, url, ...) for url in image_urls] *)
Definition submit (image_urls : list string) : list Worker :=
  (fun url => mkWorker url AtStart) <$> image_urls.

(** The state of a round: the workers, what they share, and the results of
    the finished ones in the order of completion. *)
Record Pool : Type := mkPool {
  workers : list Worker;
  shared : Shared;
  completed : list (exn (option string))
}.

Section PoolRun.

Variable net : Net.
Variables (folder person_name : string) (max_retries : nat).
Variable threads : nat.
(** [schedule n]: the position, among the runnable workers, of the one
    that takes step [n] of the round (modulo their number). *)
Variable schedule : nat -> nat.

(** Worker [w], at position [i], takes a step. *)
Definition advance (i : nat) (w : Worker) (p : Pool) : Pool :=
  let '(pc, sh) :=
    worker_step net folder person_name max_retries (w_url w) (w_pc w) (shared p) in
  mkPool (<[i := mkWorker (w_url w) pc]> (workers p)) sh
    (match pc with
     | Finished result => completed p ++ [result]
     | _ => completed p
     end).

Definition pool_step (n : nat) (p : Pool) : Pool :=
  let rs := runnable threads (workers p) in
  match rs !! (schedule n mod length rs)%nat with
  | None => p
  | Some i =>
      match workers p !! i with
      | None => p
      | Some w => advance i w p
      end
  end.

Fixpoint run_pool (fuel : nat) (n : nat) (p : Pool) : Pool :=
  match fuel with
  | O => p
  | S fuel' => run_pool fuel' (S n) (pool_step n p)
  end.

(** Steps that a worker has left at most. *)
Definition steps_left (pc : Pc) : nat :=
  match pc with
  | AtStart => 3 * max_retries + 5
  | AtGet attempt => 3 * (max_retries - attempt) + 4
  | AtLock attempt _ _ => 3 * (max_retries - attempt) + 3
  | AtWrite attempt _ _ => 3 * (max_retries - attempt) + 2
  | AtBlock => 1
  | Finished _ => 0
  end.

(** The [with ThreadPoolExecutor(...)] block to its end: every call has
    returned. *)
Definition dispatch (image_urls : list string) (sh : Shared)
  : list (exn (option string)) * Shared :=
  let p := run_pool (length image_urls * (3 * max_retries + 5)) 0
             (mkPool (submit image_urls) sh []) in
  (completed p, shared p).

End PoolRun.

Definition initial_shared : Shared := mkShared [] ∅ [] [] 0.

(** ** The orchestrator *)

(** The state of [download_images]: its two sets of URLs and of digests
    (the latter inside [run_shared], with the blocklist, the disk and the
    network), the number of backend queries made, and its three counters. *)
Record Run : Type := mkRun {
  seen_urls : pyset;
  ddgs_calls : nat;
  run_shared : Shared;
  downloaded_count : Z;
  batch_number : Z;
  term_index : Z
}.

Definition initial_run : Run := mkRun [] 0 initial_shared 0 0 0.

(** How a call of [download_images] stands after a number of rounds: it has
    returned, an exception has escaped it, or it is still looping. *)
Inductive Outcome : Type :=
| Done (st : Run)
| Crashed (e : PyExn) (st : Run)
| Running (st : Run).

(** What one pass through the body of the [while] loop comes to. *)
Inductive Pass : Type :=
| Continue (st : Run)
| Break (st : Run)
| Escapes (e : PyExn) (st : Run).

(** [if result:] on what a call of [download_image] returned *)
Definition truthy (result : option string) : bool :=
  match result with
  | Some file_path => Str.nonempty file_path
  | None => false
  end.

(** [for future in as_completed(future_to_url): ...]: the results come in
    the order of completion; an exception of a worker is caught here. *)
Fixpoint collect (results : list (exn (option string))) (num_images : Z)
    (downloaded_count : Z) : Z :=
  match results with
  | [] => downloaded_count
  | Raise _ :: rest => collect rest num_images downloaded_count   (* except *)
  | Ret result :: rest =>
      let downloaded_count :=
        if truthy result then downloaded_count + 1 else downloaded_count in
      if downloaded_count >=? num_images then downloaded_count     (* break *)
      else collect rest num_images downloaded_count
  end.

Section Orchestrator.

(** The two collaborators, as the orchestrator calls them: the search
    adapter, and the worker pool with [download_image] submitted for every
    URL (told the round, the number of threads, the folder and the name). *)
Variable search : string -> Z -> pyset -> nat -> exn (list string) * pyset * nat.
Variable fetch_all :
  nat -> nat -> list string -> string -> string -> Shared ->
  list (exn (option string)) * Shared.
(** [list(s)] of a set [s]: its members in the order of the hash table *)
Variable set_order : list string -> list string.

Variable search_terms : list string.
Variable save_name : string.
Variable num_images : Z.
Variable save_folder : string.
Variables threads batch_size : Z.

(** [set(list(s)[-25000:])] when [len(s) > 50000] *)
Definition truncate (s : pyset) : pyset :=
  if 50000 <? Z.of_nat (length s)
  then drop (Z.to_nat (Z.of_nat (length (set_order s)) - 25000)) (set_order s)
  else s.

Definition truncate_hashes (sh : Shared) : Shared :=
  mkShared (truncate (seen_hashes sh)) (bad_domains sh) (files sh)
    (requests sh) (writes sh).

Definition folder : string :=
  path_join save_folder (Str.replace " " "_" save_name).

(** The body of [while downloaded_count < num_images]. *)
Definition pass (st : Run) : Pass :=
  let len := Z.of_nat (length search_terms) in
  if len =? 0 then Escapes ZeroDivisionError st
  else
    match search_terms !! Z.to_nat (term_index st mod len) with
    | None => Escapes IndexError st
    | Some keyword =>
        let remaining := num_images - downloaded_count st in
        let batch := Z.min batch_size remaining in
        let '(answer, seen_urls, ddgs_calls) :=
          search keyword batch (seen_urls st) (ddgs_calls st) in
        let st := mkRun seen_urls ddgs_calls (run_shared st)
                    (downloaded_count st) (batch_number st) (term_index st) in
        match answer with
        | Raise e => Escapes e st
        | Ret [] =>
            let st := mkRun seen_urls ddgs_calls (run_shared st)
                        (downloaded_count st) (batch_number st)
                        (term_index st + 1) in
            if term_index st >=? len then Break st else Continue st
        | Ret image_urls =>
            if threads <=? 0 then Escapes ValueError st
            else
              let '(results, sh) :=
                fetch_all (Z.to_nat (batch_number st)) (Z.to_nat threads)
                  image_urls folder save_name (run_shared st) in
              let downloaded_count :=
                collect results num_images (downloaded_count st) in
              Continue
                (mkRun (truncate seen_urls) ddgs_calls (truncate_hashes sh)
                   downloaded_count (batch_number st + 1) (term_index st + 1))
        end
    end.

(** [fuel] bounds the passes. *)
Fixpoint download_loop (fuel : nat) (st : Run) : Outcome :=
  if downloaded_count st <? num_images then
    match fuel with
    | O => Running st
    | S fuel' =>
        match pass st with
        | Continue st => download_loop fuel' st
        | Break st => Done st
        | Escapes e st => Crashed e st
        end
    end
  else Done st.

Definition download_images_with (fuel : nat) : Outcome :=
  download_loop fuel initial_run.

End Orchestrator.

(** The oracles of a run. *)
Record Env : Type := mkEnv {
  ddgs_images : nat -> string -> Z -> Results;
  network : Net;
  (** the scheduler of round [r] *)
  schedule : nat -> nat -> nat;
  set_iteration : list string -> list string
}.

(** [max_retries=3] *)
Definition default_max_retries : nat := 3.

(** The two collaborators of the source: [fetch_image_urls] with its
    default [retries], and the pool with [download_image] submitted for every
    URL. *)
Definition search_adapter (env : Env)
  : string -> Z -> pyset -> nat -> exn (list string) * pyset * nat :=
  fun keyword total_needed seen_urls calls =>
    fetch_image_urls (ddgs_images env) keyword total_needed seen_urls calls
      default_retries.

Definition worker_pool (env : Env)
  : nat -> nat -> list string -> string -> string -> Shared ->
    list (exn (option string)) * Shared :=
  fun round threads image_urls folder save_name sh =>
    dispatch (network env) folder save_name default_max_retries threads
      (schedule env round) image_urls sh.

Definition download_images (env : Env) (search_terms : list string)
    (save_name : string) (num_images : Z) (save_folder : string)
    (threads batch_size : Z) (fuel : nat) : Outcome :=
  download_images_with (search_adapter env) (worker_pool env) (set_iteration env)
    search_terms save_name num_images save_folder threads batch_size fuel.

(** * The notions the theorems are stated with *)

(** The character of [p] at index [k] is not a dot. *)
Definition not_dot_at (p : string) (k : Z) : Prop :=
  Str.take 1 (Str.drop (Z.to_nat k) p) <> ".".

(** The last component of path [p] carries an extension [e]: it ends in a
    dot followed by [e], with a character other than a dot before it. *)
Definition has_extension (p e : string) : Prop :=
  exists (pre post : string) (c : ascii),
    p = pre +:+ String c post +:+ "." +:+ e
    /\ c <> "."%char /\ c <> "/"%char
    /\ Str.mem "/" post = false
    /\ Str.mem "." e = false /\ Str.mem "/" e = false.

(** The last component of path [p] holds no dot. *)
Definition has_no_dot (p : string) : Prop :=
  exists dir name : string,
    p = dir +:+ name
    /\ (dir = "" \/ exists d, dir = d +:+ "/")
    /\ Str.mem "/" name = false /\ Str.mem "." name = false.

(** The last component of path [p] has no extension: it is made of dots
    (none in a plain name, some in a dot file such as [.png]) and then of
    a name that holds no dot. *)
Definition has_no_extension (p : string) : Prop :=
  exists dir dots name : string,
    p = dir +:+ dots +:+ name
    /\ (dir = "" \/ exists d, dir = d +:+ "/")
    /\ Str.all (Ascii.eqb ".") dots = true
    /\ Str.mem "/" name = false /\ Str.mem "." name = false.

(** The URLs a scan of [images] finds new against [seen]: the non-empty
    ones, neither in [seen] nor met earlier in the scan, in their order. *)
Fixpoint fresh (seen : pyset) (images : list (option string)) : list string :=
  match images with
  | [] => []
  | Some url :: rest =>
      if Str.nonempty url && negb (set_in url seen)
      then url :: fresh (seen ++ [url]) rest
      else fresh seen rest
  | None :: rest => fresh seen rest
  end.

(** A scan only raises where the backend does. *)
Fixpoint never_fails (results : Results) : Prop :=
  match results with
  | NoMore => True
  | Fails _ => False
  | Row _ rest => never_fails rest
  end.

(** An answer breaks off short of the target: the backend raises before
    the scan has met [total_needed] new URLs. *)
Definition breaks_off (total_needed : Z) (seen : pyset) (results : Results) : Prop :=
  ~ never_fails results
  /\ Z.of_nat (length (fresh seen (rows results))) < total_needed.

(** The set as attempt number [k] of a call finds it, the attempts before
    it having broken off: each of them has added the new URLs of its
    rows.  The first attempt is query number [calls] of the run. *)
Fixpoint seen_after (ddgs_images : nat -> string -> Z -> Results)
    (keyword : string) (total_needed : Z) (seen : pyset) (calls k : nat) : pyset :=
  match k with
  | O => seen
  | S k' =>
      let seen_k := seen_after ddgs_images keyword total_needed seen calls k' in
      seen_k
      ++ fresh seen_k (rows (ddgs_images (calls + k')%nat keyword (total_needed * 5)))
  end.

(** What a call makes of the outcome of its loop. *)
Definition conclude (url : string)
    (looped : option (exn (option string)) * Shared) : Pc * Shared :=
  match looped with
  | (Some r, sh) => (Finished r, sh)
  | (None, sh) => (Finished (Ret None), add_bad_domain (host_of url) sh)
  end.

Section RunStates.

Variable net : Net.
Variables (folder person_name : string) (max_retries : nat).

(** The digest that a worker about to write has put into the set. *)
Definition held (pc : Pc) : option string :=
  match pc with
  | AtWrite _ _ img_bytes => Some (md5_hexdigest net img_bytes)
  | _ => None
  end.

(** How a run moves while its set of digests stays live: the
    orchestrator submits a batch when every call of the batch before has
    returned, and the workers step in any order. *)
Inductive evolves (p : Pool) : Pool -> Prop :=
| ev_refl : evolves p p
| ev_submit (q : Pool) (image_urls : list string) :
    evolves p q ->
    (forall w, w ∈ workers q -> is_finished (w_pc w) = true) ->
    evolves p (mkPool (submit image_urls) (shared q) [])
| ev_step (q : Pool) (i : nat) (w : Worker) :
    evolves p q ->
    workers q !! i = Some w ->
    evolves p (advance net folder person_name max_retries i w q).

(** The states of a run that has started with empty sets. *)
Definition reachable (p : Pool) : Prop :=
  evolves (mkPool [] initial_shared []) p.

(** Worker [i] holds digest [h]: it has put [h] into the set and is about
    to write the file. *)
Definition holds (ws : list Worker) (i : nat) (h : string) : Prop :=
  exists w, ws !! i = Some w /\ held (w_pc w) = Some h.

(** What every state of a run satisfies: the files carry distinct digests,
    all of them in the set; a complete file carries the digest of its
    content; a digest that a worker holds is in the set, on no file, and
    held by no other worker. *)
Record dedup_inv (p : Pool) : Prop := mk_dedup_inv {
  inv_nodup : NoDup (file_hash <$> files (shared p));
  inv_files_seen :
    forall h, h ∈ file_hash <$> files (shared p) -> h ∈ seen_hashes (shared p);
  inv_complete :
    forall f, f ∈ files (shared p) -> file_complete f = true ->
              md5_hexdigest net (file_content f) = file_hash f;
  inv_held_seen :
    forall i h, holds (workers p) i h -> h ∈ seen_hashes (shared p);
  inv_held_free :
    forall i h, holds (workers p) i h -> h ∉ file_hash <$> files (shared p);
  inv_held_once :
    forall i j h, holds (workers p) i h -> holds (workers p) j h -> i = j
}.

(** The steps that the workers of a pool have left at most. *)
Definition total_left (ws : list Worker) : nat :=
  sum_list_with (fun w => steps_left max_retries (w_pc w)) ws.

End RunStates.

(** [ceil(n / b)] for [b >= 1] *)
Definition ceil_div (n b : Z) : Z := (n + b - 1) / b.

(** The calls of a batch that returned a path. *)
Fixpoint successes (results : list (exn (option string))) : Z :=
  match results with
  | [] => 0
  | Ret result :: rest => (if truthy result then 1 else 0) + successes rest
  | Raise _ :: rest => successes rest
  end.

(** The state that a run, or a pass, ends in. *)
Definition final (o : Outcome) : Run :=
  match o with Done st | Crashed _ st | Running st => st end.

Definition after (p : Pass) : Run :=
  match p with Continue st | Break st | Escapes _ st => st end.

(** * Sample hosts, networks and backends *)

(** A few rows of the table that [mimetypes] ships, as a sample host. *)
Definition sample_types_map (content_type : string) : option string :=
  if String.eqb content_type "image/jpeg" then Some ".jpg"
  else if String.eqb content_type "image/png" then Some ".png"
  else if String.eqb content_type "image/gif" then Some ".gif"
  else if String.eqb content_type "image/webp" then Some ".webp"
  else None.

Definition html_response : Response := mkResponse 200 (Some "text/html") (Ret []).
Definition webp_response : Response :=
  mkResponse 200 (Some "image/webp; charset=binary") (Ret []).
Definition odd_response : Response :=
  mkResponse 200 (Some "application/x-unknown") (Ret []).

(** A backend whose first answer breaks off after two rows and whose later
    answers are complete. *)
Definition sample_backend (n : nat) (keyword : string) (max_results : Z) : Results :=
  match n with
  | O => Row (Some "http://a/1.jpg") (Row None (Row (Some "http://b/2.png")
           (Fails SearchException)))
  | _ => Row (Some "http://a/1.jpg") (Row (Some "") (Row (Some "http://c/3.jpg")
           (Row (Some "http://c/3.jpg") (Row (Some "http://d/4.gif")
           (Row (Some "http://e/5.jpg") NoMore)))))
  end.

Definition sample_digest (b : bytes) : string := string_of_list_byte b.

Definition picture : Response :=
  mkResponse 200 (Some "image/jpeg") (Ret [Byte.x61; Byte.x62]).

(** Every GET answers with the same picture; the disk takes every file. *)
Definition same_picture_net : Net :=
  mkNet sample_digest sample_types_map
    (fun _ _ => Ret picture) (fun _ _ => WriteOk).

(** Every GET times out. *)
Definition dead_net : Net :=
  mkNet sample_digest sample_types_map
    (fun _ _ => Raise RequestException) (fun _ _ => WriteOk).

(** The pictures differ from one GET to the next; the disk is full. *)
Definition full_disk_net : Net :=
  mkNet sample_digest sample_types_map
    (fun n _ => Ret (mkResponse 200 (Some "image/png")
                       (Ret [match n with O => Byte.x61 | _ => Byte.x62 end])))
    (fun _ _ => OpenFails).

Definition url_a : string := "http://a.example/cat.jpg".
Definition url_b : string := "http://b.example/pics/cat".
Definition parsed_a : ParseResult :=
  mkParseResult "http" "a.example" "/cat.jpg" "" "" "".
Definition parsed_b : ParseResult :=
  mkParseResult "http" "b.example" "/pics/cat" "" "" "".

Definition numbered (n : nat) : string := "http://x.example/" +:+ pretty n.

(** A set of 50,001 URLs, in the order of insertion. *)
Definition crowded : pyset := numbered <$> seq 0 (S (Z.to_nat 50000)).

(** An adapter that finds as many new URLs as it is asked for, and a pool
    in which every call saves a file. *)
Definition full_search (keyword : string) (total_needed : Z) (seen : pyset)
    (calls : nat) : exn (list string) * pyset * nat :=
  let urls := numbered <$> seq (length seen) (Z.to_nat total_needed) in
  (Ret urls, seen ++ urls, S calls).

Definition lucky_pool (round workers : nat) (image_urls : list string)
    (dir name : string) (sh : Shared) : list (exn (option string)) * Shared :=
  ((fun url => Ret (Some ("saved/" +:+ url))) <$> image_urls, sh).

(** A backend without results, and one that is down. *)
Definition quiet_env : Env :=
  mkEnv (fun _ _ _ => NoMore) same_picture_net (fun _ n => n) (fun s => s).

Definition flaky_env : Env :=
  mkEnv sample_backend dead_net (fun _ n => n) reverse.

(** * More notions: what a call and a round leave behind *)

(** The files of [fs] that were written to their end. *)
Definition complete (fs : list File) : list File :=
  List.filter file_complete fs.

(** The disk as the writes leave it: [open(file_path, "wb")] truncates a
    file that is there, so of the files written to one path the disk holds
    the last. *)
Fixpoint on_disk (written : list File) : list File :=
  match written with
  | [] => []
  | f :: rest =>
      if bool_decide (file_path f ∈ file_path <$> rest) then on_disk rest
      else f :: on_disk rest
  end.

(** No file of [fs] was written to its end. *)
Definition all_partial (fs : list File) : Prop :=
  Forall (fun f => file_complete f = false) fs.

(** [for url in image_urls: download_image(url, ...)], one call after the
    other, in one thread. *)
Fixpoint download_each (net : Net) (folder person_name : string)
    (max_retries : nat) (image_urls : list string) (sh : Shared)
  : list (exn (option string)) * Shared :=
  match image_urls with
  | [] => ([], sh)
  | url :: rest =>
      let '(r, sh) := download_image net folder person_name max_retries url sh in
      let '(rs, sh) := download_each net folder person_name max_retries rest sh in
      (r :: rs, sh)
  end.

(** The GETs that a worker can still issue. *)
Definition gets_left (max_retries : nat) (pc : Pc) : nat :=
  match pc with
  | AtStart => max_retries
  | AtGet attempt => S (max_retries - S attempt)
  | AtLock attempt _ _ | AtWrite attempt _ _ => max_retries - S attempt
  | AtBlock | Finished _ => 0
  end.

(** The calls of a round that have returned. *)
Definition finished_count (ws : list Worker) : nat :=
  sum_list_with (fun w => if is_finished (w_pc w) then 1%nat else 0%nat) ws.

(** What holds of a round as it runs, when it has started in state [sh0]
    with the calls for [image_urls] submitted: the results collected are
    those of the calls that have returned; the files written to their end
    are those whose path a call has returned; the GETs issued are for
    submitted URLs and within the budget of the calls. *)
Record round_inv (max_retries : nat) (sh0 : Shared) (image_urls : list string)
    (p : Pool) : Prop := mk_round_inv {
  round_urls : w_url <$> workers p = image_urls;
  round_results : length (completed p) = finished_count (workers p);
  round_saved :
    Z.of_nat (length (complete (files (shared p))))
    = Z.of_nat (length (complete (files sh0))) + successes (completed p);
  round_requests :
    exists gets,
      requests (shared p) = requests sh0 ++ gets
      /\ (forall u, u ∈ gets -> u ∈ image_urls)
      /\ (length gets
          + sum_list_with (fun w => gets_left max_retries (w_pc w)) (workers p)
          <= length image_urls * max_retries)%nat
}.

(** * The cropper's choice of files ([crop_faces.py]) *)

(** [s.endswith(suffix)]: some tail of [s] is [suffix]. *)
Fixpoint endswith (suffix s : string) : bool :=
  String.eqb suffix s
  || match s with
     | String _ s' => endswith suffix s'
     | EmptyString => false
     end.

Definition image_suffixes : list string :=
  [".png"; ".jpg"; ".jpeg"; ".bmp"; ".tiff"].

(** [filename.lower().endswith(('.png', '.jpg', '.jpeg', '.bmp', '.tiff'))]:
    the files of a folder that the cropper reads; it passes over the
    others. *)
Definition is_image_name (filename : string) : bool :=
  existsb (fun suffix => endswith suffix (Str.lower filename)) image_suffixes.

(** * More samples *)

(** A URL whose authority opens a bracket that it does not close. *)
Definition broken_url : string := "http://[::1/cat.jpg".

(** A backend that is down. *)
Definition down_env : Env :=
  mkEnv (fun _ _ _ => Fails SearchException) dead_net (fun _ n => n) (fun s => s).

(** 50,001 digests in the order of insertion, the newest of them that of
    the sample picture; and a state in which the picture is on disk. *)
Definition crowded_hashes : pyset :=
  (numbered <$> seq 0 (Z.to_nat 50000)) ++ ["ab"].

Definition picture_file : File :=
  mkFile "images/Ben/Ben_ab.jpg" "ab" [Byte.x61; Byte.x62] true.

Definition crowded_shared : Shared :=
  mkShared crowded_hashes ∅ [picture_file] [url_a] 1.

(** A backend that offers the newest URL of [crowded] again. *)
Definition stale_backend (n : nat) (keyword : string) (max_results : Z) : Results :=
  Row (Some (numbered (Z.to_nat 50000))) NoMore.

(** A pool in which every call returns [None]. *)
Definition unlucky_pool (round workers : nat) (image_urls : list string)
    (dir name : string) (sh : Shared) : list (exn (option string)) * Shared :=
  ((fun _ => Ret None) <$> image_urls, sh).

(** An adapter that refuses a request for no URL at all, and answers the
    others as the adapter of the source does. *)
Definition strict_adapter (env : Env) (keyword : string) (total_needed : Z)
    (seen : pyset) (calls : nat) : exn (list string) * pyset * nat :=
  if total_needed <=? 0 then (Raise ValueError, seen, calls)
  else search_adapter env keyword total_needed seen calls.

(** * Facts about the string functions *)

Module StrFacts.
Import Str.

Lemma append_nil (b : string) : "" +:+ b = b.
Proof. reflexivity. Qed.

Lemma append_cons (d : ascii) (a b : string) :
  String d a +:+ b = String d (a +:+ b).
Proof. reflexivity. Qed.

Lemma append_assoc (a b c : string) : a +:+ b +:+ c = (a +:+ b) +:+ c.
Proof.
  induction a as [|d a IH]; rewrite ?append_nil, ?append_cons; [done | by f_equal].
Qed.

Lemma take_app (a b : string) : take (String.length a) (a +:+ b) = a.
Proof. induction a as [|c a IH]; simpl; [by destruct b | by rewrite IH]. Qed.

Lemma drop_app (a b : string) : drop (String.length a) (a +:+ b) = b.
Proof. induction a as [|c a IH]; simpl; [by destruct b | done]. Qed.

Lemma mem_app (c : ascii) (a b : string) : mem c (a +:+ b) = mem c a || mem c b.
Proof.
  induction a as [|d a IH]; simpl; [done|].
  rewrite IH. by rewrite orb_assoc.
Qed.

Lemma length_app (a b : string) :
  String.length (a +:+ b) = (String.length a + String.length b)%nat.
Proof. induction a as [|c a IH]; simpl; [done | by rewrite IH]. Qed.

Lemma rfind_from_app (c : ascii) (a b : string) (i last : Z) :
  rfind_from c (a +:+ b) i last
  = rfind_from c b (i + Z.of_nat (String.length a)) (rfind_from c a i last).
Proof.
  revert i last. induction a as [|d a IH]; intros i last; simpl.
  - by rewrite Z.add_0_r.
  - rewrite IH. f_equal. lia.
Qed.

Lemma rfind_from_absent (c : ascii) (s : string) (i last : Z) :
  mem c s = false -> rfind_from c s i last = last.
Proof.
  revert i last. induction s as [|d s IH]; intros i last H; simpl in *; [done|].
  apply orb_false_elim in H as [-> H]. by apply IH.
Qed.

Lemma rfind_from_bound (c : ascii) (s : string) (i last : Z) :
  last < i ->
  last <= rfind_from c s i last < i + Z.of_nat (String.length s).
Proof.
  revert i last. induction s as [|d s IH]; intros i last H; simpl.
  - lia.
  - destruct (Ascii.eqb c d).
    + specialize (IH (i + 1) i ltac:(lia)). lia.
    + specialize (IH (i + 1) last ltac:(lia)). lia.
Qed.

Lemma rfind_bound (c : ascii) (s : string) :
  -1 <= rfind c s < Z.of_nat (String.length s).
Proof. unfold rfind. pose proof (rfind_from_bound c s 0 (-1)). lia. Qed.

Lemma lstrip_other (c : ascii) (s : string) :
  mem c s = false -> lstrip c s = s.
Proof.
  destruct s as [|d s]; simpl; [done|].
  intros H. apply orb_false_elim in H as [-> _]. done.
Qed.

Lemma break_absent (p : ascii -> bool) (s : string) :
  all (fun c => negb (p c)) s = true -> break p s = (s, "").
Proof.
  induction s as [|d s IH]; simpl; [done|].
  intros H. apply andb_prop in H as [Hd Hs].
  apply negb_true_iff in Hd. rewrite Hd, (IH Hs). done.
Qed.

End StrFacts.

(** * Facts about [splitext] *)

Section SplitextFacts.
Import Str StrFacts.

Lemma skip_leading_dots_true (fuel : nat) (p : string) (i d k : Z) :
  0 <= i <= k -> k < d -> (Z.to_nat (k - i) < fuel)%nat ->
  not_dot_at p k ->
  skip_leading_dots fuel p i d = true.
Proof.
  revert i. induction fuel as [|fuel IH]; intros i Hik Hkd Hfuel Hk; [lia|].
  cbn [skip_leading_dots]. destruct (Z.ltb_spec i d); [|lia].
  destruct (String.eqb_spec (take 1 (drop (Z.to_nat i) p)) ".") as [Hdot|Hdot];
    cbn [negb]; [|done].
  assert (i <> k) by (intros ->; by apply Hk).
  apply IH; [lia|lia|lia|done].
Qed.

Lemma skip_leading_dots_false (fuel : nat) (p : string) (i d : Z) :
  d <= i -> skip_leading_dots fuel p i d = false.
Proof. destruct fuel; simpl; [done|]. destruct (Z.ltb_spec i d); [lia|done]. Qed.

(** A path [pre +:+ c :: post +:+ "." +:+ e], where [c] is a character of the
    last component other than a dot and [e] holds neither dot nor slash,
    splits before its last dot. *)
Lemma splitext_extension (pre post e : string) (c : ascii) :
  c <> "."%char -> c <> "/"%char ->
  mem "/" post = false ->
  mem "." e = false -> mem "/" e = false ->
  splitext (pre +:+ String c post +:+ "." +:+ e)
  = (pre +:+ String c post, "." +:+ e).
Proof.
  intros Hc1 Hc2 Hpost He1 He2.
  set (root := pre +:+ String c post).
  assert (Hp : pre +:+ String c post +:+ "." +:+ e = root +:+ "." +:+ e).
  { unfold root. by rewrite append_assoc. }
  rewrite Hp. unfold splitext.
  assert (Hdot : rfind "." (root +:+ "." +:+ e) = Z.of_nat (String.length root)).
  { unfold rfind. rewrite rfind_from_app.
    change ("." +:+ e) with (String "." e). cbn [rfind_from].
    rewrite Ascii.eqb_refl. by rewrite rfind_from_absent. }
  assert (Hsep : rfind "/" (root +:+ "." +:+ e) < Z.of_nat (String.length pre)
                 /\ -1 <= rfind "/" (root +:+ "." +:+ e)).
  { unfold rfind, root. change ("." +:+ e) with (String "." e).
    rewrite !rfind_from_app. cbn [rfind_from].
    destruct (Ascii.eqb_spec "/" c) as [E|_]; [by symmetry in E|].
    rewrite (rfind_from_absent "/" e) by done.
    rewrite (rfind_from_absent "/" post) by done.
    change (Ascii.eqb "/" ".") with false. cbn iota.
    pose proof (rfind_bound "/" pre). unfold rfind in *. lia. }
  rewrite Hdot. destruct Hsep as [Hsep1 Hsep2].
  assert (Hlen : (String.length pre < String.length root)%nat).
  { unfold root. rewrite length_app. simpl. lia. }
  destruct (Z.ltb_spec (rfind "/" (root +:+ "." +:+ e)) (Z.of_nat (String.length root)));
    [|lia].
  rewrite (skip_leading_dots_true _ _ _ _ (Z.of_nat (String.length pre))).
  - simpl. rewrite Nat2Z.id. by rewrite take_app, drop_app.
  - lia.
  - lia.
  - rewrite length_app. simpl. lia.
  - unfold not_dot_at. rewrite Nat2Z.id, <- Hp, drop_app. simpl.
    destruct post; simpl; congruence.
Qed.

(** A path whose last component [name] holds no dot has no extension. *)
Lemma splitext_no_dot (dir name : string) :
  dir = "" \/ (exists d, dir = d +:+ "/") ->
  mem "/" name = false -> mem "." name = false ->
  splitext (dir +:+ name) = (dir +:+ name, "").
Proof.
  intros Hdir Hn1 Hn2. unfold splitext, rfind.
  rewrite !rfind_from_app, !(rfind_from_absent _ name) by done.
  destruct Hdir as [->|[d ->]].
  - simpl. done.
  - rewrite !rfind_from_app. simpl.
    pose proof (rfind_from_bound "." d 0 (-1)).
    destruct (Z.ltb_spec (0 + Z.of_nat (String.length d))
                (rfind_from "." d 0 (-1))); [lia|done].
Qed.

Lemma append_empty (s : string) : s +:+ "" = s.
Proof. induction s as [|c s IH]; [done|]. by rewrite append_cons, IH. Qed.

Lemma take_drop_string (n : nat) (s : string) : take n s +:+ drop n s = s.
Proof.
  revert s. induction n as [|n IH]; intros [|c s]; cbn; try done.
  by rewrite append_cons, IH.
Qed.

(** No occurrence at all when the search comes back below its start. *)
Lemma rfind_from_below (c : ascii) (s : string) (i last : Z) :
  last < i -> rfind_from c s i last < i -> mem c s = false.
Proof.
  revert i last. induction s as [|a s IH]; intros i last Hlast H; [done|].
  cbn [rfind_from mem] in *. destruct (Ascii.eqb c a).
  - pose proof (rfind_from_bound c s (i + 1) i ltac:(lia)). lia.
  - cbn. apply (IH (i + 1) last); lia.
Qed.

(** From the last occurrence of [c] on: [c] and a rest without it. *)
Lemma rfind_from_last (c : ascii) (s : string) (i last d : Z) :
  last < i -> rfind_from c s i last = d -> i <= d ->
  exists e, drop (Z.to_nat (d - i)) s = String c e /\ mem c e = false.
Proof.
  revert i last. induction s as [|a s IH]; intros i last Hlast H Hd;
    cbn [rfind_from] in H; [lia|].
  destruct (Z.eq_dec d i) as [->|Hne].
  - rewrite Z.sub_diag. cbn [Z.to_nat drop].
    destruct (Ascii.eqb_spec c a) as [<-|Hca].
    + exists s. split; [done|]. apply (rfind_from_below c s (i + 1) i); lia.
    + pose proof (rfind_from_below c s (i + 1) last ltac:(lia) ltac:(lia)) as Hnone.
      rewrite rfind_from_absent in H by done. lia.
  - replace (Z.to_nat (d - i)) with (S (Z.to_nat (d - (i + 1)))) by lia.
    cbn [drop]. apply (IH (i + 1) (if Ascii.eqb c a then i else last)); [|done|lia].
    destruct (Ascii.eqb c a); lia.
Qed.

(** Past an index that the last occurrence of [c] does not reach, no [c]. *)
Lemma rfind_from_after (c : ascii) (s : string) (i last d : Z) :
  last < i -> i <= d -> rfind_from c s i last < d ->
  mem c (drop (Z.to_nat (d - i)) s) = false.
Proof.
  revert i last. induction s as [|a s IH]; intros i last Hlast Hd H.
  { by destruct (Z.to_nat (d - i)). }
  destruct (Z.eq_dec d i) as [->|Hne].
  - rewrite Z.sub_diag. cbn [Z.to_nat drop].
    by apply (rfind_from_below c _ i last).
  - replace (Z.to_nat (d - i)) with (S (Z.to_nat (d - (i + 1)))) by lia.
    cbn [drop]. cbn [rfind_from] in H.
    apply (IH (i + 1) (if Ascii.eqb c a then i else last)); [|lia|done].
    destruct (Ascii.eqb c a); lia.
Qed.

(** [os.path.splitext]: root and extension make up the path; the extension
    is empty, or a dot and a rest with neither dot nor slash. *)
Lemma splitext_shape (p : string) :
  fst (splitext p) +:+ snd (splitext p) = p
  /\ (snd (splitext p) = ""
      \/ exists e, snd (splitext p) = "." +:+ e
                   /\ mem "." e = false /\ mem "/" e = false).
Proof.
  unfold splitext.
  destruct (_ && _) eqn:Hcond; cbn [fst snd].
  2: { split; [apply append_empty | by left]. }
  split; [apply take_drop_string|]. right.
  apply andb_prop in Hcond as [Hsep%Z.ltb_lt _].
  pose proof (rfind_bound "/" p) as Hb.
  destruct (rfind_from_last "." p 0 (-1) (rfind "." p)) as (e & He & Hdot);
    [lia|done|lia|].
  rewrite Z.sub_0_r in He. exists e. split; [done|]. split; [done|].
  pose proof (rfind_from_after "/" p 0 (-1) (rfind "." p) ltac:(lia) ltac:(lia) Hsep)
    as Hslash.
  rewrite Z.sub_0_r, He in Hslash. cbn [mem] in Hslash.
  by apply orb_false_elim in Hslash as [_ ?].
Qed.

(** Past dots only, the search for a character other than a dot fails. *)
Lemma skip_leading_dots_dots (fuel : nat) (dir dots1 dots2 rest : string) (d : Z) :
  all (Ascii.eqb ".") dots2 = true ->
  d <= Z.of_nat (String.length dir + String.length dots1 + String.length dots2) ->
  skip_leading_dots fuel (dir +:+ dots1 +:+ dots2 +:+ rest)
    (Z.of_nat (String.length dir + String.length dots1)) d = false.
Proof.
  revert fuel dots1. induction dots2 as [|c dots2 IH]; intros fuel dots1 Hdots Hd.
  - apply skip_leading_dots_false. simpl in Hd. lia.
  - destruct fuel as [|fuel]; [done|]. cbn [skip_leading_dots].
    destruct (Z.ltb_spec (Z.of_nat (String.length dir + String.length dots1)) d);
      [|done].
    cbn [all] in Hdots. apply andb_prop in Hdots as [Hc Hdots].
    apply Ascii.eqb_eq in Hc. subst c.
    assert (Hat : take 1 (drop (Z.to_nat (Z.of_nat (String.length dir
                                                    + String.length dots1)))
                            (dir +:+ dots1 +:+ String "." dots2 +:+ rest)) = ".").
    { rewrite Nat2Z.id, append_assoc, <- length_app, drop_app.
      rewrite append_cons. by destruct (dots2 +:+ rest). }
    rewrite Hat. cbn [String.eqb Ascii.eqb Bool.eqb negb].
    change (String.eqb "" "") with true. cbn [negb].
    specialize (IH fuel (dots1 +:+ ".")).
    rewrite length_app in IH. cbn [String.length] in IH.
    replace (Z.of_nat (String.length dir + String.length dots1) + 1)
      with (Z.of_nat (String.length dir + (String.length dots1 + 1))) by lia.
    replace (dir +:+ dots1 +:+ String "." dots2 +:+ rest)
      with (dir +:+ (dots1 +:+ ".") +:+ dots2 +:+ rest).
    + apply IH; [done|]. cbn [String.length] in Hd. lia.
    + rewrite <- (append_assoc dots1 "." (dots2 +:+ rest)). by rewrite append_cons.
Qed.

Lemma all_dots_no_slash (dots : string) :
  all (Ascii.eqb ".") dots = true -> mem "/" dots = false.
Proof.
  induction dots as [|c dots IH]; [done|]. cbn [all mem].
  intros [Hc Hdots]%andb_prop. apply Ascii.eqb_eq in Hc. subst c.
  by rewrite (IH Hdots).
Qed.

(** A path whose last component is dots followed by a name without a dot
    (a dot file, or a name with no dot at all) has no extension. *)
Lemma splitext_dot_file (dir dots name : string) :
  dir = "" \/ (exists d, dir = d +:+ "/") ->
  all (Ascii.eqb ".") dots = true ->
  mem "/" name = false -> mem "." name = false ->
  splitext (dir +:+ dots +:+ name) = (dir +:+ dots +:+ name, "").
Proof.
  intros Hdir Hdots Hn1 Hn2. unfold splitext.
  assert (Hsep : rfind "/" (dir +:+ dots +:+ name) + 1
                 = Z.of_nat (String.length dir)).
  { unfold rfind. rewrite !rfind_from_app.
    rewrite (rfind_from_absent "/" name) by done.
    rewrite (rfind_from_absent "/" dots) by (by apply all_dots_no_slash).
    destruct Hdir as [->|[d ->]]; [done|].
    rewrite rfind_from_app, length_app. cbn [rfind_from String.length].
    rewrite Ascii.eqb_refl. lia. }
  assert (Hdot : rfind "." (dir +:+ dots +:+ name)
                 < Z.of_nat (String.length dir + String.length dots)).
  { unfold rfind. rewrite !rfind_from_app.
    rewrite (rfind_from_absent "." name) by done.
    pose proof (rfind_from_bound "." dir 0 (-1) ltac:(lia)).
    pose proof (rfind_from_bound "." dots (0 + Z.of_nat (String.length dir))
                  (rfind_from "." dir 0 (-1)) ltac:(lia)).
    lia. }
  replace (rfind "/" (dir +:+ dots +:+ name) + 1)
    with (Z.of_nat (String.length dir + String.length "")) by (simpl; lia).
  pose proof (skip_leading_dots_dots (String.length (dir +:+ dots +:+ name))
                dir "" dots name (rfind "." (dir +:+ dots +:+ name)) Hdots) as Hskip.
  change (dir +:+ "" +:+ dots +:+ name) with (dir +:+ dots +:+ name) in Hskip.
  rewrite Hskip; [by rewrite andb_false_r|].
  cbn [String.length]. lia.
Qed.

End SplitextFacts.

(** * Extension inference *)

Section ExtensionFacts.
Import Str StrFacts.

Variable guess_extension : string -> option string.

Lemma has_extension_splitext (p e : string) :
  has_extension p e -> snd (splitext p) = "." +:+ e.
Proof.
  intros (pre & post & c & -> & ? & ? & ? & ? & ?).
  by rewrite splitext_extension.
Qed.

Lemma has_no_dot_splitext (p : string) :
  has_no_dot p -> snd (splitext p) = "".
Proof.
  intros (dir & name & -> & ? & ? & ?). by rewrite splitext_no_dot.
Qed.

Lemma nonempty_dot (e : string) : nonempty ("." +:+ e) = true.
Proof. reflexivity. Qed.

Lemma len_dot (e : string) : len ("." +:+ e) = 1 + Z.of_nat (String.length e).
Proof. unfold len. change ("." +:+ e) with (String "." e). simpl String.length. lia. Qed.

Lemma lstrip_dot (e : string) : mem "." e = false -> lstrip "." ("." +:+ e) = e.
Proof. intros H. change ("." +:+ e) with (String "." e). simpl. by apply lstrip_other. Qed.

Lemma has_no_extension_splitext (p : string) :
  has_no_extension p -> snd (splitext p) = "".
Proof.
  intros (dir & dots & name & -> & ? & ? & ? & ?). by rewrite splitext_dot_file.
Qed.

(** C6 (amended): the extension of the URL path is what [os.path.splitext]
    finds in the path component of the URL: nothing, or a dot and an
    extension without dot or slash; a last component with a dot after a
    character other than a dot has one, a last component without a dot, or
    with leading dots only (a dot file), has none.  The extension is used
    whenever it is present and at most 4 characters long after the dot (5
    with the dot), whatever the response says; with no extension, or one
    of 5 characters or more, the content type (up to its first semicolon)
    is looked up in the host table, and the answer is [jpg] when the table
    has no entry. *)
Theorem extension_inference (url : string) (parsed : ParseResult) (response : Response) :
  urlparse url = Ret parsed ->
  let ext := snd (splitext (path parsed)) in
  let content_type := split_head ";" (header_content_type response) in
  let result := get_extension_from_url_or_content guess_extension url response in
  (ext = "" \/ exists e, ext = "." +:+ e /\ mem "." e = false /\ mem "/" e = false)
  /\ (forall e, has_extension (path parsed) e -> ext = "." +:+ e)
  /\ (has_no_extension (path parsed) -> ext = "")
  /\ (forall e : string,
         ext = "." +:+ e -> (String.length e <= 4)%nat -> result = Ret e)
  /\ ((ext = "" \/ exists e, ext = "." +:+ e /\ (5 <= String.length e)%nat) ->
      (forall g : string,
          guess_extension content_type = Some ("." +:+ g) ->
          mem "." g = false ->
          result = Ret g)
      /\ (guess_extension content_type = None -> result = Ret "jpg")).
Proof.
  intros Hparse. cbv zeta. unfold get_extension_from_url_or_content.
  rewrite Hparse. cbn [mbind exn_bind].
  destruct (splitext_shape (path parsed)) as [_ Hshape].
  split; [done|].
  split; [by apply has_extension_splitext|].
  split; [by apply has_no_extension_splitext|]. split.
  - intros e He Hlen. rewrite He in *.
    rewrite nonempty_dot, len_dot.
    destruct (Z.leb_spec (1 + Z.of_nat (String.length e)) 5); [|lia].
    cbn [andb]. rewrite lstrip_dot; [done|].
    destruct Hshape as [[=]|(e' & He' & Hdot & _)].
    change ("." +:+ e) with (String "." e) in He'.
    change ("." +:+ e') with (String "." e') in He'. by injection He' as ->.
  - intros Hext.
    assert (Hfall : nonempty (snd (splitext (path parsed)))
                    && (len (snd (splitext (path parsed))) <=? 5) = false).
    { destruct Hext as [->|(e & -> & Hlen)]; [done|].
      rewrite nonempty_dot, len_dot.
      destruct (Z.leb_spec (1 + Z.of_nat (String.length e)) 5); [lia|done]. }
    rewrite Hfall. split.
    + intros g -> Hg. rewrite nonempty_dot. by rewrite lstrip_dot.
    + by intros ->.
Qed.

End ExtensionFacts.

Lemma extension_inference_witness :
  get_extension_from_url_or_content sample_types_map
    "http://example.com/img/a.png" webp_response = Ret "png"
  /\ get_extension_from_url_or_content sample_types_map
       "http://example.com/img/a" webp_response = Ret "webp"
  /\ get_extension_from_url_or_content sample_types_map
       "http://example.com/.png" webp_response = Ret "webp"
  /\ get_extension_from_url_or_content sample_types_map
       "http://example.com/photo.abcde" webp_response = Ret "webp"
  /\ get_extension_from_url_or_content sample_types_map
       "http://example.com/img/a" odd_response = Ret "jpg".
Proof.
  split; [|split; [|split; [|split]]].
  - destruct (extension_inference sample_types_map
                "http://example.com/img/a.png"
                (mkParseResult "http" "example.com" "/img/a.png" "" "" "")
                webp_response eq_refl) as (_ & Hhas & _ & Huse & _).
    apply Huse; [|simpl; lia]. apply Hhas.
    exists "/img/", "", "a"%char. repeat split; done.
  - destruct (extension_inference sample_types_map
                "http://example.com/img/a"
                (mkParseResult "http" "example.com" "/img/a" "" "" "")
                webp_response eq_refl) as (_ & _ & Hnone & _ & Hfall).
    apply Hfall; [|reflexivity|reflexivity]. left. apply Hnone.
    exists "/img/", "", "a". repeat split; try done. right. by exists "/img".
  - destruct (extension_inference sample_types_map
                "http://example.com/.png"
                (mkParseResult "http" "example.com" "/.png" "" "" "")
                webp_response eq_refl) as (_ & _ & Hnone & _ & Hfall).
    apply Hfall; [|reflexivity|reflexivity]. left. apply Hnone.
    exists "/", ".", "png". repeat split; try done. right. by exists "".
  - destruct (extension_inference sample_types_map
                "http://example.com/photo.abcde"
                (mkParseResult "http" "example.com" "/photo.abcde" "" "" "")
                webp_response eq_refl) as (_ & Hhas & _ & _ & Hfall).
    apply Hfall; [|reflexivity|reflexivity]. right. exists "abcde".
    split; [|simpl; lia]. apply Hhas.
    exists "/", "hoto", "p"%char. repeat split; done.
  - destruct (extension_inference sample_types_map
                "http://example.com/img/a"
                (mkParseResult "http" "example.com" "/img/a" "" "" "")
                odd_response eq_refl) as (_ & _ & Hnone & _ & Hfall).
    apply Hfall; [|reflexivity]. left. apply Hnone.
    exists "/img/", "", "a". repeat split; try done. right. by exists "/img".
Defined.

(** C6, as stated, fails twice: an extension of 5 characters after the dot
    is not used, and a URL that ends in [.png] need not yield [png] (the path
    component [.png] is a dot file without extension; a [.png] in the query
    is not part of the path). *)
Lemma extension_inference_counterexample :
  get_extension_from_url_or_content sample_types_map
    "http://example.com/photo.abcde" webp_response = Ret "webp"
  /\ get_extension_from_url_or_content sample_types_map
       "http://example.com/.png" webp_response = Ret "webp"
  /\ get_extension_from_url_or_content sample_types_map
       "http://example.com/view?file=a.png" webp_response = Ret "webp".
Proof. repeat split. Qed.

(** * The search adapter *)

Section SearchAdapterFacts.

Variable ddgs_images : nat -> string -> Z -> Results.

Lemma set_in_true (x : string) (s : pyset) : set_in x s = true <-> x ∈ s.
Proof. unfold set_in. by rewrite bool_decide_eq_true. Qed.

Lemma set_in_false (x : string) (s : pyset) : set_in x s = false <-> x ∉ s.
Proof. unfold set_in. by rewrite bool_decide_eq_false. Qed.

Lemma set_add_new (x : string) (s : pyset) : x ∉ s -> set_add x s = s ++ [x].
Proof. intros H. unfold set_add. by rewrite (proj2 (set_in_false x s) H). Qed.

Lemma elem_of_set_add (x y : string) (s : pyset) :
  y ∈ set_add x s <-> y = x \/ y ∈ s.
Proof.
  unfold set_add. destruct (set_in x s) eqn:E.
  - apply set_in_true in E. split; [by right | by intros [->|?]].
  - rewrite elem_of_app, list_elem_of_singleton. tauto.
Qed.

Lemma fresh_not_seen (seen : pyset) (images : list (option string)) (u : string) :
  u ∈ fresh seen images -> u ∉ seen.
Proof.
  revert seen. induction images as [|[url|] rest IH]; intros seen; simpl.
  - by rewrite elem_of_nil.
  - destruct (Str.nonempty url && negb (set_in url seen)) eqn:E; [|by apply IH].
    apply andb_prop in E as [_ E]. apply negb_true_iff, set_in_false in E.
    rewrite elem_of_cons. intros [->|Hin]; [done|].
    apply IH in Hin. rewrite elem_of_app in Hin. tauto.
  - by apply IH.
Qed.

Lemma fresh_NoDup (seen : pyset) (images : list (option string)) :
  NoDup (fresh seen images).
Proof.
  revert seen. induction images as [|[url|] rest IH]; intros seen; simpl.
  - constructor.
  - destruct (Str.nonempty url && negb (set_in url seen)); [|by apply IH].
    constructor; [|by apply IH].
    intros Hin. apply fresh_not_seen in Hin.
    apply Hin. rewrite elem_of_app, list_elem_of_singleton. by right.
  - by apply IH.
Qed.

Lemma fresh_sublist (seen : pyset) (images : list (option string)) :
  (Some <$> fresh seen images) `sublist_of` images.
Proof.
  revert seen. induction images as [|[url|] rest IH]; intros seen; simpl.
  - constructor.
  - destruct (Str.nonempty url && negb (set_in url seen)); simpl.
    + by apply sublist_skip.
    + by apply sublist_cons.
  - by apply sublist_cons.
Qed.

(** One scan, started below the target: the set grows by exactly the
    first [total_needed - len(urls)] new URLs of the rows, and these are
    what a scan that returns adds to [urls]. *)
Lemma scan_results_fresh (results : Results) (total_needed : Z)
    (seen urls : list string) (r : exn (list string)) (seen' : pyset) :
  Z.of_nat (length urls) < total_needed ->
  scan_results results total_needed seen urls = (r, seen') ->
  let new := take (Z.to_nat (total_needed - Z.of_nat (length urls)))
               (fresh seen (rows results)) in
  seen' = seen ++ new /\ forall out, r = Ret out -> out = urls ++ new.
Proof.
  revert seen urls.
  induction results as [|e|image rest IH]; intros seen urls Hlt Hscan; simpl in *.
  - inversion Hscan; subst. rewrite take_nil, !app_nil_r.
    split; [done|]. by intros out [= <-].
  - inversion Hscan; subst. rewrite take_nil, !app_nil_r. by split.
  - assert (Hstep : exists m, Z.to_nat (total_needed - Z.of_nat (length urls)) = S m
              /\ Z.of_nat m = total_needed - Z.of_nat (length urls) - 1)
      by (exists (Z.to_nat (total_needed - Z.of_nat (length urls) - 1)); lia).
    destruct Hstep as (m & Hm & Hm').
    destruct image as [url|].
    + destruct (Str.nonempty url && negb (set_in url seen)) eqn:E.
      * apply andb_prop in E as [_ E]. apply negb_true_iff, set_in_false in E.
        rewrite (set_add_new _ _ E) in Hscan. rewrite Hm. simpl.
        rewrite length_app in Hscan. simpl in Hscan.
        destruct (Z.geb_spec (Z.of_nat (length urls + 1)) total_needed) as [Hge|Hlt'].
        -- inversion Hscan; subst. assert (m = O) as -> by lia.
           rewrite take_0. split; [done|]. by intros out [= <-].
        -- apply IH in Hscan; [|rewrite length_app; simpl; lia].
           rewrite length_app in Hscan. simpl in Hscan.
           replace (Z.to_nat (total_needed - Z.of_nat (length urls + 1))) with m
             in Hscan by lia.
           destruct Hscan as [-> Hout]. rewrite <- app_assoc. split; [done|].
           intros out Hr. rewrite (Hout out Hr), <- app_assoc. done.
      * destruct (Z.geb_spec (Z.of_nat (length urls)) total_needed); [lia|].
        by apply IH in Hscan.
    + destruct (Z.geb_spec (Z.of_nat (length urls)) total_needed); [lia|].
      by apply IH in Hscan.
Qed.

Lemma scan_results_returns (results : Results) (total_needed : Z)
    (seen urls : list string) :
  never_fails results ->
  exists out, fst (scan_results results total_needed seen urls) = Ret out.
Proof.
  revert seen urls. induction results as [|e|image rest IH]; intros seen urls H; simpl in *.
  - by eexists.
  - done.
  - destruct image as [url|];
      [destruct (Str.nonempty url && negb (set_in url seen))|];
      cbn beta iota;
      match goal with
      | |- context [if ?b then (Ret _, _) else _] =>
          destruct b; [by eexists | by apply IH]
      end.
Qed.

(** One scan, whatever the target: what it adds to the set, and to
    [urls] when it returns, is a prefix of the new URLs of the rows. *)
Lemma scan_results_prefix (results : Results) (total_needed : Z)
    (seen urls : list string) (r : exn (list string)) (seen' : pyset) :
  scan_results results total_needed seen urls = (r, seen') ->
  exists j : nat,
    seen' = seen ++ take j (fresh seen (rows results))
    /\ forall out, r = Ret out -> out = urls ++ take j (fresh seen (rows results)).
Proof.
  revert seen urls.
  induction results as [|e|image rest IH]; intros seen urls Hscan; simpl in *.
  - exists O. inversion Hscan; subst. rewrite !app_nil_r.
    split; [done|]. by intros out [= <-].
  - exists O. inversion Hscan; subst. rewrite !app_nil_r. by split.
  - destruct image as [url|];
      [destruct (Str.nonempty url && negb (set_in url seen)) eqn:E|].
    + apply andb_prop in E as [_ E]. apply negb_true_iff, set_in_false in E.
      rewrite (set_add_new _ _ E) in Hscan.
      destruct (Z.of_nat (length (urls ++ [url])) >=? total_needed).
      * exists 1%nat. inversion Hscan; subst. simpl. rewrite take_0.
        split; [done|]. by intros out [= <-].
      * apply IH in Hscan as (j & -> & Hout). exists (S j). simpl.
        rewrite <- app_assoc. split; [done|].
        intros out Hr. rewrite (Hout out Hr), <- app_assoc. done.
    + destruct (Z.of_nat (length urls) >=? total_needed).
      * exists O. inversion Hscan; subst. rewrite !app_nil_r.
        split; [done|]. by intros out [= <-].
      * by apply IH in Hscan.
    + destruct (Z.of_nat (length urls) >=? total_needed).
      * exists O. inversion Hscan; subst. rewrite !app_nil_r.
        split; [done|]. by intros out [= <-].
      * by apply IH in Hscan.
Qed.

(** The attempts: either all of them raised and the answer is [[]], or
    attempt [k] returned; [seen_k] is the set as that attempt found it. *)
Lemma fetch_attempts_spec (n : nat) (keyword : string) (total_needed : Z)
    (seen : pyset) (calls : nat)
    (r : exn (list string)) (seen' : pyset) (calls' : nat) :
  fetch_attempts ddgs_images n keyword total_needed seen calls = (r, seen', calls') ->
  exists urls, r = Ret urls
    /\ (forall u, u ∈ seen -> u ∈ seen')
    /\ (urls = []
        \/ exists (k : nat) (seen_k : pyset),
             let found :=
               fresh seen_k (rows (ddgs_images (calls + k)%nat keyword (total_needed * 5))) in
             (k < n)%nat
             /\ (forall u, u ∈ seen -> u ∈ seen_k)
             /\ (k = O -> seen_k = seen)
             /\ (exists j, urls = take j found)
             /\ (1 <= total_needed -> urls = take (Z.to_nat total_needed) found)
             /\ seen' = seen_k ++ urls).
Proof.
  revert seen calls.
  induction n as [|n IH]; intros seen calls Hfetch; simpl in Hfetch.
  - inversion Hfetch; subst. exists []. split; [done|]. split; [done|by left].
  - destruct (scan_results (ddgs_images calls keyword (total_needed * 5))
                total_needed seen []) as [r1 seen1] eqn:Hscan.
    pose proof (scan_results_prefix _ _ _ _ _ _ Hscan) as (j & Hseen1 & Hout).
    destruct r1 as [out|e].
    + inversion Hfetch; subst r seen' calls'. exists out.
      specialize (Hout out eq_refl). simpl in Hout.
      split; [done|]. split.
      { intros u Hu. rewrite Hseen1, elem_of_app. by left. }
      right. exists O, seen. rewrite Nat.add_0_r. cbn zeta.
      split; [lia|]. split; [done|]. split; [done|]. split; [by exists j|]. split.
      * intros Htot.
        assert (Hlt : Z.of_nat (length (@nil string)) < total_needed)
          by (simpl; lia).
        destruct (scan_results_fresh _ _ _ _ _ _ Hlt Hscan) as [_ Hout'].
        rewrite (Hout' out eq_refl). simpl. by rewrite Z.sub_0_r.
      * by rewrite Hout.
    + apply IH in Hfetch as (urls & -> & Hmono & Hcase). exists urls.
      split; [done|]. split.
      { intros u Hu. apply Hmono. rewrite Hseen1, elem_of_app. by left. }
      destruct Hcase as [->|(k & seen_k & Hk & Hsub & _ & Hj & Htot & Hseen')];
        [by left|].
      right. exists (S k), seen_k. cbn zeta.
      replace (calls + S k)%nat with (S calls + k)%nat by lia.
      split; [lia|]. split; [|done].
      intros u Hu. apply Hsub. rewrite Hseen1, elem_of_app. by left.
Qed.

(** One scan, started below the target, raises exactly when the answer
    breaks off before the target is met. *)
Lemma scan_results_raises_iff (results : Results) (total_needed : Z)
    (seen urls : list string) (r : exn (list string)) (seen' : pyset) :
  Z.of_nat (length urls) < total_needed ->
  scan_results results total_needed seen urls = (r, seen') ->
  (exists e, r = Raise e)
  <-> ~ never_fails results
      /\ Z.of_nat (length urls + length (fresh seen (rows results))) < total_needed.
Proof.
  revert seen urls.
  induction results as [|e|image rest IH]; intros seen urls Hlt Hscan; simpl in *.
  - inversion Hscan; subst. split; [by intros [e [=]] | by intros [H _]; destruct H].
  - inversion Hscan; subst. split; [|by eexists].
    intros _. split; [by intros []|]. simpl. lia.
  - destruct image as [url|];
      [destruct (Str.nonempty url && negb (set_in url seen)) eqn:E|].
    + apply andb_prop in E as [_ E]. apply negb_true_iff, set_in_false in E.
      rewrite (set_add_new _ _ E) in Hscan.
      rewrite length_app in Hscan. simpl in Hscan.
      destruct (Z.geb_spec (Z.of_nat (length urls + 1)) total_needed) as [Hge|Hlt'].
      * inversion Hscan; subst. split; [by intros [e [=]]|].
        intros [_ H]. simpl in H. lia.
      * apply IH in Hscan; [|rewrite length_app; simpl; lia].
        rewrite Hscan, length_app. simpl.
        by replace (length urls + 1 + length (fresh (seen ++ [url]) (rows rest)))%nat
          with (length urls + S (length (fresh (seen ++ [url]) (rows rest))))%nat
          by lia.
    + destruct (Z.geb_spec (Z.of_nat (length urls)) total_needed); [lia|].
      by apply IH in Hscan.
    + destruct (Z.geb_spec (Z.of_nat (length urls)) total_needed); [lia|].
      by apply IH in Hscan.
Qed.

Lemma seen_after_shift (keyword : string) (total_needed : Z) (seen : pyset)
    (calls k : nat) :
  seen_after ddgs_images keyword total_needed
    (seen ++ fresh seen (rows (ddgs_images calls keyword (total_needed * 5))))
    (S calls) k
  = seen_after ddgs_images keyword total_needed seen calls (S k).
Proof.
  induction k as [|k IH].
  - cbn [seen_after]. by rewrite Nat.add_0_r.
  - cbn [seen_after] in *. rewrite IH.
    by replace (S calls + k)%nat with (calls + S k)%nat by lia.
Qed.

Lemma seen_after_grows (keyword : string) (total_needed : Z) (seen : pyset)
    (calls k : nat) (u : string) :
  u ∈ seen -> u ∈ seen_after ddgs_images keyword total_needed seen calls k.
Proof.
  intros Hu. induction k as [|k IH]; [done|].
  cbn [seen_after]. rewrite elem_of_app. by left.
Qed.

(** The attempts, exactly: the first [k] of them break off, each leaving
    the new URLs of its rows in the set; then either the attempts are used
    up and the answer is [[]], or attempt [k] returns the first
    [total_needed] new URLs of its rows. *)
Lemma fetch_attempts_exact (n : nat) (keyword : string) (total_needed : Z)
    (seen : pyset) (calls : nat)
    (r : exn (list string)) (seen' : pyset) (calls' : nat) :
  1 <= total_needed ->
  fetch_attempts ddgs_images n keyword total_needed seen calls = (r, seen', calls') ->
  exists k : nat,
    let answer i := ddgs_images (calls + i)%nat keyword (total_needed * 5) in
    let seen_at i := seen_after ddgs_images keyword total_needed seen calls i in
    (forall i, (i < k)%nat -> breaks_off total_needed (seen_at i) (answer i))
    /\ ((k = n /\ r = Ret [] /\ seen' = seen_at k /\ calls' = (calls + k)%nat)
        \/ ((k < n)%nat
            /\ ~ breaks_off total_needed (seen_at k) (answer k)
            /\ r = Ret (take (Z.to_nat total_needed)
                          (fresh (seen_at k) (rows (answer k))))
            /\ seen' = seen_at k
                       ++ take (Z.to_nat total_needed)
                            (fresh (seen_at k) (rows (answer k)))
            /\ calls' = S (calls + k))).
Proof.
  intros Htot. revert seen calls.
  induction n as [|n IH]; intros seen calls Hfetch; cbn [fetch_attempts] in Hfetch.
  - inversion Hfetch; subst. exists O. cbn zeta. split; [intros i Hi; lia|].
    left. cbn [seen_after]. by rewrite Nat.add_0_r.
  - cbn zeta in Hfetch.
    destruct (scan_results (ddgs_images calls keyword (total_needed * 5))
                total_needed seen []) as [r1 seen1] eqn:Hscan.
    assert (Hlt : Z.of_nat (length (@nil string)) < total_needed) by (simpl; lia).
    destruct (scan_results_fresh _ _ _ _ _ _ Hlt Hscan) as [Hseen1 Hout].
    pose proof (scan_results_raises_iff _ _ _ _ _ _ Hlt Hscan) as Hraise.
    cbn [length Nat.add] in Hseen1, Hout, Hraise.
    rewrite Z.sub_0_r in Hseen1, Hout.
    destruct r1 as [out|e].
    + inversion Hfetch; subst r seen' calls'. exists O. cbn zeta.
      cbn [seen_after]. rewrite Nat.add_0_r.
      split; [intros i Hi; lia|]. right.
      split; [lia|]. split.
      { intros Hbreak. apply Hraise in Hbreak as [e [=]]. }
      rewrite (Hout out eq_refl). by cbn [app].
    + assert (Hbreak : breaks_off total_needed seen
                         (ddgs_images calls keyword (total_needed * 5))).
      { apply Hraise. by eexists. }
      assert (Hall : take (Z.to_nat total_needed)
                       (fresh seen (rows (ddgs_images calls keyword (total_needed * 5))))
                     = fresh seen (rows (ddgs_images calls keyword (total_needed * 5)))).
      { apply take_ge. destruct Hbreak as [_ Hshort]. lia. }
      rewrite Hall in Hseen1. subst seen1.
      apply IH in Hfetch as (k & Hbefore & Hcase). cbn zeta in Hbefore, Hcase.
      exists (S k). cbn zeta.
      assert (Hanswer : forall i, (S calls + i)%nat = (calls + S i)%nat)
        by (intros i; lia).
      split.
      * intros [|i] Hi.
        -- cbn [seen_after]. by rewrite Nat.add_0_r.
        -- rewrite <- seen_after_shift, <- Hanswer. apply Hbefore. lia.
      * rewrite <- seen_after_shift, <- Hanswer.
        destruct Hcase as [(-> & -> & -> & ->)|(Hk & Hnot & -> & -> & ->)].
        -- left. split; [done|]. split; [done|]. split; [done|]. lia.
        -- right. split; [lia|]. split; [done|]. split; [done|]. split; [done|]. lia.
Qed.

(** C5 (amended): for [total_needed >= 1], [fetch_image_urls] returns (it
    does not raise) a duplicate-free list of at most [total_needed] URLs,
    none of them in [seen_urls] before the call and all of them in it
    afterwards; the set only grows.  The list is settled by the answers of
    the backend: the attempts that break off short of the target (there
    are [k] of them) leave the new URLs of their rows in the set and
    return nothing; when all [retries] attempts break off the list is
    empty; otherwise the list is, in order, the first [total_needed] new
    URLs among the rows of the first attempt that does not break off (so a
    subsequence of the backend's rows), and that attempt adds nothing else
    to the set: it stops at the target.  Hence a later call, for any
    target, on a set that still holds those URLs returns none of them. *)
Theorem fetch_image_urls_spec (keyword : string) (total_needed : Z)
    (seen : pyset) (calls : nat) (retries : Z)
    (r : exn (list string)) (seen' : pyset) (calls' : nat) :
  1 <= total_needed ->
  fetch_image_urls ddgs_images keyword total_needed seen calls retries
  = (r, seen', calls') ->
  exists urls, r = Ret urls
    /\ (forall u, u ∈ urls -> (u ∉ seen) /\ u ∈ seen')
    /\ (forall u, u ∈ seen -> u ∈ seen')
    /\ Z.of_nat (length urls) <= total_needed
    /\ NoDup urls
    /\ (exists k : nat,
          let answer i := ddgs_images (calls + i)%nat keyword (total_needed * 5) in
          let seen_at i := seen_after ddgs_images keyword total_needed seen calls i in
          (forall i, (i < k)%nat -> breaks_off total_needed (seen_at i) (answer i))
          /\ ((Z.of_nat k = Z.max 0 retries
               /\ urls = [] /\ seen' = seen_at k /\ calls' = (calls + k)%nat)
              \/ (Z.of_nat k < retries
                  /\ ~ breaks_off total_needed (seen_at k) (answer k)
                  /\ ((Some <$> urls) `sublist_of` rows (answer k))
                  /\ urls = take (Z.to_nat total_needed)
                              (fresh (seen_at k) (rows (answer k)))
                  /\ seen' = seen_at k ++ urls
                  /\ calls' = S (calls + k))))
    /\ (forall keyword2 total2 seen2 calls2 retries2 urls2 seen2' calls2',
           (forall u, u ∈ seen' -> u ∈ seen2) ->
           fetch_image_urls ddgs_images keyword2 total2 seen2 calls2 retries2
           = (Ret urls2, seen2', calls2') ->
           forall u, u ∈ urls -> u ∉ urls2).
Proof.
  intros Htot Hfetch. unfold fetch_image_urls in *.
  destruct (fetch_attempts_spec _ _ _ _ _ _ _ _ Hfetch)
    as (urls & Hr & Hmono & _).
  destruct (fetch_attempts_exact _ _ _ _ _ _ _ _ Htot Hfetch)
    as (k & Hbefore & Hcase). cbn zeta in Hbefore, Hcase.
  exists urls. split; [done|]. subst r.
  assert (Hshape : urls = []
                   \/ urls = take (Z.to_nat total_needed)
                               (fresh (seen_after ddgs_images keyword total_needed
                                         seen calls k)
                                  (rows (ddgs_images (calls + k)%nat keyword
                                           (total_needed * 5))))
                      /\ seen' = seen_after ddgs_images keyword total_needed
                                   seen calls k ++ urls).
  { destruct Hcase as [(_ & [= ->] & _)|(_ & _ & [= ->] & -> & _)];
      [by left | by right]. }
  assert (Hfresh : forall u, u ∈ urls -> (u ∉ seen) /\ u ∈ seen').
  { destruct Hshape as [->|[Hurls Hseen']];
      [by intros u Hu; apply elem_of_nil in Hu|].
    intros u Hu. split.
    - intros Hin. rewrite Hurls in Hu.
      apply elem_of_take in Hu as (i & Hu & _).
      apply list_elem_of_lookup_2, fresh_not_seen in Hu.
      by apply Hu, seen_after_grows.
    - rewrite Hseen', elem_of_app. by right. }
  split; [done|]. split; [done|]. split.
  { destruct Hshape as [->|[-> _]]; [simpl; lia|]. rewrite length_take. lia. }
  split.
  { destruct Hshape as [->|[-> _]]; [constructor|].
    eapply sublist_NoDup; [apply fresh_NoDup | apply sublist_take]. }
  split.
  { exists k. cbn zeta. split; [done|].
    destruct Hcase as [(-> & [= ->] & -> & ->)|(Hk & Hnot & [= Hurls] & Hseen' & ->)].
    - left. split; [lia|done].
    - right. split; [lia|]. split; [done|]. rewrite <- Hurls in Hseen'.
      split; [|done].
      etrans; [|apply fresh_sublist]. apply fmap_sublist.
      rewrite Hurls. apply sublist_take. }
  intros keyword2 total2 seen2 calls2 retries2 urls2 seen2' calls2' Hlive Hfetch2 u Hu Hu2.
  destruct (fetch_attempts_spec _ _ _ _ _ _ _ _ Hfetch2)
    as (urls2' & [= <-] & _ & Hcase2).
  destruct Hcase2 as [->|(k2 & seen_k2 & _ & Hsub2 & _ & (j2 & Hj2) & _ & _)];
    [by apply elem_of_nil in Hu2|].
  cbn zeta in *. rewrite Hj2 in Hu2.
  apply elem_of_take in Hu2 as (i & Hu2 & _).
  apply list_elem_of_lookup_2, fresh_not_seen in Hu2.
  apply Hu2, Hsub2, Hlive. by apply Hfresh.
Qed.

End SearchAdapterFacts.

(** The first answer of the sample backend breaks off after two new URLs,
    short of a target of three; the second attempt finds three others. *)
Lemma fetch_image_urls_spec_witness :
  fetch_image_urls sample_backend "cats" 3 [] 0 3
  = (Ret ["http://c/3.jpg"; "http://d/4.gif"; "http://e/5.jpg"],
     ["http://a/1.jpg"; "http://b/2.png";
      "http://c/3.jpg"; "http://d/4.gif"; "http://e/5.jpg"], 2%nat)
  /\ exists urls,
       (fetch_image_urls sample_backend "cats" 3 [] 0 3).1.1 = Ret urls
       /\ Z.of_nat (length urls) <= 3 /\ NoDup urls
       /\ forall u, u ∈ urls -> u ∉ @nil string.
Proof.
  split; [reflexivity|].
  destruct (fetch_image_urls_spec sample_backend "cats" 3 [] 0 3
              _ _ _ ltac:(lia) eq_refl)
    as (urls & Hr & Hfresh & _ & Hlen & Hnodup & _).
  exists urls. split; [exact Hr|]. split; [exact Hlen|]. split; [exact Hnodup|].
  intros u Hu. exact (proj1 (Hfresh u Hu)).
Defined.

(** C5, as stated, fails at [total_needed = 0]: the target is checked after
    a row is taken, so the first new URL is returned. *)
Lemma fetch_image_urls_counterexample :
  fetch_image_urls sample_backend "cats" 0 [] 1 3
  = (Ret ["http://a/1.jpg"], ["http://a/1.jpg"], 2%nat)
  /\ ~ (Z.of_nat (length ["http://a/1.jpg"]) <= 0).
Proof. split; [reflexivity | simpl; lia]. Qed.

(** * The worker machine and the sequential reading agree *)

Section FetcherAgreement.

Variable net : Net.
Variables (folder person_name : string) (max_retries : nat).

Local Abbreviation step := (worker_step net folder person_name max_retries).
Local Abbreviation run := (run_worker net folder person_name max_retries).
Local Abbreviation attempts := (download_attempts net folder person_name).

Lemma run_worker_finished (fuel : nat) (url : string)
    (r : exn (option string)) (sh : Shared) :
  run fuel url (Finished r) sh = (Finished r, sh).
Proof. induction fuel as [|fuel IH]; simpl; [done | apply IH]. Qed.

Lemma run_worker_S (fuel : nat) (url : string) (pc : Pc) (sh : Shared) :
  run (S fuel) url pc sh
  = run fuel url (step url pc sh).1 (step url pc sh).2.
Proof. simpl. by destruct (step url pc sh). Qed.

Lemma run_worker_block (fuel : nat) (url : string) (sh : Shared) :
  run (S fuel) url AtBlock sh
  = (Finished (Ret None), add_bad_domain (host_of url) sh).
Proof. simpl. apply run_worker_finished. Qed.

Lemma download_attempts_S (n : nat) (url : string) (sh : Shared) :
  attempts (S n) url sh
  = match session_get net (length (requests sh)) url with
    | Raise _ => attempts n url (log_request url sh)
    | Ret response =>
        if acceptable response then
          match content response with
          | Raise _ => attempts n url (log_request url sh)
          | Ret img_bytes =>
              let img_hash := md5_hexdigest net img_bytes in
              if set_in img_hash (seen_hashes (log_request url sh))
              then (Some (Ret None), log_request url sh)
              else
                match get_extension_from_url_or_content
                        (guess_extension net) url response with
                | Raise _ => attempts n url (add_hash img_hash (log_request url sh))
                | Ret ext =>
                    match write_image net (target_path folder person_name img_hash ext)
                            img_hash img_bytes
                            (add_hash img_hash (log_request url sh)) with
                    | (Some file_path, sh) => (Some (Ret (Some file_path)), sh)
                    | (None, sh) => attempts n url sh
                    end
                end
          end
        else attempts n url (log_request url sh)
    end.
Proof. reflexivity. Qed.

(** After a failed attempt the machine is where the loop is: at the next
    attempt, or past the loop. *)
Lemma run_worker_attempts (n attempt fuel : nat) (url : string) (sh : Shared) :
  (attempt + S n = max_retries)%nat ->
  (3 * S n + 1 <= fuel)%nat ->
  run fuel url (AtGet attempt) sh = conclude url (attempts (S n) url sh).
Proof.
  revert attempt fuel sh.
  induction n as [|n IH]; intros attempt fuel sh Hmax Hfuel.
  - (* the last attempt *)
    assert (Hnext : next_attempt max_retries attempt = AtBlock).
    { unfold next_attempt. destruct (Nat.ltb_spec (S attempt) max_retries); [lia|done]. }
    destruct fuel as [|[|[|[|fuel]]]]; try lia.
    rewrite download_attempts_S, run_worker_S. cbn [worker_step download_attempts].
    destruct (session_get net (length (requests sh)) url) as [response|e];
      cbn [fst snd]; [|rewrite Hnext; apply run_worker_block].
    destruct (acceptable response);
      cbn [fst snd]; [|rewrite Hnext; apply run_worker_block].
    destruct (content response) as [img_bytes|e];
      cbn [fst snd]; [|rewrite Hnext; apply run_worker_block].
    rewrite run_worker_S. cbn [worker_step]. cbn zeta.
    destruct (set_in (md5_hexdigest net img_bytes)
                (seen_hashes (log_request url sh)));
      cbn [fst snd]; [apply run_worker_finished|].
    rewrite run_worker_S. cbn [worker_step].
    destruct (get_extension_from_url_or_content (guess_extension net) url response)
      as [ext|e]; cbn [fst snd]; [|rewrite Hnext; apply run_worker_block].
    destruct (write_image net _ _ _ _) as [[file_path|] sh'];
      cbn [fst snd]; [apply run_worker_finished|].
    rewrite Hnext. apply run_worker_block.
  - (* an attempt with more to follow *)
    assert (Hnext : next_attempt max_retries attempt = AtGet (S attempt)).
    { unfold next_attempt. destruct (Nat.ltb_spec (S attempt) max_retries); [done|lia]. }
    assert (Hrec : forall fuel' sh', (3 * S n + 1 <= fuel')%nat ->
              run fuel' url (AtGet (S attempt)) sh'
              = conclude url (attempts (S n) url sh'))
      by (intros; apply IH; lia).
    destruct fuel as [|[|[|fuel]]]; try lia.
    rewrite (download_attempts_S (S n)), run_worker_S. cbn [worker_step].
    destruct (session_get net (length (requests sh)) url) as [response|e];
      cbn [fst snd]; [|rewrite Hnext; apply Hrec; lia].
    destruct (acceptable response);
      cbn [fst snd]; [|rewrite Hnext; apply Hrec; lia].
    destruct (content response) as [img_bytes|e];
      cbn [fst snd]; [|rewrite Hnext; apply Hrec; lia].
    rewrite run_worker_S. cbn [worker_step]. cbn zeta.
    destruct (set_in (md5_hexdigest net img_bytes)
                (seen_hashes (log_request url sh)));
      cbn [fst snd]; [apply run_worker_finished|].
    rewrite run_worker_S. cbn [worker_step].
    destruct (get_extension_from_url_or_content (guess_extension net) url response)
      as [ext|e]; cbn [fst snd]; [|rewrite Hnext; apply Hrec; lia].
    destruct (write_image net _ _ _ _) as [[file_path|] sh'];
      cbn [fst snd]; [apply run_worker_finished|].
    rewrite Hnext. apply Hrec. lia.
Qed.

(** Run alone, the worker machine computes [download_image]. *)
Lemma run_worker_download_image (fuel : nat) (url : string) (sh : Shared) :
  (3 * max_retries + 2 <= fuel)%nat ->
  run fuel url AtStart sh
  = (let '(r, sh') := download_image net folder person_name max_retries url sh in
     (Finished r, sh')).
Proof.
  intros Hfuel. destruct fuel as [|fuel]; [lia|].
  unfold download_image. rewrite run_worker_S. cbn [worker_step].
  destruct (urlparse url) as [parsed|e] eqn:Hparse;
    cbn [fst snd]; [|apply run_worker_finished].
  destruct (bool_decide (netloc parsed ∈ bad_domains sh));
    cbn [fst snd]; [apply run_worker_finished|].
  destruct (Nat.ltb_spec 0 max_retries) as [Hpos|Hzero]; cbn [fst snd].
  - destruct (Nat.lt_exists_pred 0 max_retries Hpos) as (n & Hmax & _).
    rewrite (run_worker_attempts n 0 fuel url sh) by lia.
    rewrite Hmax. unfold conclude, host_of. rewrite Hparse.
    by destruct (attempts (S n) url sh) as [[r|] sh'].
  - assert (Hmax : max_retries = O) by lia.
    destruct fuel as [|fuel]; [lia|]. rewrite run_worker_block.
    rewrite Hmax. unfold host_of. by rewrite Hparse.
Qed.

End FetcherAgreement.

(** * What one step of a worker does to the shared state *)

Section StepFacts.

Variable net : Net.
Variables (folder person_name : string) (max_retries : nat).

Local Abbreviation step := (worker_step net folder person_name max_retries).
Local Abbreviation md5 := (md5_hexdigest net).
Local Abbreviation held := (held net).

Lemma next_attempt_held (attempt : nat) :
  held (next_attempt max_retries attempt) = None.
Proof. unfold next_attempt. by destruct (S attempt <? max_retries)%nat. Qed.

Lemma write_image_cases (file_path img_hash : string) (img_bytes : bytes)
    (sh : Shared) (r : option string) (sh' : Shared) :
  write_image net file_path img_hash img_bytes sh = (r, sh') ->
  seen_hashes sh' = seen_hashes sh
  /\ bad_domains sh' = bad_domains sh
  /\ requests sh' = requests sh
  /\ (files sh' = files sh /\ r = None
      \/ exists f, files sh' = files sh ++ [f]
           /\ file_hash f = img_hash
           /\ (file_complete f = true -> file_content f = img_bytes)
           /\ (r <> None -> file_complete f = true /\ r = Some (file_path))).
Proof.
  unfold write_image. destruct (disk net (writes sh) file_path); intros [= <- <-];
    cbn; repeat split; eauto.
  - right. eexists. repeat split; eauto.
  - right. eexists. repeat split; eauto; done.
Qed.

(** The three kinds of step, as far as the set of digests and the files
    go: nothing happens to them; a digest new to the set is put in and
    held; the holder of a digest leaves a file that carries it. *)
Lemma worker_step_cases (url : string) (pc pc' : Pc) (sh sh' : Shared) :
  step url pc sh = (pc', sh') ->
  (seen_hashes sh' = seen_hashes sh /\ files sh' = files sh /\ held pc' = None)
  \/ (exists h, held pc = None /\ held pc' = Some h
        /\ (h ∉ seen_hashes sh)
        /\ seen_hashes sh' = seen_hashes sh ++ [h] /\ files sh' = files sh)
  \/ (exists h f, held pc = Some h /\ held pc' = None
        /\ seen_hashes sh' = seen_hashes sh
        /\ files sh' = files sh ++ [f]
        /\ file_hash f = h
        /\ (file_complete f = true -> md5 (file_content f) = h)).
Proof.
  destruct pc as [|attempt|attempt response img_bytes|attempt response img_bytes| |r];
    cbn [worker_step].
  - destruct (urlparse url) as [parsed|e]; [|intros [= <- <-]; by left].
    destruct (bool_decide _); [intros [= <- <-]; by left|].
    intros [= <- <-]. left. by destruct (0 <? max_retries)%nat.
  - destruct (session_get net _ url) as [response|e];
      [|intros [= <- <-]; left; by rewrite next_attempt_held].
    destruct (acceptable response);
      [|intros [= <- <-]; left; by rewrite next_attempt_held].
    destruct (content response) as [img_bytes|e];
      intros [= <- <-]; left; by rewrite ?next_attempt_held.
  - destruct (set_in (md5 img_bytes) (seen_hashes sh)) eqn:E;
      intros [= <- <-]; [by left|].
    right; left. exists (md5 img_bytes). apply set_in_false in E.
    cbn. by rewrite (set_add_new _ _ E).
  - destruct (get_extension_from_url_or_content _ url response) as [ext|e];
      [|intros [= <- <-]; left; by rewrite next_attempt_held].
    destruct (write_image net _ _ _ sh) as [r sh1] eqn:Hw.
    apply write_image_cases in Hw as (Hs & _ & _ & Hf).
    intros H.
    assert (held pc' = None /\ sh' = sh1) as [Hpc ->]
      by (destruct r; simplify_eq; by rewrite ?next_attempt_held).
    clear H. destruct Hf as [[Hf _]|(f & Hf & Hh & Hc & _)].
    + by left.
    + right; right. exists (md5 img_bytes), f. repeat split; try done.
      intros Hcomplete. by rewrite (Hc Hcomplete).
  - intros [= <- <-]. by left.
  - intros [= <- <-]. by left.
Qed.

(** The blocklist only grows, and a step adds to it only past the loop. *)
Lemma worker_step_bad_domains (url : string) (pc pc' : Pc) (sh sh' : Shared) :
  step url pc sh = (pc', sh') ->
  bad_domains sh' = bad_domains sh
  \/ (pc = AtBlock /\ bad_domains sh' = {[host_of url]} ∪ bad_domains sh).
Proof.
  destruct pc as [|attempt|attempt response img_bytes|attempt response img_bytes| |r];
    cbn [worker_step].
  - destruct (urlparse url) as [parsed|e]; [|intros [= <- <-]; by left].
    destruct (bool_decide _); intros [= <- <-]; by left.
  - destruct (session_get net _ url) as [response|e]; [|intros [= <- <-]; by left].
    destruct (acceptable response); [|intros [= <- <-]; by left].
    destruct (content response) as [img_bytes|e]; intros [= <- <-]; by left.
  - destruct (set_in _ _); intros [= <- <-]; by left.
  - destruct (get_extension_from_url_or_content _ url response) as [ext|e];
      [|intros [= <- <-]; by left].
    destruct (write_image net _ _ _ sh) as [r sh1] eqn:Hw.
    apply write_image_cases in Hw as (_ & Hb & _).
    destruct r; intros [= <- <-]; by left.
  - intros [= <- <-]. by right.
  - intros [= <- <-]. by left.
Qed.

(** A GET is the only step that talks to the network. *)
Lemma worker_step_requests (url : string) (pc pc' : Pc) (sh sh' : Shared) :
  step url pc sh = (pc', sh') ->
  requests sh' = requests sh
  \/ ((exists attempt, pc = AtGet attempt) /\ requests sh' = requests sh ++ [url]).
Proof.
  destruct pc as [|attempt|attempt response img_bytes|attempt response img_bytes| |r];
    cbn [worker_step].
  - destruct (urlparse url) as [parsed|e]; [|intros [= <- <-]; by left].
    destruct (bool_decide _); intros [= <- <-]; by left.
  - intros H. right. split; [by eexists|].
    destruct (session_get net _ url) as [response|e]; [|by inversion H].
    destruct (acceptable response); [|by inversion H].
    destruct (content response) as [img_bytes|e]; by inversion H.
  - destruct (set_in _ _); intros [= <- <-]; by left.
  - destruct (get_extension_from_url_or_content _ url response) as [ext|e];
      [|intros [= <- <-]; by left].
    destruct (write_image net _ _ _ sh) as [r sh1] eqn:Hw.
    apply write_image_cases in Hw as (_ & _ & Hr & _).
    destruct r; intros [= <- <-]; by left.
  - intros [= <- <-]. by left.
  - intros [= <- <-]. by left.
Qed.

End StepFacts.

(** * The dedup invariant of a run *)

Section PoolInvariant.

Variable net : Net.
Variables (folder person_name : string) (max_retries : nat).

Local Abbreviation evolves := (evolves net folder person_name max_retries).
Local Abbreviation reachable := (reachable net folder person_name max_retries).
Local Abbreviation holds := (holds net).
Local Abbreviation dedup_inv := (dedup_inv net).
Local Abbreviation md5 := (md5_hexdigest net).
Local Abbreviation hashes := (fun p : Pool => file_hash <$> files (shared p)).

Lemma holds_insert (ws : list Worker) (i j : nat) (w' : Worker) (h : string) :
  (i < length ws)%nat ->
  holds (<[i := w']> ws) j h
  <-> (j = i /\ held net (w_pc w') = Some h) \/ (j <> i /\ holds ws j h).
Proof.
  intros Hi. unfold holds. destruct (decide (j = i)) as [->|Hne].
  - rewrite list_lookup_insert_eq by done. split.
    + intros (w & [= <-] & Hh). by left.
    + intros [[_ Hh]|[? _]]; [by exists w'|done].
  - rewrite list_lookup_insert_ne by done. split.
    + intros H. by right.
    + intros [[? _]|[_ H]]; done.
Qed.

Lemma holds_submit (image_urls : list string) (i : nat) (h : string) :
  ~ holds (submit image_urls) i h.
Proof.
  intros (w & Hw & Hh). unfold submit in Hw.
  rewrite list_lookup_fmap in Hw.
  destruct (image_urls !! i); cbn in Hw; simplify_eq.
Qed.

Lemma dedup_inv_advance (p : Pool) (i : nat) (w : Worker) :
  dedup_inv p -> workers p !! i = Some w ->
  dedup_inv (advance net folder person_name max_retries i w p).
Proof.
  intros [Hnodup Hfs Hcomp Hhs Hhf Hho] Hw. unfold advance.
  destruct (worker_step net folder person_name max_retries (w_url w) (w_pc w)
              (shared p)) as [pc' sh'] eqn:Hstep.
  pose proof (lookup_lt_Some _ _ _ Hw) as Hi.
  apply worker_step_cases in Hstep
    as [(Hs & Hf & Hpc')
       |[(h0 & Hpc & Hpc' & Hnew & Hs & Hf)
        |(h0 & f & Hpc & Hpc' & Hs & Hf & Hh0 & Hc0)]].
  - (* nothing happens to the digests and the files *)
    split; cbn [shared workers]; rewrite ?Hs, ?Hf; try done.
    + intros j h [[_ H]|[_ H]]%holds_insert; [|by eauto|done].
      cbn in H. congruence.
    + intros j h [[_ H]|[_ H]]%holds_insert; [|by eauto|done].
      cbn in H. congruence.
    + intros j1 j2 h [[_ H1]|[_ H1]]%holds_insert [[_ H2]|[_ H2]]%holds_insert;
        try done; cbn in *; try congruence. by eauto.
  - (* a new digest is put into the set and held *)
    assert (Hfree : h0 ∉ hashes p) by (intros Hin; by apply Hnew, Hfs).
    split; cbn [shared workers]; rewrite ?Hs, ?Hf; try done.
    + intros h Hh. rewrite elem_of_app. left. by apply Hfs.
    + intros j h [[_ H]|[_ H]]%holds_insert; [| |done]; rewrite elem_of_app.
      * cbn in H. rewrite Hpc' in H. injection H as <-.
        right. by apply list_elem_of_singleton.
      * left. by eauto.
    + intros j h [[_ H]|[_ H]]%holds_insert; [| |done].
      * cbn in H. rewrite Hpc' in H. by injection H as <-.
      * by eauto.
    + intros j1 j2 h [[-> H1]|[? H1]]%holds_insert [[-> H2]|[? H2]]%holds_insert;
        try done; cbn in *.
      * rewrite Hpc' in H1. injection H1 as <-. by apply Hhs in H2.
      * rewrite Hpc' in H2. injection H2 as <-. by apply Hhs in H1.
      * by eauto.
  - (* the holder of a digest leaves a file *)
    assert (Hholds : holds (workers p) i h0) by (by exists w).
    split; cbn [shared workers]; rewrite ?Hs, ?Hf, ?fmap_app; cbn [fmap list_fmap].
    + apply NoDup_app. split; [done|]. split; [|apply NoDup_singleton].
      intros h Hh ->%list_elem_of_singleton. rewrite Hh0 in Hh.
      by apply (Hhf i h0).
    + intros h [Hh| ->%list_elem_of_singleton]%elem_of_app; [by apply Hfs|].
      rewrite Hh0. by eauto.
    + intros f' [Hf'| ->%list_elem_of_singleton]%elem_of_app Hcomplete;
        [by apply Hcomp|].
      rewrite Hh0. by apply Hc0.
    + intros j h [[_ H]|[_ H]]%holds_insert; [|by eauto|done].
      cbn in H. congruence.
    + intros j h [[_ H]|[Hne H]]%holds_insert; [| |done].
      * cbn in H. congruence.
      * rewrite elem_of_app, list_elem_of_singleton, Hh0.
        intros [Hin| ->]; [by apply (Hhf j h)|].
        by apply Hne, (Hho j i h0).
    + intros j1 j2 h [[_ H1]|[_ H1]]%holds_insert [[_ H2]|[_ H2]]%holds_insert;
        try done; cbn in *; try congruence. by eauto.
Qed.

Lemma evolves_dedup_inv (p q : Pool) :
  evolves p q -> dedup_inv p -> dedup_inv q.
Proof.
  induction 1 as [|q image_urls _ IH Hdone|q i w _ IH Hw]; intros Hp.
  - done.
  - destruct (IH Hp) as [Hnodup Hfs Hcomp _ _ _].
    split; cbn [shared workers]; try done.
    + intros i h H. by apply holds_submit in H.
    + intros i h H. by apply holds_submit in H.
    + intros i j h H. by apply holds_submit in H.
  - apply dedup_inv_advance; [by apply IH | done].
Qed.

Lemma reachable_dedup_inv (p : Pool) : reachable p -> dedup_inv p.
Proof.
  intros Hp. apply (evolves_dedup_inv _ _ Hp).
  assert (Hnone : forall i h, ~ holds [] i h)
    by (intros i h (w & Hw & _); by rewrite lookup_nil in Hw).
  split; cbn [shared workers initial_shared files seen_hashes fmap list_fmap].
  - constructor.
  - done.
  - intros f Hf. by apply elem_of_nil in Hf.
  - intros i h H. by apply Hnone in H.
  - intros i h H. by apply Hnone in H.
  - intros i j h H. by apply Hnone in H.
Qed.

Lemma evolves_trans (p q r : Pool) : evolves p q -> evolves q r -> evolves p r.
Proof.
  intros Hpq. induction 1 as [|r image_urls _ IH Hdone|r i w _ IH Hw].
  - done.
  - by apply ev_submit.
  - by apply ev_step.
Qed.

(** The blocklist never loses a host. *)
Lemma evolves_bad_domains (p q : Pool) :
  evolves p q -> bad_domains (shared p) ⊆ bad_domains (shared q).
Proof.
  induction 1 as [|q image_urls _ IH Hdone|q i w _ IH Hw]; [done|done|].
  etrans; [apply IH|]. unfold advance.
  destruct (worker_step net folder person_name max_retries (w_url w) (w_pc w)
              (shared q)) as [pc' sh'] eqn:Hstep.
  cbn [shared].
  apply worker_step_bad_domains in Hstep as [->|[_ ->]]; set_solver.
Qed.

(** A digest that is in the set and that no worker holds never gets a
    file: the files that carry it are the ones it had. *)
Lemma evolves_lost_digest (p q : Pool) (h : string) :
  evolves p q ->
  h ∈ seen_hashes (shared p) ->
  (forall i, ~ holds (workers p) i h) ->
  h ∈ seen_hashes (shared q)
  /\ (forall i, ~ holds (workers q) i h)
  /\ (forall f, f ∈ files (shared q) -> file_hash f = h -> f ∈ files (shared p)).
Proof.
  intros Hev Hseen Hfree.
  induction Hev as [|q image_urls _ IH Hdone|q i w _ IH Hw].
  - done.
  - destruct IH as (Hs & _ & Hf). cbn [shared workers]. split; [done|].
    split; [|done]. intros i H. by apply holds_submit in H.
  - destruct IH as (Hs & Hh & Hf). unfold advance.
    destruct (worker_step net folder person_name max_retries (w_url w) (w_pc w)
                (shared q)) as [pc' sh'] eqn:Hstep.
    pose proof (lookup_lt_Some _ _ _ Hw) as Hi.
    cbn [shared workers].
    apply worker_step_cases in Hstep
      as [(Hs' & Hf' & Hpc')
         |[(h0 & Hpc & Hpc' & Hnew & Hs' & Hf')
          |(h0 & f0 & Hpc & Hpc' & Hs' & Hf' & Hh0 & _)]];
      rewrite Hs', Hf'.
    + split; [done|]. split; [|done].
      intros j [[_ H]|[_ H]]%holds_insert; [| |done]; cbn in H.
      * congruence.
      * by apply (Hh j).
    + split; [rewrite elem_of_app; by left|]. split; [|done].
      intros j [[_ H]|[_ H]]%holds_insert; [| |done]; cbn in H.
      * rewrite Hpc' in H. injection H as ->. done.
      * by apply (Hh j).
    + assert (Hne0 : h0 <> h) by (intros ->; apply (Hh i); by exists w).
      split; [done|]. split.
      * intros j [[_ H]|[_ H]]%holds_insert; [| |done]; cbn in H.
        -- congruence.
        -- by apply (Hh j).
      * intros f [Hin| ->%list_elem_of_singleton]%elem_of_app Hfh;
          [by apply Hf | congruence].
Qed.

End PoolInvariant.

(** * The pool runs to its end *)

Section PoolTermination.

Variable net : Net.
Variables (folder person_name : string) (max_retries : nat).

Variable threads : nat.
Variable schedule : nat -> nat.

Local Abbreviation step := (worker_step net folder person_name max_retries).
Local Abbreviation adv := (advance net folder person_name max_retries).
Local Abbreviation pstep := (pool_step net folder person_name max_retries threads schedule).
Local Abbreviation prun := (run_pool net folder person_name max_retries threads schedule).
Local Abbreviation left := (steps_left max_retries).
Local Abbreviation total_left := (total_left max_retries).

Lemma unfinished_from_spec (k : nat) (ws : list Worker) (i : nat) :
  i ∈ unfinished_from k ws
  <-> exists w, (k <= i)%nat /\ ws !! (i - k)%nat = Some w
                /\ is_finished (w_pc w) = false.
Proof.
  revert k. induction ws as [|w ws IH]; intros k; simpl.
  - rewrite elem_of_nil. split; [done|]. by intros (w & _ & ? & _).
  - assert (Hrest : i ∈ unfinished_from (S k) ws
                    <-> exists w', (S k <= i)%nat /\ ws !! (i - S k)%nat = Some w'
                                   /\ is_finished (w_pc w') = false) by apply IH.
    destruct (is_finished (w_pc w)) eqn:Hfin; rewrite ?elem_of_cons, Hrest; split.
    + intros (w' & Hk & Hw' & Hf). exists w'. split; [lia|]. split; [|done].
      replace (i - k)%nat with (S (i - S k)) by lia. done.
    + intros (w' & Hk & Hw' & Hf).
      destruct (decide (i = k)) as [->|Hne].
      * rewrite Nat.sub_diag in Hw'. simpl in Hw'. congruence.
      * exists w'. split; [lia|]. split; [|done].
        replace (i - k)%nat with (S (i - S k)) in Hw' by lia. done.
    + intros [->|(w' & Hk & Hw' & Hf)].
      * exists w. rewrite Nat.sub_diag. by repeat split.
      * exists w'. split; [lia|]. split; [|done].
        replace (i - k)%nat with (S (i - S k)) by lia. done.
    + intros (w' & Hk & Hw' & Hf).
      destruct (decide (i = k)) as [->|Hne]; [by left|]. right.
      exists w'. split; [lia|]. split; [|done].
      replace (i - k)%nat with (S (i - S k)) in Hw' by lia. done.
Qed.

(** A step of the pool is a step of an unfinished worker, or none at all
    when nothing can run. *)
Lemma pool_step_cases (n : nat) (p : Pool) :
  (runnable threads (workers p) = [] /\ pstep n p = p)
  \/ exists i w, workers p !! i = Some w
                 /\ is_finished (w_pc w) = false
                 /\ pstep n p = adv i w p.
Proof.
  unfold pool_step.
  destruct (runnable threads (workers p)) as [|i0 rs] eqn:Hrun; [by left|].
  right.
  assert (Hlt : (schedule n mod length (i0 :: rs) < length (i0 :: rs))%nat)
    by (apply Nat.mod_upper_bound; simpl; lia).
  destruct (lookup_lt_is_Some_2 _ _ Hlt) as [i Hi]. rewrite Hi.
  assert (Hin : i ∈ unfinished_from 0 (workers p)).
  { apply list_elem_of_lookup_2 in Hi. rewrite <- Hrun in Hi.
    unfold runnable in Hi. by apply elem_of_take in Hi as (j & Hj%list_elem_of_lookup_2 & _). }
  apply unfinished_from_spec in Hin as (w & _ & Hw & Hfin).
  rewrite Nat.sub_0_r in Hw. rewrite Hw. by exists i, w.
Qed.

Lemma run_pool_evolves (fuel n : nat) (p0 p : Pool) :
  evolves net folder person_name max_retries p0 p ->
  evolves net folder person_name max_retries p0 (prun fuel n p).
Proof.
  revert n p. induction fuel as [|fuel IH]; intros n p Hp; simpl; [done|].
  apply IH. destruct (pool_step_cases n p) as [[_ ->]|(i & w & Hw & _ & ->)];
    [done|]. by apply ev_step.
Qed.

Lemma next_attempt_left (attempt : nat) :
  (left (next_attempt max_retries attempt) < 3 * (max_retries - attempt) + 2)%nat.
Proof.
  unfold next_attempt.
  destruct (Nat.ltb_spec (S attempt) max_retries); simpl; lia.
Qed.

Lemma worker_step_left (url : string) (pc : Pc) (sh : Shared) :
  is_finished pc = false ->
  (left (step url pc sh).1 < left pc)%nat.
Proof.
  destruct pc as [|attempt|attempt response img_bytes|attempt response img_bytes| |r];
    intros Hfin; try done; cbn [worker_step].
  - destruct (urlparse url) as [parsed|e]; [|simpl; lia].
    destruct (bool_decide _); [simpl; lia|].
    destruct (0 <? max_retries)%nat; simpl; lia.
  - pose proof (next_attempt_left attempt).
    destruct (session_get net _ url) as [response|e]; [|simpl; lia].
    destruct (acceptable response); [|simpl; lia].
    destruct (content response) as [img_bytes|e]; simpl; lia.
  - destruct (set_in _ _); simpl; lia.
  - pose proof (next_attempt_left attempt).
    destruct (get_extension_from_url_or_content _ url response) as [ext|e];
      [|simpl; lia].
    destruct (write_image net _ _ _ sh) as [[file_path|] sh1]; simpl; lia.
  - simpl. lia.
Qed.

Lemma total_left_insert (ws : list Worker) (i : nat) (w w' : Worker) :
  ws !! i = Some w ->
  (total_left (<[i := w']> ws) + left (w_pc w)
   = total_left ws + left (w_pc w'))%nat.
Proof.
  intros Hw. unfold total_left.
  rewrite insert_take_drop by (by eapply lookup_lt_Some).
  rewrite <- (take_drop_middle ws i w Hw) at 3.
  rewrite !sum_list_with_app. simpl. lia.
Qed.

Lemma total_left_zero (ws : list Worker) :
  total_left ws = O <-> forall w, w ∈ ws -> is_finished (w_pc w) = true.
Proof.
  unfold total_left. induction ws as [|w ws IH]; simpl.
  - split; [|done]. intros _ w Hw. by apply elem_of_nil in Hw.
  - split.
    + intros H w' [Heq|Hw']%elem_of_cons.
      * subst w'. destruct (w_pc w); simpl in H; try lia. done.
      * apply IH; [lia|done].
    + intros H. assert (Hw : is_finished (w_pc w) = true)
        by (apply H, elem_of_cons; by left).
      destruct (w_pc w); try done. simpl. apply IH.
      intros w' Hw'. apply H, elem_of_cons. by right.
Qed.

Lemma runnable_nil (ws : list Worker) :
  (0 < threads)%nat ->
  runnable threads ws = [] -> forall w, w ∈ ws -> is_finished (w_pc w) = true.
Proof.
  intros Hthreads Hrun w Hw. unfold runnable in Hrun.
  destruct (is_finished (w_pc w)) eqn:Hfin; [done|].
  apply list_elem_of_lookup_1 in Hw as [i Hi].
  assert (Hin : i ∈ unfinished_from 0 ws).
  { apply unfinished_from_spec. exists w. rewrite Nat.sub_0_r.
    split; [lia|done]. }
  destruct (unfinished_from 0 ws) as [|j js]; [by apply elem_of_nil in Hin|].
  destruct threads; [lia|done].
Qed.

Lemma pool_step_left (n : nat) (p : Pool) :
  (0 < threads)%nat ->
  total_left (workers p) = O
  \/ (total_left (workers (pstep n p)) < total_left (workers p))%nat.
Proof.
  intros Hthreads.
  destruct (pool_step_cases n p) as [[Hrun _]|(i & w & Hw & Hfin & ->)].
  - left. apply total_left_zero. by apply runnable_nil.
  - right. unfold advance.
    pose proof (worker_step_left (w_url w) (w_pc w) (shared p) Hfin) as Hlt.
    destruct (step (w_url w) (w_pc w) (shared p)) as [pc' sh'].
    cbn [workers fst] in *.
    pose proof (total_left_insert (workers p) i w (mkWorker (w_url w) pc') Hw) as Heq.
    cbn [w_pc] in Heq. lia.
Qed.

Lemma pool_step_done (n : nat) (p : Pool) :
  total_left (workers p) = O -> pstep n p = p.
Proof.
  intros Hdone.
  destruct (pool_step_cases n p) as [[_ ->]|(i & w & Hw & Hfin & _)]; [done|].
  apply list_elem_of_lookup_2 in Hw.
  rewrite (proj1 (total_left_zero _) Hdone w Hw) in Hfin. done.
Qed.

Lemma run_pool_finishes (fuel n : nat) (p : Pool) :
  (0 < threads)%nat ->
  (total_left (workers p) <= fuel)%nat ->
  total_left (workers (prun fuel n p)) = O.
Proof.
  intros Hthreads. revert n p.
  induction fuel as [|fuel IH]; intros n p Hfuel; simpl; [lia|].
  destruct (pool_step_left n p Hthreads) as [Hdone|Hlt].
  - rewrite (pool_step_done n p Hdone). apply IH. lia.
  - apply IH. lia.
Qed.

Lemma total_left_submit (image_urls : list string) :
  total_left (submit image_urls)
  = (length image_urls * (3 * max_retries + 5))%nat.
Proof.
  unfold total_left, submit.
  induction image_urls as [|url urls IH]; [done|].
  cbn [fmap list_fmap sum_list_with length w_pc] in *.
  rewrite IH. simpl. lia.
Qed.

(** Every call of a dispatched batch returns. *)
Lemma dispatch_finishes (image_urls : list string) (sh : Shared) :
  (0 < threads)%nat ->
  forall w,
    w ∈ workers (prun (length image_urls * (3 * max_retries + 5)) 0
                   (mkPool (submit image_urls) sh [])) ->
    is_finished (w_pc w) = true.
Proof.
  intros Hthreads. apply total_left_zero, run_pool_finishes; [done|].
  cbn [workers]. by rewrite total_left_submit.
Qed.

End PoolTermination.

(** * One call, run to its end *)

Section CallFacts.

Variable net : Net.
Variables (folder person_name : string) (max_retries : nat).

Local Abbreviation md5 := (md5_hexdigest net).
Local Abbreviation attempts := (download_attempts net folder person_name).
Local Abbreviation call := (download_image net folder person_name max_retries).

(** With a URL that [urlparse] accepts, extension inference returns. *)
Lemma get_extension_returns (guess : string -> option string) (url : string)
    (parsed : ParseResult) (response : Response) :
  urlparse url = Ret parsed ->
  exists ext, get_extension_from_url_or_content guess url response = Ret ext.
Proof.
  intros Hparse. unfold get_extension_from_url_or_content.
  rewrite Hparse. cbn [mbind exn_bind].
  destruct (_ && _); [by eexists|].
  destruct (guess _) as [guessed|]; [|by eexists].
  destruct (Str.nonempty guessed); by eexists.
Qed.

(** The loop leaves the blocklist alone, keeps every digest, and the
    files it adds carry digests that were new to the set. *)
Lemma download_attempts_effect (n : nat) (url : string) (sh sh' : Shared)
    (r : option (exn (option string))) :
  attempts n url sh = (r, sh') ->
  bad_domains sh' = bad_domains sh
  /\ (forall h, h ∈ seen_hashes sh -> h ∈ seen_hashes sh')
  /\ (forall f, f ∈ files sh' -> f ∈ files sh \/ file_hash f ∉ seen_hashes sh).
Proof.
  revert sh r sh'. induction n as [|n IH]; intros sh r sh' Hrun.
  - inversion Hrun; subst. split; [done|]. split; [done|]. by left.
  - rewrite download_attempts_S in Hrun.
    assert (Hlog : forall r' sh'', attempts n url (log_request url sh) = (r', sh'') ->
              bad_domains sh'' = bad_domains sh
              /\ (forall h, h ∈ seen_hashes sh -> h ∈ seen_hashes sh'')
              /\ (forall f, f ∈ files sh'' -> f ∈ files sh \/ file_hash f ∉ seen_hashes sh))
      by (intros r' sh'' H; by apply IH in H).
    destruct (session_get net (length (requests sh)) url) as [response|e];
      [|by eapply Hlog].
    destruct (acceptable response); [|by eapply Hlog].
    destruct (content response) as [img_bytes|e]; [|by eapply Hlog].
    cbn zeta in Hrun.
    destruct (set_in (md5 img_bytes) (seen_hashes (log_request url sh))) eqn:Hin.
    { inversion Hrun; subst. split; [done|]. split; [done|]. by left. }
    apply set_in_false in Hin. cbn [seen_hashes log_request] in Hin.
    assert (Hadd : forall sh1 r' sh'',
              seen_hashes sh1 = seen_hashes sh ++ [md5 img_bytes] ->
              bad_domains sh1 = bad_domains sh ->
              (forall f, f ∈ files sh1 ->
                         f ∈ files sh \/ file_hash f = md5 img_bytes) ->
              attempts n url sh1 = (r', sh'') ->
              bad_domains sh'' = bad_domains sh
              /\ (forall h, h ∈ seen_hashes sh -> h ∈ seen_hashes sh'')
              /\ (forall f, f ∈ files sh'' ->
                            f ∈ files sh \/ file_hash f ∉ seen_hashes sh)).
    { intros sh1 r' sh'' Hs1 Hb1 Hf1 H. apply IH in H as (Hb & Hs & Hf).
      split; [congruence|]. split.
      - intros h Hh. apply Hs. rewrite Hs1, elem_of_app. by left.
      - intros f [Hf'|Hf']%Hf.
        + destruct (Hf1 f Hf') as [?|Heq]; [by left|]. right. by rewrite Heq.
        + right. intros Hh. apply Hf'. rewrite Hs1, elem_of_app. by left. }
    destruct (get_extension_from_url_or_content _ url response) as [ext|e].
    2:{ eapply Hadd; [| | |exact Hrun]; cbn; rewrite ?(set_add_new _ _ Hin);
        eauto. }
    destruct (write_image net _ _ _ _) as [res sh1] eqn:Hw.
    apply write_image_cases in Hw as (Hs1 & Hb1 & _ & Hf1).
    cbn [seen_hashes bad_domains files add_hash log_request] in Hs1, Hb1, Hf1.
    rewrite (set_add_new _ _ Hin) in Hs1.
    assert (Hfiles : forall f, f ∈ files sh1 ->
                               f ∈ files sh \/ file_hash f = md5 img_bytes).
    { intros f Hf. destruct Hf1 as [[Hf1 _]|(f0 & Hf1 & Hh0 & _)];
        rewrite Hf1 in Hf; [by left|].
      apply elem_of_app in Hf as [?| ->%list_elem_of_singleton]; [by left|by right]. }
    destruct res as [file_path|]; [|by eapply Hadd].
    inversion Hrun; subst. split; [done|]. split.
    + intros h Hh. rewrite Hs1, elem_of_app. by left.
    + intros f [?|Heq]%Hfiles; [by left|]. right. by rewrite Heq.
Qed.

(** A call on a blocklisted host returns [None] and touches nothing. *)
Lemma download_image_blocked (url : string) (parsed : ParseResult) (sh : Shared) :
  urlparse url = Ret parsed ->
  netloc parsed ∈ bad_domains sh ->
  call url sh = (Ret None, sh).
Proof.
  intros Hparse Hbad. unfold download_image. rewrite Hparse.
  by rewrite bool_decide_eq_true_2.
Qed.

(** The blocklist after a call, by how its loop ended. *)
Lemma download_image_bad_domains (url : string) (parsed : ParseResult) (sh : Shared) :
  urlparse url = Ret parsed ->
  netloc parsed ∉ bad_domains sh ->
  match (attempts max_retries url sh).1 with
  | None =>
      (call url sh).1 = Ret None
      /\ bad_domains (call url sh).2 = {[netloc parsed]} ∪ bad_domains sh
  | Some r =>
      (call url sh).1 = r
      /\ bad_domains (call url sh).2 = bad_domains sh
  end.
Proof.
  intros Hparse Hbad. unfold download_image. rewrite Hparse.
  rewrite bool_decide_eq_false_2 by done.
  destruct (attempts max_retries url sh) as [[r|] sh'] eqn:Hrun;
    apply download_attempts_effect in Hrun as (Hb & _); cbn; by rewrite Hb.
Qed.

(** A call whose first answer is an image with a digest already in the
    set returns [None] after that one GET, and writes nothing. *)
Lemma download_image_duplicate (url : string) (parsed : ParseResult)
    (sh : Shared) (response : Response) (img_bytes : bytes) :
  (0 < max_retries)%nat ->
  urlparse url = Ret parsed ->
  netloc parsed ∉ bad_domains sh ->
  session_get net (length (requests sh)) url = Ret response ->
  acceptable response = true ->
  content response = Ret img_bytes ->
  md5 img_bytes ∈ seen_hashes sh ->
  call url sh = (Ret None, log_request url sh).
Proof.
  intros Hmax Hparse Hbad Hget Hacc Hcontent Hseen.
  unfold download_image. rewrite Hparse, bool_decide_eq_false_2 by done.
  destruct (Nat.lt_exists_pred 0 max_retries Hmax) as (n & -> & _).
  rewrite download_attempts_S, Hget, Hacc, Hcontent. cbn zeta.
  by rewrite (proj2 (set_in_true _ _)).
Qed.

(** A call whose first answer is an image with a new digest, on a disk
    that takes the file, returns its path: the digest is in the set and
    the file, complete, on the disk. *)
Lemma download_image_fresh (url : string) (parsed : ParseResult)
    (sh : Shared) (response : Response) (img_bytes : bytes) :
  (0 < max_retries)%nat ->
  urlparse url = Ret parsed ->
  netloc parsed ∉ bad_domains sh ->
  session_get net (length (requests sh)) url = Ret response ->
  acceptable response = true ->
  content response = Ret img_bytes ->
  md5 img_bytes ∉ seen_hashes sh ->
  (forall file_path, disk net (writes sh) file_path = WriteOk) ->
  exists file_path,
    call url sh
    = (Ret (Some file_path),
       add_file (mkFile file_path (md5 img_bytes) img_bytes true)
         (log_write (add_hash (md5 img_bytes) (log_request url sh)))).
Proof.
  intros Hmax Hparse Hbad Hget Hacc Hcontent Hnew Hdisk.
  unfold download_image. rewrite Hparse, bool_decide_eq_false_2 by done.
  destruct (Nat.lt_exists_pred 0 max_retries Hmax) as (n & -> & _).
  rewrite download_attempts_S, Hget, Hacc, Hcontent. cbn zeta.
  rewrite (proj2 (set_in_false _ _)) by done.
  destruct (get_extension_returns (guess_extension net) url parsed response Hparse)
    as [ext ->].
  unfold write_image. cbn [writes add_hash log_request]. rewrite Hdisk.
  by eexists.
Qed.

End CallFacts.

(** * The fetcher: dedup, blocklist, failure *)

Section FetcherTheorems.

Variable net : Net.
Variables (folder person_name : string) (max_retries : nat).

Local Abbreviation md5 := (md5_hexdigest net).
Local Abbreviation step := (worker_step net folder person_name max_retries).
Local Abbreviation attempts := (download_attempts net folder person_name).
Local Abbreviation call := (download_image net folder person_name max_retries).
Local Abbreviation adv := (advance net folder person_name max_retries).
Local Abbreviation evolves := (evolves net folder person_name max_retries).
Local Abbreviation reachable := (reachable net folder person_name max_retries).
Local Abbreviation holds := (holds net).

(** C1: in every state of a run whose set of digests is live, whatever
    the interleaving of the workers, no two files carry the same digest,
    the digest of every file is in the set, and a complete file carries
    the MD5 of its content, so that no two complete files have contents of
    equal MD5; a worker that comes to the lock with a payload
    whose digest a file already carries returns [None] and changes nothing,
    whatever its URL.  And two calls in a row that receive payloads of
    equal digest, from any two URLs: the first writes the file and returns
    its path, the second returns [None], and one file has been added. *)
Theorem dedup_invariant :
  (forall p : Pool,
      reachable p ->
      NoDup (file_hash <$> files (shared p))
      /\ (forall f, f ∈ files (shared p) ->
                    file_hash f ∈ seen_hashes (shared p)
                    /\ (file_complete f = true -> md5 (file_content f) = file_hash f))
      /\ (forall (i j : nat) (f g : File),
             files (shared p) !! i = Some f -> files (shared p) !! j = Some g ->
             file_complete f = true -> file_complete g = true ->
             md5 (file_content f) = md5 (file_content g) -> i = j)
      /\ (forall url attempt response img_bytes,
             md5 img_bytes ∈ file_hash <$> files (shared p) ->
             step url (AtLock attempt response img_bytes) (shared p)
             = (Finished (Ret None), shared p)))
  /\ (forall (url1 url2 : string) (parsed1 parsed2 : ParseResult) (sh : Shared)
             (response1 response2 : Response) (bytes1 bytes2 : bytes),
         (0 < max_retries)%nat ->
         urlparse url1 = Ret parsed1 -> netloc parsed1 ∉ bad_domains sh ->
         urlparse url2 = Ret parsed2 -> netloc parsed2 ∉ bad_domains sh ->
         session_get net (length (requests sh)) url1 = Ret response1 ->
         acceptable response1 = true -> content response1 = Ret bytes1 ->
         session_get net (S (length (requests sh))) url2 = Ret response2 ->
         acceptable response2 = true -> content response2 = Ret bytes2 ->
         md5 bytes1 ∉ seen_hashes sh ->
         md5 bytes2 = md5 bytes1 ->
         (forall target, disk net (writes sh) target = WriteOk) ->
         exists (saved : string) (f : File),
           (call url1 sh).1 = Ret (Some saved)
           /\ (call url2 (call url1 sh).2).1 = Ret None
           /\ files (call url2 (call url1 sh).2).2 = files sh ++ [f]
           /\ file_path f = saved
           /\ file_hash f = md5 bytes1 /\ file_content f = bytes1).
Proof.
  split.
  - intros p Hp. destruct (reachable_dedup_inv _ _ _ _ _ Hp)
      as [Hnodup Hfs Hcomp _ _ _].
    split; [done|]. split; [|split].
    + intros f Hf. split; [|by apply Hcomp].
      apply Hfs. by apply list_elem_of_fmap_2.
    + intros i j f g Hi Hj Hf Hg Heq.
      rewrite (Hcomp f), (Hcomp g) in Heq
        by (done || by eapply list_elem_of_lookup_2).
      eapply (NoDup_lookup _ i j (file_hash f)); [exact Hnodup| |];
        rewrite list_lookup_fmap; [by rewrite Hi | by rewrite Hj, Heq].
    + intros url attempt response img_bytes Hin. cbn [worker_step].
      by rewrite (proj2 (set_in_true _ _) (Hfs _ Hin)).
  - intros url1 url2 parsed1 parsed2 sh response1 response2 bytes1 bytes2
      Hmax Hp1 Hb1 Hp2 Hb2 Hget1 Hacc1 Hc1 Hget2 Hacc2 Hc2 Hnew Heq Hdisk.
    destruct (download_image_fresh net folder person_name max_retries
                url1 parsed1 sh response1 bytes1) as [saved Hcall1]; try done.
    rewrite Hcall1. cbn [fst snd].
    erewrite (download_image_duplicate net folder person_name max_retries
                url2 parsed2 _ response2 bytes2); try done.
    + exists saved, (mkFile saved (md5 bytes1) bytes1 true). by cbn.
    + cbn. by rewrite length_app, Nat.add_1_r.
    + cbn. rewrite Heq, (set_add_new _ _ Hnew), elem_of_app. right.
      by apply list_elem_of_singleton.
Qed.

Lemma max_retries_cases : (1 < max_retries)%nat -> exists n, max_retries = S (S n).
Proof. intros H. exists (max_retries - 2)%nat. lia. Qed.

(** C9: the digest goes into the set before the file is written.  When a
    call's first answer is an image with a new digest and the disk refuses
    the file, the digest is in the set when the call ends and the call has
    left no file that carries it, whatever its later attempts receive.
    From then on, as long as the set is live, no file ever carries that
    digest, and a call that receives a payload with it returns [None] as a
    duplicate.  The set may so hold digests without a file; and a call
    whose first two attempts receive payloads of two new digests, the disk
    refusing both files, leaves both digests in the set. *)
Theorem fetch_not_atomic :
  (forall (url : string) (parsed : ParseResult) (sh : Shared)
          (response : Response) (img_bytes : bytes),
      (0 < max_retries)%nat ->
      urlparse url = Ret parsed ->
      netloc parsed ∉ bad_domains sh ->
      session_get net (length (requests sh)) url = Ret response ->
      acceptable response = true ->
      content response = Ret img_bytes ->
      md5 img_bytes ∉ seen_hashes sh ->
      (forall target, disk net (writes sh) target = OpenFails) ->
      md5 img_bytes ∈ seen_hashes (call url sh).2
      /\ (forall f, f ∈ files (call url sh).2 ->
                    file_hash f = md5 img_bytes -> f ∈ files sh))
  /\ (forall (p q : Pool) (h : string),
         evolves p q ->
         h ∈ seen_hashes (shared p) ->
         (forall i, ~ holds (workers p) i h) ->
         h ∈ seen_hashes (shared q)
         /\ (forall f, f ∈ files (shared q) -> file_hash f = h ->
                       f ∈ files (shared p)))
  /\ (forall (url : string) (parsed : ParseResult) (sh : Shared)
             (response : Response) (img_bytes : bytes),
         (0 < max_retries)%nat ->
         urlparse url = Ret parsed ->
         netloc parsed ∉ bad_domains sh ->
         session_get net (length (requests sh)) url = Ret response ->
         acceptable response = true ->
         content response = Ret img_bytes ->
         md5 img_bytes ∈ seen_hashes sh ->
         call url sh = (Ret None, log_request url sh))
  /\ (forall (url : string) (parsed : ParseResult) (sh : Shared)
             (response1 response2 : Response) (bytes1 bytes2 : bytes),
         (1 < max_retries)%nat ->
         urlparse url = Ret parsed ->
         netloc parsed ∉ bad_domains sh ->
         session_get net (length (requests sh)) url = Ret response1 ->
         acceptable response1 = true -> content response1 = Ret bytes1 ->
         session_get net (S (length (requests sh))) url = Ret response2 ->
         acceptable response2 = true -> content response2 = Ret bytes2 ->
         md5 bytes1 ∉ seen_hashes sh ->
         md5 bytes2 ∉ seen_hashes sh ->
         md5 bytes1 <> md5 bytes2 ->
         (forall target, disk net (writes sh) target = OpenFails) ->
         (forall target, disk net (S (writes sh)) target = OpenFails) ->
         md5 bytes1 ∈ seen_hashes (call url sh).2
         /\ md5 bytes2 ∈ seen_hashes (call url sh).2
         /\ (forall f, f ∈ files (call url sh).2 ->
                       file_hash f = md5 bytes1 \/ file_hash f = md5 bytes2 ->
                       f ∈ files sh)).
Proof.
  split; [|split; [|split]]; cycle 3.
  { intros url parsed sh response1 response2 bytes1 bytes2
      Hmax Hparse Hbad Hget1 Hacc1 Hc1 Hget2 Hacc2 Hc2 Hnew1 Hnew2 Hne Hd1 Hd2.
    destruct (call url sh) as [r0 sh'] eqn:Hcall. cbn [snd]. revert Hcall.
    unfold download_image. rewrite Hparse, bool_decide_eq_false_2 by done.
    destruct max_retries_cases as (n & ->); [done|].
    destruct (get_extension_returns (guess_extension net) url parsed response1 Hparse)
      as [ext1 Hext1].
    destruct (get_extension_returns (guess_extension net) url parsed response2 Hparse)
      as [ext2 Hext2].
    rewrite download_attempts_S, Hget1, Hacc1, Hc1. cbn zeta.
    rewrite (proj2 (set_in_false _ _)) by done.
    rewrite Hext1. unfold write_image.
    cbn [writes add_hash log_request]. rewrite Hd1.
    rewrite download_attempts_S.
    cbn [requests log_write add_hash log_request seen_hashes].
    rewrite length_app, Nat.add_1_r, Hget2, Hacc2, Hc2. cbn zeta.
    rewrite (set_add_new _ _ Hnew1).
    rewrite (proj2 (set_in_false _ _))
      by (rewrite elem_of_app, list_elem_of_singleton; intros [?|?]; by eauto).
    rewrite Hext2. unfold write_image.
    cbn [writes add_hash log_request log_write seen_hashes]. rewrite Hd2.
    set (sh2 := log_write _).
    assert (Hin : md5 bytes1 ∈ seen_hashes sh2 /\ md5 bytes2 ∈ seen_hashes sh2).
    { cbn. rewrite !elem_of_set_add, ?elem_of_app, ?list_elem_of_singleton. tauto. }
    destruct Hin as [Hin1 Hin2].
    destruct (attempts n url sh2) as [r sh''] eqn:Hrun.
    apply download_attempts_effect in Hrun as (_ & Hs & Hf).
    assert (Hgoal : md5 bytes1 ∈ seen_hashes sh'' /\ md5 bytes2 ∈ seen_hashes sh''
                    /\ forall f, f ∈ files sh'' ->
                         file_hash f = md5 bytes1 \/ file_hash f = md5 bytes2 ->
                         f ∈ files sh).
    { split; [by apply Hs|]. split; [by apply Hs|].
      intros f [Hold|Hfresh]%Hf Hh; [done|].
      exfalso. apply Hfresh. by destruct Hh as [-> | ->]. }
    destruct r; by intros [= <- <-]. }
  - intros url parsed sh response img_bytes
      Hmax Hparse Hbad Hget Hacc Hcontent Hnew Hdisk.
    unfold download_image. rewrite Hparse, bool_decide_eq_false_2 by done.
    destruct (Nat.lt_exists_pred 0 max_retries Hmax) as (n & -> & _).
    rewrite download_attempts_S, Hget, Hacc, Hcontent. cbn zeta.
    rewrite (proj2 (set_in_false _ _)) by done.
    destruct (get_extension_returns (guess_extension net) url parsed response Hparse)
      as [ext ->].
    unfold write_image. cbn [writes add_hash log_request]. rewrite Hdisk.
    set (sh1 := log_write _).
    assert (Hin1 : md5 img_bytes ∈ seen_hashes sh1).
    { cbn. rewrite (set_add_new _ _ Hnew), elem_of_app. right.
      by apply list_elem_of_singleton. }
    destruct (attempts n url sh1) as [r sh'] eqn:Hrun.
    apply download_attempts_effect in Hrun as (_ & Hs & Hf).
    assert (Hgoal : md5 img_bytes ∈ seen_hashes sh'
                    /\ forall f, f ∈ files sh' ->
                                 file_hash f = md5 img_bytes -> f ∈ files sh).
    { split; [by apply Hs|]. intros f [Hold|Hfresh]%Hf Hh; [done|].
      exfalso. apply Hfresh. by rewrite Hh. }
    by destruct r.
  - intros p q h Hev Hseen Hfree.
    destruct (evolves_lost_digest _ _ _ _ _ _ _ Hev Hseen Hfree) as (? & _ & ?).
    by split.
  - intros url parsed sh response img_bytes. apply download_image_duplicate.
Qed.

End FetcherTheorems.

Lemma dedup_invariant_witness :
  let p := run_pool same_picture_net "images/Ben" "Ben" 3 2 (fun n => n) 28 0
             (mkPool (submit [url_a; url_b]) initial_shared []) in
  NoDup (file_hash <$> files (shared p))
  /\ length (files (shared p)) = 1%nat
  /\ (download_image same_picture_net "images/Ben" "Ben" 3 url_b
        (download_image same_picture_net "images/Ben" "Ben" 3 url_a
           initial_shared).2).1 = Ret None.
Proof.
  split; [|split].
  - refine (proj1 (proj1 (dedup_invariant same_picture_net "images/Ben" "Ben" 3) _ _)).
    apply run_pool_evolves.
    apply (ev_submit _ _ _ _ _ (mkPool [] initial_shared []) [url_a; url_b]).
    + apply ev_refl.
    + intros w Hw. by apply elem_of_nil in Hw.
  - reflexivity.
  - destruct (proj2 (dedup_invariant same_picture_net "images/Ben" "Ben" 3)
                url_a url_b parsed_a parsed_b initial_shared picture picture
                [Byte.x61; Byte.x62] [Byte.x61; Byte.x62])
      as (saved & f & _ & Hsecond & _); [..|exact Hsecond];
      first [reflexivity | lia | apply not_elem_of_empty | apply not_elem_of_nil].
Defined.

Lemma fetch_not_atomic_witness :
  let sh := (download_image full_disk_net "images/Ben" "Ben" 3 url_b initial_shared).2 in
  "a" ∈ seen_hashes sh /\ "b" ∈ seen_hashes sh /\ files sh = [].
Proof.
  destruct (proj2 (proj2 (proj2 (fetch_not_atomic full_disk_net "images/Ben" "Ben" 3)))
              url_b parsed_b initial_shared
              (mkResponse 200 (Some "image/png") (Ret [Byte.x61]))
              (mkResponse 200 (Some "image/png") (Ret [Byte.x62]))
              [Byte.x61] [Byte.x62])
    as (Ha & Hb & _);
    [first [reflexivity | lia | apply not_elem_of_empty | apply not_elem_of_nil
           | discriminate] ..|].
  split; [exact Ha|]. split; [exact Hb|reflexivity].
Defined.

(** * Facts about the orchestrator *)

Lemma ceil_div_spec (n b : Z) :
  1 <= b -> (ceil_div n b - 1) * b < n <= ceil_div n b * b.
Proof.
  intros Hb. unfold ceil_div.
  pose proof (Z.div_mod (n + b - 1) b ltac:(lia)).
  pose proof (Z.mod_pos_bound (n + b - 1) b ltac:(lia)). nia.
Qed.

Lemma ceil_div_small (n b : Z) : 1 <= n <= b -> ceil_div n b = 1.
Proof.
  intros H. unfold ceil_div. symmetry.
  apply (Z.div_unique (n + b - 1) b 1 (n - 1)); lia.
Qed.

Lemma ceil_div_zero (b : Z) : 1 <= b -> ceil_div 0 b = 0.
Proof. intros H. unfold ceil_div. apply Z.div_small. lia. Qed.

Lemma ceil_div_step (n b : Z) : 1 <= b -> ceil_div n b = 1 + ceil_div (n - b) b.
Proof.
  intros H. unfold ceil_div.
  replace (n + b - 1) with ((n - b + b - 1) + 1 * b) by lia.
  rewrite Z.div_add by lia. lia.
Qed.

Lemma successes_nonneg (results : list (exn (option string))) : 0 <= successes results.
Proof.
  induction results as [|[result|e] rest IH]; simpl; [lia| |lia].
  destruct (truthy result); lia.
Qed.

(** Below the target, the count after a batch is the count before plus the
    successes of the batch, capped at the target: the order of completion
    does not matter. *)
Lemma collect_min (results : list (exn (option string))) (num_images count : Z) :
  count < num_images ->
  collect results num_images count = Z.min num_images (count + successes results).
Proof.
  revert count. induction results as [|[result|e] rest IH]; intros count Hlt; simpl.
  - lia.
  - pose proof (successes_nonneg rest).
    destruct (truthy result).
    + destruct (Z.geb_spec (count + 1) num_images); [lia|].
      rewrite IH by lia. lia.
    + destruct (Z.geb_spec count num_images); [lia|].
      rewrite IH by lia. lia.
  - by apply IH.
Qed.

Lemma successes_all (results : list (exn (option string))) :
  (forall r, r ∈ results -> exists file_path, r = Ret (Some file_path) /\ file_path <> "") ->
  successes results = Z.of_nat (length results).
Proof.
  induction results as [|r rest IH]; intros Hall; [done|].
  destruct (Hall r) as (file_path & -> & Hne); [by left|].
  cbn [successes length truthy]. rewrite IH.
  - destruct file_path; [done|]. simpl Str.nonempty. cbv iota. lia.
  - intros r Hr. apply Hall. by right.
Qed.

Section OrchestratorFacts.

Variable search : string -> Z -> pyset -> nat -> exn (list string) * pyset * nat.
Variable fetch_all :
  nat -> nat -> list string -> string -> string -> Shared ->
  list (exn (option string)) * Shared.
Variable set_order : list string -> list string.
Variable search_terms : list string.
Variable save_name : string.
Variable num_images : Z.
Variable save_folder : string.
Variables threads batch_size : Z.

Local Abbreviation body :=
  (pass search fetch_all set_order search_terms save_name num_images
     save_folder threads batch_size).
Local Abbreviation loop :=
  (download_loop search fetch_all set_order search_terms save_name num_images
     save_folder threads batch_size).
Local Abbreviation len := (Z.of_nat (length search_terms)).

Lemma keyword_exists (i : Z) :
  search_terms <> [] ->
  exists keyword, search_terms !! Z.to_nat (i mod len) = Some keyword.
Proof.
  intros Hne. apply lookup_lt_is_Some_2.
  assert (0 < len) by (destruct search_terms; [done|simpl; lia]).
  pose proof (Z.mod_pos_bound i len ltac:(lia)). lia.
Qed.

Lemma len_nonzero : search_terms <> [] -> (len =? 0) = false.
Proof. intros Hne. destruct search_terms; [done|]. apply Z.eqb_neq. simpl. lia. Qed.

(** What a pass does, once the keyword is there and the adapter has
    answered. *)
Lemma pass_unfold (st : Run) (keyword : string)
    (answer : exn (list string)) (seen' : pyset) (calls' : nat) :
  search_terms <> [] ->
  search_terms !! Z.to_nat (term_index st mod len) = Some keyword ->
  search keyword (Z.min batch_size (num_images - downloaded_count st))
    (seen_urls st) (ddgs_calls st) = (answer, seen', calls') ->
  body st
  = match answer with
    | Raise e =>
        Escapes e (mkRun seen' calls' (run_shared st) (downloaded_count st)
                     (batch_number st) (term_index st))
    | Ret [] =>
        let st' := mkRun seen' calls' (run_shared st) (downloaded_count st)
                     (batch_number st) (term_index st + 1) in
        if term_index st + 1 >=? len then Break st' else Continue st'
    | Ret image_urls =>
        if threads <=? 0
        then Escapes ValueError
               (mkRun seen' calls' (run_shared st) (downloaded_count st)
                  (batch_number st) (term_index st))
        else
          let fetched :=
            fetch_all (Z.to_nat (batch_number st)) (Z.to_nat threads) image_urls
              (folder save_name save_folder) save_name (run_shared st) in
          Continue
            (mkRun (truncate set_order seen') calls'
               (truncate_hashes set_order fetched.2)
               (collect fetched.1 num_images (downloaded_count st))
               (batch_number st + 1) (term_index st + 1))
    end.
Proof.
  intros Hne Hkw Hsearch. unfold pass.
  rewrite (len_nonzero Hne), Hkw. cbn zeta. rewrite Hsearch.
  destruct answer as [[|url urls]|e]; cbn [term_index run_shared downloaded_count
    batch_number]; try done.
  destruct (threads <=? 0); [done|].
  by destruct (fetch_all _ _ _ _ _ _).
Qed.

(** *** No exception escapes, and the count stays within the target *)

Lemma pass_safe (st : Run) :
  search_terms <> [] -> 1 <= threads ->
  (forall keyword total_needed seen calls,
      exists urls, (search keyword total_needed seen calls).1.1 = Ret urls) ->
  downloaded_count st < num_images ->
  match body st with
  | Continue st' | Break st' =>
      downloaded_count st <= downloaded_count st' <= num_images
  | Escapes _ _ => False
  end.
Proof.
  intros Hne Hthreads Hsearch Hlt.
  destruct (keyword_exists (term_index st) Hne) as [keyword Hkw].
  destruct (search keyword (Z.min batch_size (num_images - downloaded_count st))
              (seen_urls st) (ddgs_calls st)) as [[answer seen'] calls'] eqn:Hs.
  rewrite (pass_unfold st keyword answer seen' calls' Hne Hkw Hs).
  destruct (Hsearch keyword (Z.min batch_size (num_images - downloaded_count st))
              (seen_urls st) (ddgs_calls st)) as [urls Hurls].
  rewrite Hs in Hurls. cbn in Hurls. subst answer.
  destruct urls as [|url urls].
  - cbn zeta. destruct (_ >=? _); cbn; lia.
  - destruct (Z.leb_spec threads 0); [lia|]. cbn zeta. cbn [downloaded_count].
    rewrite collect_min by done.
    pose proof (successes_nonneg
                  (fetch_all (Z.to_nat (batch_number st)) (Z.to_nat threads)
                     (url :: urls) (folder save_name save_folder) save_name
                     (run_shared st)).1). lia.
Qed.

Lemma loop_safe (fuel : nat) (st : Run) :
  search_terms <> [] -> 1 <= threads ->
  (forall keyword total_needed seen calls,
      exists urls, (search keyword total_needed seen calls).1.1 = Ret urls) ->
  match loop fuel st with
  | Done st' | Running st' =>
      downloaded_count st <= downloaded_count st'
      <= Z.max (downloaded_count st) num_images
  | Crashed _ _ => False
  end.
Proof.
  intros Hne Hthreads Hsearch. revert st.
  induction fuel as [|fuel IH]; intros st; cbn [download_loop];
    destruct (Z.ltb_spec (downloaded_count st) num_images) as [Hlt|Hge];
    try lia.
  pose proof (pass_safe st Hne Hthreads Hsearch Hlt) as Hpass.
  destruct (body st) as [st'|st'|e st']; [|lia|done].
  specialize (IH st'). destruct (loop fuel st') as [st''|e st''|st'']; lia.
Qed.

(** *** An empty list of search terms *)

Lemma loop_empty_terms (fuel : nat) (st : Run) :
  search_terms = [] ->
  downloaded_count st < num_images ->
  loop (S fuel) st = Crashed ZeroDivisionError st.
Proof.
  intros Hnil Hlt. cbn [download_loop].
  destruct (Z.ltb_spec (downloaded_count st) num_images); [|lia].
  unfold pass. by rewrite Hnil.
Qed.

(** *** Keywords without results *)

Lemma loop_exhaustion (k : nat) (fuel : nat) (st : Run) :
  search_terms <> [] ->
  (forall keyword total_needed seen calls,
      (search keyword total_needed seen calls).1.1 = Ret []) ->
  downloaded_count st < num_images ->
  term_index st + Z.of_nat (S k) = len ->
  (S k <= fuel)%nat ->
  exists st',
    loop fuel st = Done st'
    /\ downloaded_count st' = downloaded_count st
    /\ batch_number st' = batch_number st
    /\ run_shared st' = run_shared st
    /\ term_index st' = len.
Proof.
  intros Hne Hsearch. revert fuel st.
  induction k as [|k IH]; intros fuel st Hlt Hidx Hfuel;
    (destruct fuel as [|fuel]; [lia|]); cbn [download_loop];
    (destruct (Z.ltb_spec (downloaded_count st) num_images); [|lia]);
    destruct (keyword_exists (term_index st) Hne) as [keyword Hkw];
    destruct (search keyword (Z.min batch_size (num_images - downloaded_count st))
                (seen_urls st) (ddgs_calls st)) as [[answer seen'] calls'] eqn:Hs;
    rewrite (pass_unfold st keyword answer seen' calls' Hne Hkw Hs);
    pose proof (Hsearch keyword (Z.min batch_size (num_images - downloaded_count st))
                  (seen_urls st) (ddgs_calls st)) as Hempty;
    rewrite Hs in Hempty; cbn in Hempty; subst answer; cbn zeta.
  - destruct (Z.geb_spec (term_index st + 1) len); [|lia].
    eexists. split; [done|]. cbn. repeat split; lia.
  - destruct (Z.geb_spec (term_index st + 1) len); [lia|].
    match goal with
    | |- context [download_loop _ _ _ _ _ _ _ _ _ fuel ?s] =>
        destruct (IH fuel s) as (st' & Hloop & Hc & Hb & Hsh & Ht)
    end; [cbn; lia | cbn; lia | lia |].
    exists st'. split; [exact Hloop|]. cbn in *. by repeat split.
Qed.

(** *** Full batches, all fetched *)

Lemma loop_convergence (k : nat) (fuel : nat) (st : Run) :
  search_terms <> [] -> 1 <= batch_size -> 1 <= threads ->
  (forall keyword total_needed seen calls,
      1 <= total_needed ->
      exists urls, (search keyword total_needed seen calls).1.1 = Ret urls
                   /\ Z.of_nat (length urls) = total_needed) ->
  (forall round workers image_urls dir name sh,
      length (fetch_all round workers image_urls dir name sh).1 = length image_urls
      /\ forall r, r ∈ (fetch_all round workers image_urls dir name sh).1 ->
                   exists file_path, r = Ret (Some file_path) /\ file_path <> "") ->
  downloaded_count st <= num_images ->
  num_images - downloaded_count st <= Z.of_nat k * batch_size ->
  (k < fuel)%nat ->
  exists st',
    loop fuel st = Done st'
    /\ downloaded_count st' = num_images
    /\ batch_number st'
       = batch_number st + ceil_div (num_images - downloaded_count st) batch_size.
Proof.
  intros Hne Hbs Hthreads Hsearch Hfetch. revert fuel st.
  induction k as [|k IH]; intros fuel st Hle Hk Hfuel;
    (destruct fuel as [|fuel]; [lia|]); cbn [download_loop];
    destruct (Z.ltb_spec (downloaded_count st) num_images) as [Hlt|Hge];
    try lia;
    try (exists st; replace (num_images - downloaded_count st) with 0 by lia;
         rewrite ceil_div_zero by done; repeat split; lia).
  set (remaining := num_images - downloaded_count st) in *.
  destruct (keyword_exists (term_index st) Hne) as [keyword Hkw].
  destruct (search keyword (Z.min batch_size remaining)
              (seen_urls st) (ddgs_calls st)) as [[answer seen'] calls'] eqn:Hs.
  rewrite (pass_unfold st keyword answer seen' calls' Hne Hkw Hs).
  destruct (Hsearch keyword (Z.min batch_size remaining)
              (seen_urls st) (ddgs_calls st) ltac:(lia)) as (urls & Hurls & Hlen).
  rewrite Hs in Hurls. cbn in Hurls. subst answer.
  destruct urls as [|url urls]; [simpl in Hlen; lia|].
  destruct (Z.leb_spec threads 0); [lia|]. cbn zeta.
  destruct (Hfetch (Z.to_nat (batch_number st)) (Z.to_nat threads) (url :: urls)
              (folder save_name save_folder) save_name (run_shared st))
    as [Hflen Hfall].
  rewrite collect_min by done. rewrite (successes_all _ Hfall), Hflen, Hlen.
  replace (Z.min num_images (downloaded_count st + Z.min batch_size remaining))
    with (downloaded_count st + Z.min batch_size remaining) by lia.
  match goal with
  | |- context [download_loop _ _ _ _ _ _ _ _ _ fuel ?s] =>
      destruct (IH fuel s) as (st' & Hloop & Hc & Hb)
  end; [cbn; lia | cbn; lia | lia |].
  - exists st'. split; [exact Hloop|]. split; [exact Hc|].
    rewrite Hb. cbn [batch_number downloaded_count].
    destruct (Z.le_gt_cases remaining batch_size).
    + rewrite (ceil_div_small remaining) by lia.
      replace (num_images - _) with 0 by lia. rewrite ceil_div_zero by done. lia.
    + rewrite (ceil_div_step remaining) by done.
      replace (num_images - (downloaded_count st + Z.min batch_size remaining))
        with (remaining - batch_size) by lia. lia.
Qed.

End OrchestratorFacts.

(** * The orchestrator: convergence, exhaustion, failure *)

(** C3 (for a list of search terms that is not empty, a target that is not
    negative, a positive batch size and at least one thread): when the
    search adapter always returns as many URLs as it is asked for and every
    call of a batch returns a path, [download_images] returns with
    [downloaded_count] equal to [num_images] after
    [ceil(num_images / batch_size)] dispatch rounds. *)
Theorem target_convergence
    (search : string -> Z -> pyset -> nat -> exn (list string) * pyset * nat)
    (fetch_all : nat -> nat -> list string -> string -> string -> Shared ->
                 list (exn (option string)) * Shared)
    (set_order : list string -> list string)
    (search_terms : list string) (save_name : string) (num_images : Z)
    (save_folder : string) (threads batch_size : Z) (fuel : nat) :
  search_terms <> [] -> 0 <= num_images -> 1 <= batch_size -> 1 <= threads ->
  (forall keyword total_needed seen calls,
      1 <= total_needed ->
      exists urls, (search keyword total_needed seen calls).1.1 = Ret urls
                   /\ Z.of_nat (length urls) = total_needed) ->
  (forall round workers image_urls dir name sh,
      length (fetch_all round workers image_urls dir name sh).1 = length image_urls
      /\ forall r, r ∈ (fetch_all round workers image_urls dir name sh).1 ->
                   exists file_path, r = Ret (Some file_path) /\ file_path <> "") ->
  (Z.to_nat (ceil_div num_images batch_size) < fuel)%nat ->
  exists st,
    download_images_with search fetch_all set_order search_terms save_name
      num_images save_folder threads batch_size fuel = Done st
    /\ downloaded_count st = num_images
    /\ batch_number st = ceil_div num_images batch_size
    /\ (batch_number st - 1) * batch_size < num_images <= batch_number st * batch_size.
Proof.
  intros Hne Hnum Hbs Hthreads Hsearch Hfetch Hfuel.
  pose proof (ceil_div_spec num_images batch_size Hbs) as Hceil.
  destruct (loop_convergence search fetch_all set_order search_terms save_name
              num_images save_folder threads batch_size
              (Z.to_nat (ceil_div num_images batch_size)) fuel initial_run)
    as (st & Hloop & Hcount & Hbatch); try done.
  - cbn. assert (0 <= ceil_div num_images batch_size) by nia. lia.
  - exists st. split; [exact Hloop|]. split; [exact Hcount|].
    cbn in Hbatch. rewrite Z.sub_0_r in Hbatch. rewrite Hbatch. split; [lia|exact Hceil].
Qed.

(** C8 (for a list of search terms that is not empty and a target of at
    least one image): when the search adapter returns an empty list for
    every keyword, [download_images] returns, without an exception, after
    [len(search_terms)] passes, each of which advances the keyword; nothing
    has been downloaded and no batch dispatched. *)
Theorem exhaustion_termination
    (search : string -> Z -> pyset -> nat -> exn (list string) * pyset * nat)
    (fetch_all : nat -> nat -> list string -> string -> string -> Shared ->
                 list (exn (option string)) * Shared)
    (set_order : list string -> list string)
    (search_terms : list string) (save_name : string) (num_images : Z)
    (save_folder : string) (threads batch_size : Z) (fuel : nat) :
  search_terms <> [] -> 1 <= num_images ->
  (forall keyword total_needed seen calls,
      (search keyword total_needed seen calls).1.1 = Ret []) ->
  (length search_terms <= fuel)%nat ->
  exists st,
    download_images_with search fetch_all set_order search_terms save_name
      num_images save_folder threads batch_size fuel = Done st
    /\ downloaded_count st = 0
    /\ term_index st = Z.of_nat (length search_terms)
    /\ batch_number st = 0
    /\ run_shared st = initial_shared.
Proof.
  intros Hne Hnum Hsearch Hfuel.
  destruct search_terms as [|term terms] eqn:Hterms; [done|]. rewrite <- Hterms in *.
  destruct (loop_exhaustion search fetch_all set_order search_terms save_name
              num_images save_folder threads batch_size
              (length terms) fuel initial_run)
    as (st & Hloop & Hcount & Hbatch & Hshared & Hidx); try done.
  - cbn. lia.
  - rewrite Hterms. cbn [length term_index initial_run]. lia.
  - rewrite Hterms in Hfuel. cbn [length] in Hfuel. lia.
  - exists st. by repeat split.
Qed.

(** C10: with an empty list of search terms and a target of at least one
    image, the first pass raises [ZeroDivisionError] where it selects the
    keyword: nothing has been searched or downloaded by then. *)
Theorem empty_search_terms_raise
    (search : string -> Z -> pyset -> nat -> exn (list string) * pyset * nat)
    (fetch_all : nat -> nat -> list string -> string -> string -> Shared ->
                 list (exn (option string)) * Shared)
    (set_order : list string -> list string)
    (save_name : string) (num_images : Z)
    (save_folder : string) (threads batch_size : Z) (fuel : nat) :
  0 < num_images ->
  download_images_with search fetch_all set_order [] save_name
    num_images save_folder threads batch_size (S fuel)
  = Crashed ZeroDivisionError initial_run.
Proof. intros Hnum. by apply loop_empty_terms. Qed.

(** C4 (with at least one thread): whatever the search backend answers and
    whatever the calls of [download_image] do, return or raise, no exception
    escapes [download_images] when the list of search terms is not empty;
    the count it has reached lies between 0 and the target.  This holds for
    the pool of workers of the source in particular, for every network,
    disk and scheduler. *)
Theorem graceful_degradation
    (backend : nat -> string -> Z -> Results)
    (fetch_all : nat -> nat -> list string -> string -> string -> Shared ->
                 list (exn (option string)) * Shared)
    (env : Env)
    (search_terms : list string) (save_name : string) (num_images : Z)
    (save_folder : string) (threads batch_size : Z) (fuel : nat) :
  search_terms <> [] -> 1 <= threads ->
  match download_images_with
          (fun keyword total_needed seen_urls calls =>
             fetch_image_urls backend keyword total_needed seen_urls calls
               default_retries)
          fetch_all (set_iteration env) search_terms save_name num_images
          save_folder threads batch_size fuel with
  | Done st | Running st => 0 <= downloaded_count st <= Z.max 0 num_images
  | Crashed _ _ => False
  end
  /\ match download_images env search_terms save_name num_images save_folder
             threads batch_size fuel with
     | Done st | Running st => 0 <= downloaded_count st <= Z.max 0 num_images
     | Crashed _ _ => False
     end.
Proof.
  intros Hne Hthreads.
  assert (Hreturns : forall ddgs keyword total_needed seen calls,
            exists urls,
              (fetch_image_urls ddgs keyword total_needed seen calls
                 default_retries).1.1 = Ret urls).
  { intros ddgs keyword total_needed seen calls.
    destruct (fetch_image_urls ddgs keyword total_needed seen calls default_retries)
      as [[r seen'] calls'] eqn:Hfetch.
    apply fetch_attempts_spec in Hfetch as (urls & -> & _). by exists urls. }
  split; apply loop_safe; try done; intros; apply Hreturns.
Qed.

(** * Memory control *)

Section Truncation.

Variable set_order : list string -> list string.
Hypothesis set_order_members : forall s, set_order s ≡ₚ s.

Lemma set_order_length (s : pyset) : length (set_order s) = length s.
Proof. apply Permutation_length, set_order_members. Qed.

Lemma truncate_small (s : pyset) :
  Z.of_nat (length s) <= 50000 -> truncate set_order s = s.
Proof.
  intros H. unfold truncate.
  by destruct (Z.ltb_spec 50000 (Z.of_nat (length s))); [lia|].
Qed.

Lemma truncate_large (s : pyset) :
  50000 < Z.of_nat (length s) ->
  truncate set_order s
  = drop (Z.to_nat (Z.of_nat (length s) - 25000)) (set_order s).
Proof.
  intros H. unfold truncate. rewrite set_order_length.
  by destruct (Z.ltb_spec 50000 (Z.of_nat (length s))); [|lia].
Qed.

Lemma truncate_length (s : pyset) :
  50000 < Z.of_nat (length s) ->
  Z.of_nat (length (truncate set_order s)) = 25000.
Proof.
  intros H. rewrite truncate_large by done.
  rewrite length_drop, set_order_length. lia.
Qed.

Lemma truncate_length_le (s : pyset) :
  Z.of_nat (length (truncate set_order s)) <= 50000.
Proof.
  destruct (Z.le_gt_cases (Z.of_nat (length s)) 50000).
  - by rewrite truncate_small.
  - rewrite truncate_length; lia.
Qed.

Lemma truncate_subset (s : pyset) (x : string) :
  x ∈ truncate set_order s -> x ∈ s.
Proof.
  unfold truncate. destruct (50000 <? Z.of_nat (length s)); [|done].
  intros Hx. rewrite <- (set_order_members s).
  eapply elem_of_sublist; [exact Hx | apply sublist_drop].
Qed.

Lemma truncate_NoDup (s : pyset) : NoDup s -> NoDup (truncate set_order s).
Proof.
  intros Hs. unfold truncate. destruct (50000 <? Z.of_nat (length s)); [|done].
  eapply sublist_NoDup; [|apply sublist_drop]. by rewrite set_order_members.
Qed.

End Truncation.

(** X19: after a dispatch round neither set holds more than 50,000
    entries.  The step that sees to it leaves a set of at most 50,000 entries
    as it is, and cuts a larger one down to exactly 25,000 of its entries:
    the last 25,000 of [list(s)], in whatever order the set is iterated. *)
Theorem memory_bound (set_order : list string -> list string) :
  (forall s, set_order s ≡ₚ s) ->
  (forall s : pyset,
      (Z.of_nat (length s) <= 50000 -> truncate set_order s = s)
      /\ (50000 < Z.of_nat (length s) ->
          Z.of_nat (length (truncate set_order s)) = 25000
          /\ truncate set_order s
             = drop (Z.to_nat (Z.of_nat (length s) - 25000)) (set_order s))
      /\ (forall x, x ∈ truncate set_order s -> x ∈ s)
      /\ (NoDup s -> NoDup (truncate set_order s)))
  /\ (forall search fetch_all search_terms save_name num_images save_folder
             threads batch_size (st st' : Run),
         pass search fetch_all set_order search_terms save_name num_images
           save_folder threads batch_size st = Continue st' ->
         batch_number st' = batch_number st + 1 ->
         Z.of_nat (length (seen_urls st')) <= 50000
         /\ Z.of_nat (length (seen_hashes (run_shared st'))) <= 50000).
Proof.
  intros Horder. split.
  - intros s. split; [by apply truncate_small|]. split.
    + intros Hlarge. split; [by apply truncate_length | by apply truncate_large].
    + split; [intros x; by apply truncate_subset | by apply truncate_NoDup].
  - intros search fetch_all search_terms save_name num_images save_folder
      threads batch_size st st'. unfold pass.
    destruct (_ =? 0); [done|].
    destruct (search_terms !! _) as [keyword|]; [|done]. cbn zeta.
    destruct (search _ _ _ _) as [[answer seen'] calls'].
    destruct answer as [[|url urls]|e]; [| |done].
    + cbn [term_index]. destruct (_ >=? _); [done|]. intros [= <-]. cbn. lia.
    + destruct (threads <=? 0); [done|].
      destruct (fetch_all _ _ _ _ _ _) as [results sh]. intros [= <-] _.
      cbn [seen_urls run_shared truncate_hashes seen_hashes].
      split; by apply truncate_length_le.
Qed.

Lemma memory_bound_witness :
  Z.of_nat (length (truncate reverse crowded)) = 25000
  /\ truncate reverse crowded
     = drop (Z.to_nat (Z.of_nat (length crowded) - 25000)) (reverse crowded).
Proof.
  pose proof (memory_bound reverse reverse_Permutation) as [Hcut _].
  destruct (Hcut crowded) as (_ & Hlarge & _). apply Hlarge.
  unfold crowded. rewrite length_fmap, length_seq. lia.
Defined.

Lemma numbered_inj (m n : nat) : numbered m = numbered n -> m = n.
Proof. unfold numbered. intros H. by apply (inj _), (inj pretty) in H. Qed.

Lemma numbered_lookup (n i : nat) :
  (i < n)%nat -> (numbered <$> seq 0 n) !! i = Some (numbered i).
Proof. intros Hi. by rewrite list_lookup_fmap, lookup_seq_lt. Qed.

(** With a hash table that iterates in the reverse of the order of
    insertion, a set of more than 50,000 numbered URLs is cut down to 25,000
    of which the oldest is one and the newest is not. *)
Lemma reverse_order_keeps_oldest (n : nat) :
  50000 < Z.of_nat (S n) ->
  let s := numbered <$> seq 0 (S n) in
  last s = Some (numbered n)
  /\ head s = Some (numbered 0)
  /\ Z.of_nat (length (truncate reverse s)) = 25000
  /\ (numbered n ∉ truncate reverse s)
  /\ numbered 0 ∈ truncate reverse s.
Proof.
  intros Hn s.
  assert (Hlen : length s = S n) by (unfold s; by rewrite length_fmap, length_seq).
  assert (Hlook : forall i, (i < S n)%nat -> s !! i = Some (numbered i))
    by (intros i Hi; by apply numbered_lookup).
  assert (Hkept : exists k, Z.of_nat k = 25000
                            /\ truncate reverse s = reverse (take k s)).
  { exists (length s - Z.to_nat (Z.of_nat (length s) - 25000))%nat.
    split; [rewrite Hlen; lia|].
    rewrite (truncate_large reverse reverse_Permutation) by (rewrite Hlen; lia).
    by rewrite drop_reverse. }
  destruct Hkept as (k & Hk & Hkept).
  split; [|split; [|split; [|split]]].
  - rewrite last_lookup, Hlen. cbn [pred]. apply Hlook. lia.
  - rewrite head_lookup. apply Hlook. lia.
  - apply (truncate_length reverse reverse_Permutation). rewrite Hlen. lia.
  - rewrite Hkept, elem_of_reverse, elem_of_take.
    intros (i & Hi & Hlt). rewrite Hlook in Hi by lia.
    apply (inj Some), numbered_inj in Hi. lia.
  - rewrite Hkept, elem_of_reverse, elem_of_take.
    exists O. split; [apply Hlook|]; lia.
Qed.

(** A run that is to fetch [S n] images in one batch, with an adapter that
    finds as many new URLs as it is asked for and a pool in which every
    call saves a file: one round, after which memory control goes over the
    [S n] URLs in the order of their insertion. *)
Lemma one_round_run (set_order : list string -> list string) (n : nat) :
  download_images_with full_search lucky_pool set_order ["cats"] "Ben"
    (Z.of_nat (S n)) "images" 1 (Z.of_nat (S n)) 1
  = Done (mkRun (truncate set_order (numbered <$> seq 0 (S n))) 1
            (truncate_hashes set_order initial_shared) (Z.of_nat (S n)) 1 1).
Proof.
  unfold download_images_with. cbn [download_loop].
  change (downloaded_count initial_run) with 0.
  destruct (Z.ltb_spec 0 (Z.of_nat (S n))); [|lia].
  assert (Hsearch :
    full_search "cats"
      (Z.min (Z.of_nat (S n)) (Z.of_nat (S n) - downloaded_count initial_run))
      (seen_urls initial_run) (ddgs_calls initial_run)
    = (Ret (numbered <$> seq 0 (S n)), numbered <$> seq 0 (S n), 1%nat)).
  { unfold full_search. change (downloaded_count initial_run) with 0.
    replace (Z.min (Z.of_nat (S n)) (Z.of_nat (S n) - 0)) with (Z.of_nat (S n))
      by lia.
    by rewrite Nat2Z.id. }
  assert (Hne : ["cats"] <> @nil string) by discriminate.
  rewrite (pass_unfold full_search lucky_pool set_order ["cats"] "Ben"
             (Z.of_nat (S n)) "images" 1 (Z.of_nat (S n)) initial_run "cats"
             _ _ _ Hne eq_refl Hsearch).
  cbn [seq fmap list_fmap]. destruct (Z.leb_spec 1 0); [lia|]. cbn zeta.
  set (urls := numbered 0 :: (numbered <$> seq 1 n)).
  assert (Hcount : collect (lucky_pool (Z.to_nat (batch_number initial_run))
                              (Z.to_nat 1) urls
                              (folder "Ben" "images") "Ben"
                              (run_shared initial_run)).1
                     (Z.of_nat (S n)) (downloaded_count initial_run)
                   = Z.of_nat (S n)).
  { change (downloaded_count initial_run) with 0.
    rewrite collect_min by lia. unfold lucky_pool. cbn [fst].
    rewrite successes_all.
    - rewrite length_fmap. unfold urls. cbn [length].
      rewrite length_fmap, length_seq. lia.
    - intros r (url & -> & _)%list_elem_of_fmap. by eexists. }
  rewrite Hcount. cbn [download_loop downloaded_count].
  destruct (Z.ltb_spec (Z.of_nat (S n)) (Z.of_nat (S n))); [lia|]. done.
Qed.

(** C7: the survivors of the cut need not be the most recently inserted
    entries.  [download_images] is asked for 50,001 images in one batch
    and meets 50,001 new URLs; every download succeeds and the run returns
    after its one round.  Memory control then finds 50,001 entries in
    [seen_urls] and keeps [list(seen_urls)[-25000:]], which follows the
    order in which the set is iterated and not the order of insertion:
    when the set is iterated from its newest entry to its oldest, the
    25,000 entries kept include the oldest and leave out the newest. *)
Theorem survivors_not_newest :
  exists st : Run,
    download_images_with full_search lucky_pool reverse ["cats"] "Ben"
      50001 "images" 1 50001 1 = Done st
    /\ downloaded_count st = 50001
    /\ seen_urls st = truncate reverse crowded
    /\ head crowded = Some (numbered 0)
    /\ last crowded = Some (numbered (Z.to_nat 50000))
    /\ Z.of_nat (length (seen_urls st)) = 25000
    /\ (numbered (Z.to_nat 50000) ∉ seen_urls st)
    /\ numbered 0 ∈ seen_urls st.
Proof.
  assert (H : 50000 < Z.of_nat (S (Z.to_nat 50000))) by lia.
  pose proof (reverse_order_keeps_oldest (Z.to_nat 50000) H)
    as (Hlast & Hhead & Hlen & Hnew & Hold).
  pose proof (one_round_run reverse (Z.to_nat 50000)) as Hrun.
  replace (Z.of_nat (S (Z.to_nat 50000))) with 50001 in Hrun by lia.
  eexists. split; [exact Hrun|]. cbn [downloaded_count seen_urls].
  split; [reflexivity|]. split; [reflexivity|]. split; [exact Hhead|]. split; [exact Hlast|].
  split; [exact Hlen|]. split; [exact Hnew | exact Hold].
Qed.

(** * The blocklist along a run *)

Section BlocklistRun.

Variable search : string -> Z -> pyset -> nat -> exn (list string) * pyset * nat.
Variable fetch_all :
  nat -> nat -> list string -> string -> string -> Shared ->
  list (exn (option string)) * Shared.
Variable set_order : list string -> list string.
Variable search_terms : list string.
Variable save_name : string.
Variable num_images : Z.
Variable save_folder : string.
Variables threads batch_size : Z.

Hypothesis fetch_all_keeps :
  forall round workers image_urls dir name sh,
    bad_domains sh
    ⊆ bad_domains (fetch_all round workers image_urls dir name sh).2.

Lemma pass_bad_domains (st : Run) :
  bad_domains (run_shared st)
  ⊆ bad_domains
      (run_shared
         (after (pass search fetch_all set_order search_terms save_name
                   num_images save_folder threads batch_size st))).
Proof.
  unfold pass. destruct (_ =? 0); [done|].
  destruct (search_terms !! _) as [keyword|]; [|done]. cbn zeta.
  destruct (search _ _ _ _) as [[answer seen'] calls'].
  destruct answer as [[|url urls]|e]; [| |done].
  - cbn [term_index]. by destruct (_ >=? _).
  - destruct (threads <=? 0); [done|].
    pose proof (fetch_all_keeps (Z.to_nat (batch_number st)) (Z.to_nat threads)
                  (url :: urls) (folder save_name save_folder) save_name
                  (run_shared st)) as Hkeep.
    cbn [run_shared batch_number] in *.
    by destruct (fetch_all _ _ _ _ _ _) as [results sh].
Qed.

Lemma loop_bad_domains (fuel : nat) (st : Run) :
  bad_domains (run_shared st)
  ⊆ bad_domains
      (run_shared
         (final (download_loop search fetch_all set_order search_terms save_name
                   num_images save_folder threads batch_size fuel st))).
Proof.
  revert st. induction fuel as [|fuel IH]; intros st; cbn [download_loop];
    destruct (_ <? _); try done.
  pose proof (pass_bad_domains st) as Hpass.
  destruct (pass _ _ _ _ _ _ _ _ _ st) as [st'|st'|e st']; cbn [after final] in *;
    try done.
  etrans; [exact Hpass | apply IH].
Qed.

End BlocklistRun.

Lemma dispatch_evolves (net : Net) (folder person_name : string)
    (max_retries threads : nat) (schedule : nat -> nat)
    (image_urls : list string) (sh : Shared) (fuel : nat) :
  evolves net folder person_name max_retries (mkPool [] sh [])
    (run_pool net folder person_name max_retries threads schedule fuel 0
       (mkPool (submit image_urls) sh [])).
Proof.
  apply run_pool_evolves.
  apply (ev_submit _ _ _ _ _ (mkPool [] sh []) image_urls); [apply ev_refl|].
  intros w Hw. by apply elem_of_nil in Hw.
Qed.

Lemma worker_pool_bad_domains (env : Env) (round workers : nat)
    (image_urls : list string) (dir name : string) (sh : Shared) :
  bad_domains sh ⊆ bad_domains (worker_pool env round workers image_urls dir name sh).2.
Proof.
  unfold worker_pool, dispatch. cbn [snd].
  apply (evolves_bad_domains _ _ _ _ _ _ (dispatch_evolves _ _ _ _ _ _ _ _ _)).
Qed.

(** C2: a call adds its host to the blocklist exactly when its loop runs
    out of attempts: it then returns [None] and the list has gained that
    host; a call whose loop returns leaves the list as it was.  A call on a
    blocklisted host returns [None] with the shared state, the log of
    requests included, untouched.  As the workers of a run move on no host
    leaves the list, so that from the moment a host is in it, a worker that
    starts on any URL of that host finishes with [None] in one step, without
    a request.  And from any state of [download_images] on, whatever the
    passes that follow, memory control included, the list holds every host
    it held. *)
Theorem blocklist_monotone (net : Net) (folder person_name : string)
    (max_retries : nat) :
  (forall (url : string) (parsed : ParseResult) (sh : Shared),
      urlparse url = Ret parsed ->
      netloc parsed ∉ bad_domains sh ->
      match (download_attempts net folder person_name max_retries url sh).1 with
      | None =>
          (download_image net folder person_name max_retries url sh).1 = Ret None
          /\ bad_domains (download_image net folder person_name max_retries url sh).2
             = {[netloc parsed]} ∪ bad_domains sh
      | Some r =>
          (download_image net folder person_name max_retries url sh).1 = r
          /\ bad_domains (download_image net folder person_name max_retries url sh).2
             = bad_domains sh
      end)
  /\ (forall (url : string) (parsed : ParseResult) (sh : Shared),
         urlparse url = Ret parsed ->
         netloc parsed ∈ bad_domains sh ->
         download_image net folder person_name max_retries url sh = (Ret None, sh))
  /\ (forall p q : Pool,
         evolves net folder person_name max_retries p q ->
         bad_domains (shared p) ⊆ bad_domains (shared q)
         /\ forall (i : nat) (w : Worker) (parsed : ParseResult),
             workers q !! i = Some w ->
             w_pc w = AtStart ->
             urlparse (w_url w) = Ret parsed ->
             netloc parsed ∈ bad_domains (shared p) ->
             shared (advance net folder person_name max_retries i w q) = shared q
             /\ workers (advance net folder person_name max_retries i w q) !! i
                = Some (mkWorker (w_url w) (Finished (Ret None))))
  /\ (forall (env : Env) (search_terms : list string) (save_name : string)
             (num_images : Z) (save_folder : string) (threads batch_size : Z)
             (fuel : nat) (st : Run),
         bad_domains (run_shared st)
         ⊆ bad_domains
             (run_shared
                (final (download_loop (search_adapter env) (worker_pool env)
                          (set_iteration env) search_terms save_name num_images
                          save_folder threads batch_size fuel st)))).
Proof.
  split; [|split; [|split]].
  - intros url parsed sh. apply download_image_bad_domains.
  - intros url parsed sh. apply download_image_blocked.
  - intros p q Hev.
    pose proof (evolves_bad_domains _ _ _ _ _ _ Hev) as Hsub.
    split; [done|].
    intros i w parsed Hw Hpc Hparse Hbad. unfold advance.
    rewrite Hpc. cbn [worker_step]. rewrite Hparse.
    rewrite bool_decide_eq_true_2 by (by apply Hsub). cbn [shared workers].
    split; [done|]. apply list_lookup_insert_eq. by eapply lookup_lt_Some.
  - intros env search_terms save_name num_images save_folder threads batch_size
      fuel st.
    apply loop_bad_domains. intros. apply worker_pool_bad_domains.
Qed.

Lemma blocklist_monotone_witness :
  let sh := (download_image dead_net "images/Ben" "Ben" 3 url_a initial_shared).2 in
  bad_domains sh = {["a.example"]} ∪ ∅
  /\ requests sh = [url_a; url_a; url_a]
  /\ download_image dead_net "images/Ben" "Ben" 3 url_a sh = (Ret None, sh).
Proof.
  pose proof (proj1 (blocklist_monotone dead_net "images/Ben" "Ben" 3)
                url_a parsed_a initial_shared eq_refl (not_elem_of_empty _)) as [_ Hbad].
  split; [exact Hbad|]. split; [reflexivity|].
  apply (proj1 (proj2 (blocklist_monotone dead_net "images/Ben" "Ben" 3))
           url_a parsed_a); [reflexivity|].
  cbv zeta. rewrite Hbad. apply elem_of_union_l, elem_of_singleton. reflexivity.
Defined.

(** * The orchestrator on sample runs *)

Lemma target_convergence_witness :
  exists st,
    download_images_with full_search lucky_pool reverse ["cats"; "dogs"] "Ben"
      5 "images" 10 2 4 = Done st
    /\ downloaded_count st = 5
    /\ batch_number st = 3.
Proof.
  destruct (target_convergence full_search lucky_pool reverse ["cats"; "dogs"] "Ben"
              5 "images" 10 2 4) as (st & Hrun & Hcount & Hbatch & _).
  - discriminate.
  - lia.
  - lia.
  - lia.
  - intros keyword total_needed seen calls Hneeded. eexists. split; [reflexivity|].
    rewrite length_fmap, length_seq. lia.
  - intros round workers image_urls dir name sh. split.
    + cbn. by rewrite length_fmap.
    + cbn. intros r (url & -> & _)%list_elem_of_fmap. by eexists.
  - vm_compute. lia.
  - exists st. split; [exact Hrun|]. split; [exact Hcount | exact Hbatch].
Defined.

Lemma exhaustion_termination_witness :
  exists st,
    download_images quiet_env ["cats"; "dogs"; "birds"] "Ben" 1000 "images" 10 300 3
    = Done st
    /\ downloaded_count st = 0
    /\ term_index st = 3.
Proof.
  destruct (exhaustion_termination (search_adapter quiet_env) (worker_pool quiet_env)
              (set_iteration quiet_env) ["cats"; "dogs"; "birds"] "Ben" 1000
              "images" 10 300 3) as (st & Hrun & Hcount & Hidx & _).
  - discriminate.
  - lia.
  - reflexivity.
  - simpl. lia.
  - exists st. split; [exact Hrun|]. split; [exact Hcount | exact Hidx].
Defined.

Lemma empty_search_terms_raise_witness :
  download_images quiet_env [] "Ben" 1000 "images" 10 300 1
  = Crashed ZeroDivisionError initial_run.
Proof.
  apply (empty_search_terms_raise (search_adapter quiet_env) (worker_pool quiet_env)
           (set_iteration quiet_env) "Ben" 1000 "images" 10 300 0).
  lia.
Defined.

Lemma graceful_degradation_witness :
  match download_images flaky_env ["cats"; "dogs"] "Ben" 3 "images" 2 2 6 with
  | Done st | Running st => 0 <= downloaded_count st <= Z.max 0 3
  | Crashed _ _ => False
  end.
Proof.
  assert (Hterms : ["cats"; "dogs"] <> @nil string) by discriminate.
  assert (Hthreads : 1 <= 2) by lia.
  pose proof (graceful_degradation sample_backend lucky_pool flaky_env
                ["cats"; "dogs"] "Ben" 3 "images" 2 2 6 Hterms Hthreads) as H.
  destruct H as [_ H]. exact H.
Defined.

(** * Paths *)

Section PathFacts.
Import Str StrFacts.


Lemma nonempty_app_r (a b : string) : nonempty b = true -> nonempty (a +:+ b) = true.
Proof. intros H. destruct a as [|c a]; [by rewrite append_nil | by rewrite append_cons]. Qed.

Lemma path_join_nonempty (a b : string) :
  nonempty b = true -> nonempty (path_join a b) = true.
Proof.
  intros H. unfold path_join.
  destruct (startswith "/" b); [done|].
  destruct (negb (nonempty a) || String.eqb (drop (String.length a - 1) a) "/").
  - by apply nonempty_app_r.
  - by apply nonempty_app_r, nonempty_app_r.
Qed.





Lemma target_path_nonempty (folder person_name img_hash ext : string) :
  target_path folder person_name img_hash ext <> "".
Proof.
  unfold target_path.
  assert (H : nonempty (path_join folder
                 (replace " " "_" person_name +:+ "_" +:+ img_hash +:+ "." +:+ ext)) = true).
  { apply path_join_nonempty. by apply nonempty_app_r. }
  intros E. by rewrite E in H.
Qed.

End PathFacts.

(** * What one call leaves behind *)

Section CallEffects.

Variable net : Net.
Variables (folder person_name : string) (max_retries : nat).

Local Abbreviation attempts := (download_attempts net folder person_name).
Local Abbreviation call := (download_image net folder person_name max_retries).
Local Abbreviation target := (target_path folder person_name).

(** What the loop of a call has done when it ends: [k] GETs, all for its
    URL; files for some of the payloads, of which only the last can be
    complete, and is when the loop returns a path. *)
Lemma download_attempts_trace (n : nat) (url : string) (sh sh' : Shared)
    (r : option (exn (option string))) :
  attempts n url sh = (r, sh') ->
  exists (k : nat) (added : list File),
    (k <= n)%nat
    /\ requests sh' = requests sh ++ replicate k url
    /\ (r = None -> k = n)
    /\ (writes sh <= writes sh' <= writes sh + k)%nat
    /\ files sh' = files sh ++ added
    /\ (forall f, f ∈ added -> exists ext, file_path f = target (file_hash f) ext)
    /\ match r with
       | Some (Ret (Some saved)) =>
           exists partials f,
             added = partials ++ [f] /\ all_partial partials
             /\ file_complete f = true /\ file_path f = saved
       | Some (Raise _) => False
       | _ => all_partial added
       end.
Proof.
  revert sh r sh'. induction n as [|n IH]; intros sh r sh' H.
  { cbn in H. injection H as <- <-. exists O, []. cbn.
    rewrite !app_nil_r. repeat split; try lia; try done.
    - intros f Hf. by apply elem_of_nil in Hf.
    - constructor. }
  rewrite download_attempts_S in H.
  assert (Hretry : forall sh1 pre,
             requests sh1 = requests sh ++ [url] ->
             (writes sh <= writes sh1 <= S (writes sh))%nat ->
             files sh1 = files sh ++ pre ->
             all_partial pre ->
             (forall f, f ∈ pre -> exists ext, file_path f = target (file_hash f) ext) ->
             attempts n url sh1 = (r, sh') ->
             exists (k : nat) (added : list File),
               (k <= S n)%nat
               /\ requests sh' = requests sh ++ replicate k url
               /\ (r = None -> k = S n)
               /\ (writes sh <= writes sh' <= writes sh + k)%nat
               /\ files sh' = files sh ++ added
               /\ (forall f, f ∈ added ->
                             exists ext, file_path f = target (file_hash f) ext)
               /\ match r with
                  | Some (Ret (Some saved)) =>
                      exists partials f,
                        added = partials ++ [f] /\ all_partial partials
                        /\ file_complete f = true /\ file_path f = saved
                  | Some (Raise _) => False
                  | _ => all_partial added
                  end).
  { intros sh1 pre Hreq Hw Hfiles Hpre Hpaths Hrec.
    apply IH in Hrec as (k & added & Hk & Hreq' & Hnone & Hw' & Hfiles' & Hpaths' & Hr).
    exists (S k), (pre ++ added).
    split; [lia|]. split.
    { rewrite Hreq', Hreq, <- app_assoc. done. }
    split; [intros Hn; by rewrite (Hnone Hn)|].
    split; [lia|]. split.
    { by rewrite Hfiles', Hfiles, <- app_assoc. }
    split.
    { intros f Hf. apply elem_of_app in Hf as [Hf|Hf]; [by apply Hpaths | by apply Hpaths']. }
    destruct r as [[[saved|]|e]|]; try done.
    - destruct Hr as (partials & f & -> & Hpart & Hf & Hpath).
      exists (pre ++ partials), f. rewrite <- app_assoc.
      split; [done|]. split; [by apply Forall_app|done].
    - by apply Forall_app.
    - by apply Forall_app. }
  assert (Hplain : attempts n url (log_request url sh) = (r, sh') ->
                   exists (k : nat) (added : list File),
               (k <= S n)%nat
               /\ requests sh' = requests sh ++ replicate k url
               /\ (r = None -> k = S n)
               /\ (writes sh <= writes sh' <= writes sh + k)%nat
               /\ files sh' = files sh ++ added
               /\ (forall f, f ∈ added ->
                             exists ext, file_path f = target (file_hash f) ext)
               /\ match r with
                  | Some (Ret (Some saved)) =>
                      exists partials f,
                        added = partials ++ [f] /\ all_partial partials
                        /\ file_complete f = true /\ file_path f = saved
                  | Some (Raise _) => False
                  | _ => all_partial added
                  end).
  { intros Hrec. apply (Hretry (log_request url sh) []); try done.
    - cbn. lia.
    - cbn. by rewrite app_nil_r.
    - constructor.
    - intros f Hf. by apply elem_of_nil in Hf. }
  destruct (session_get net (length (requests sh)) url) as [response|e]; [|by apply Hplain].
  destruct (acceptable response); [|by apply Hplain].
  destruct (content response) as [img_bytes|e]; [|by apply Hplain].
  cbn zeta in H.
  destruct (set_in (md5_hexdigest net img_bytes) (seen_hashes (log_request url sh))).
  { injection H as <- <-. exists 1%nat, []. cbn. rewrite app_nil_r.
    repeat split; try lia; try done.
    - intros f Hf. by apply elem_of_nil in Hf.
    - constructor. }
  destruct (get_extension_from_url_or_content (guess_extension net) url response)
    as [ext|e].
  2: { apply (fun a b c d e => Hretry _ [] a b c d e H);
         [done | cbn; lia | by cbn; rewrite app_nil_r | constructor |].
       intros f Hf. by apply elem_of_nil in Hf. }
  unfold write_image in H. cbn [writes add_hash log_request] in H.
  destruct (disk net (writes sh) (target (md5_hexdigest net img_bytes) ext)) as [| |written].
  - injection H as <- <-.
    exists 1%nat, [mkFile (target (md5_hexdigest net img_bytes) ext)
                     (md5_hexdigest net img_bytes) img_bytes true].
    cbn. repeat split; try lia; try done.
    + intros f Hf. apply list_elem_of_singleton in Hf as ->. by exists ext.
    + eexists [], _. cbn. repeat split. constructor.
  - apply (fun a b c d e => Hretry _ [] a b c d e H);
      [done | cbn; lia | by cbn; rewrite app_nil_r | constructor |].
    intros f Hf. by apply elem_of_nil in Hf.
  - apply (fun a b c d e =>
             Hretry _ [mkFile (target (md5_hexdigest net img_bytes) ext)
                         (md5_hexdigest net img_bytes) written false] a b c d e H);
      [done | cbn; lia | done | by repeat constructor |].
    intros f Hf. apply list_elem_of_singleton in Hf as ->. by exists ext.
Qed.

Lemma check_bracketed_netloc_raises (netloc : string) (e : PyExn) :
  check_bracketed_netloc netloc = Raise e -> e = ValueError.
Proof.
  unfold check_bracketed_netloc, check_bracketed_host.
  repeat match goal with
         | |- context [let '(_, _) := ?x in _] => destruct x
         | |- context [if ?b then _ else _] => destruct b
         end;
    intros H; by inversion H.
Qed.

Lemma urlparse_raises (url : string) (e : PyExn) :
  urlparse url = Raise e -> e = ValueError.
Proof.
  unfold urlparse. cbn zeta.
  destruct (_ && _ && _); cbn zeta;
    (destruct (Str.startswith "//" _); cbn [mbind exn_bind];
     [ destruct (Str.break _ _) as [netloc rest];
       destruct (_ || _); cbn [mbind exn_bind];
       [| destruct (_ && _); cbn [mbind exn_bind];
          [ destruct (check_bracketed_netloc netloc) as [[]|e'] eqn:Hcheck;
            cbn [mbind exn_bind];
            [| intros [= <-]; by apply (check_bracketed_netloc_raises netloc) ]
          |] ]
     |]);
    repeat match goal with
           | |- context [let '(_, _) := ?x in _] => destruct x
           end;
    intros H; by inversion H.
Qed.

(** What a call has done when it ends. *)
Lemma download_image_trace (url : string) (sh : Shared) :
  exists (k : nat) (added : list File),
    (k <= max_retries)%nat
    /\ requests (call url sh).2 = requests sh ++ replicate k url
    /\ (writes sh <= writes (call url sh).2 <= writes sh + k)%nat
    /\ files (call url sh).2 = files sh ++ added
    /\ (forall f, f ∈ added -> exists ext, file_path f = target (file_hash f) ext)
    /\ (bad_domains (call url sh).2 <> bad_domains sh -> k = max_retries)
    /\ (forall parsed, urlparse url = Ret parsed -> netloc parsed ∈ bad_domains sh ->
                       k = O)
    /\ match (call url sh).1 with
       | Ret (Some saved) =>
           exists partials f,
             added = partials ++ [f] /\ all_partial partials
             /\ file_complete f = true /\ file_path f = saved
       | Ret None => all_partial added
       | Raise e => urlparse url = Raise e /\ (call url sh).2 = sh
       end.
Proof.
  unfold download_image.
  destruct (urlparse url) as [parsed|e] eqn:Hparse.
  2: { exists O, []. cbn. rewrite !app_nil_r. repeat split; try done; try lia.
       intros f Hf. by apply elem_of_nil in Hf. }
  destruct (bool_decide (netloc parsed ∈ bad_domains sh)) eqn:Hbad.
  { exists O, []. cbn. rewrite !app_nil_r. repeat split; try done; try lia.
    - intros f Hf. by apply elem_of_nil in Hf.
    - constructor. }
  apply bool_decide_eq_false in Hbad.
  destruct (attempts max_retries url sh) as [r sh'] eqn:Hloop.
  pose proof (download_attempts_effect _ _ _ _ _ _ _ _ Hloop) as [Hsame _].
  apply download_attempts_trace in Hloop
      as (k & added & Hk & Hreq & Hnone & Hw & Hfiles & Hpaths & Hr).
  exists k, added. destruct r as [r|]; cbn [fst snd].
  - repeat split; try done; try lia.
    + intros parsed' [= <-] Hin. done.
    + destruct r as [[saved|]|e]; done.
  - cbn [requests writes files add_bad_domain].
    repeat split; try done; try lia.
    + intros _. by apply Hnone.
    + intros parsed' [= <-] Hin. done.
Qed.

End CallEffects.

Lemma complete_app (fs gs : list File) : complete (fs ++ gs) = complete fs ++ complete gs.
Proof. apply List.filter_app. Qed.

Lemma complete_partial (fs : list File) : all_partial fs -> complete fs = [].
Proof.
  induction 1 as [|f fs Hf _ IH]; [done|]. unfold complete in *. cbn. by rewrite Hf.
Qed.

Section CallTheorems.

Variable net : Net.
Variables (folder person_name : string) (max_retries : nat).

Local Abbreviation call := (download_image net folder person_name max_retries).

(** X1: a call issues at most [max_retries] GETs, all of them for its own
    URL, and tries to write a file at most once for each; it has issued
    exactly [max_retries] when it puts the host on the blocklist, and none
    when the host is on the list already or the URL does not parse. *)
Theorem request_budget (url : string) (sh : Shared) :
  exists k : nat,
    (k <= max_retries)%nat
    /\ requests (call url sh).2 = requests sh ++ replicate k url
    /\ (writes sh <= writes (call url sh).2 <= writes sh + k)%nat
    /\ (bad_domains (call url sh).2 <> bad_domains sh -> k = max_retries)
    /\ (forall parsed,
           urlparse url = Ret parsed -> netloc parsed ∈ bad_domains sh -> k = O)
    /\ (forall e, urlparse url = Raise e -> k = O).
Proof.
  destruct (download_image_trace net folder person_name max_retries url sh)
    as (k & added & Hk & Hreq & Hw & _ & _ & Hbad & Hlisted & Hr).
  exists k. split; [done|]. split; [done|]. split; [done|]. split; [done|].
  split; [done|].
  intros e He. unfold download_image in Hreq. rewrite He in Hreq. cbn in Hreq.
  rewrite <- (app_nil_r (requests sh)) in Hreq at 1.
  apply app_inv_head in Hreq. by destruct k.
Qed.

(** X2: the only exception that leaves a call is the [ValueError] of
    [urlparse] on its URL, raised before anything is read or changed;
    whatever the session, the body or the disk raise stays inside. *)
Theorem exceptions_contained (url : string) (sh : Shared) (e : PyExn) :
  (call url sh).1 = Raise e ->
  e = ValueError
  /\ urlparse url = Raise ValueError
  /\ call url sh = (Raise ValueError, sh).
Proof.
  intros Hraise.
  destruct (download_image_trace net folder person_name max_retries url sh)
    as (k & added & _ & _ & _ & _ & _ & _ & _ & Hr).
  destruct (call url sh) as [r sh'] eqn:Hcall. cbn [fst snd] in *. subst r.
  destruct Hr as [Hparse ->].
  pose proof (urlparse_raises _ _ Hparse) as He. subst e. done.
Qed.

(** X3: a call returns a path exactly when it has written a file to its
    end, and that file is the one at the path returned, which is not empty:
    the files that the call leaves besides are broken-off ones, and a call
    that returns [None] or raises has written none to its end. *)
Theorem saved_iff_returned (url : string) (sh : Shared) :
  exists added,
    files (call url sh).2 = files sh ++ added
    /\ match (call url sh).1 with
       | Ret (Some saved) =>
           exists partials f,
             added = partials ++ [f] /\ all_partial partials
             /\ file_complete f = true /\ file_path f = saved /\ saved <> ""
       | _ => all_partial added
       end
    /\ length (complete (files (call url sh).2))
       = (length (complete (files sh))
          + match (call url sh).1 with Ret (Some _) => 1 | _ => 0 end)%nat.
Proof.
  destruct (download_image_trace net folder person_name max_retries url sh)
    as (k & added & _ & _ & _ & Hfiles & Hpaths & _ & _ & Hr).
  exists added. split; [done|].
  rewrite Hfiles, complete_app, length_app.
  destruct ((call url sh).1) as [[saved|]|e].
  - destruct Hr as (partials & f & -> & Hpart & Hf & Hpath). split.
    + exists partials, f. repeat split; try done.
      destruct (Hpaths f) as [ext Hext].
      { apply elem_of_app. right. by apply list_elem_of_singleton. }
      rewrite <- Hpath, Hext. apply target_path_nonempty.
    + rewrite complete_app, (complete_partial _ Hpart). unfold complete. cbn.
      by rewrite Hf.
  - split; [done|]. by rewrite (complete_partial _ Hr).
  - destruct Hr as [_ Hsh]. rewrite Hsh in Hfiles.
    rewrite <- (app_nil_r (files sh)) in Hfiles at 1.
    apply app_inv_head in Hfiles as <-. split; [constructor|done].
Qed.

End CallTheorems.

(** * The budget of the search adapter *)

Section SearchBudget.

Variable ddgs_images : nat -> string -> Z -> Results.

Lemma scan_results_length (results : Results) (total_needed : Z)
    (seen urls out : list string) (seen' : pyset) :
  Z.of_nat (length urls) < Z.max 1 total_needed ->
  scan_results results total_needed seen urls = (Ret out, seen') ->
  Z.of_nat (length out) <= Z.max 1 total_needed.
Proof.
  revert seen urls.
  induction results as [|e|image rest IH]; intros seen urls Hlt Hscan;
    cbn [scan_results] in Hscan.
  - injection Hscan as <- <-. lia.
  - done.
  - destruct image as [url|].
    + destruct (Str.nonempty url && negb (set_in url seen)).
      * destruct (Z.geb_spec (Z.of_nat (length (urls ++ [url]))) total_needed)
          as [Hge|Hge].
        -- injection Hscan as <- <-. rewrite length_app. cbn. lia.
        -- apply IH in Hscan; [done|lia].
      * destruct (Z.geb_spec (Z.of_nat (length urls)) total_needed).
        -- injection Hscan as <- <-. lia.
        -- apply IH in Hscan; [done|lia].
    + destruct (Z.geb_spec (Z.of_nat (length urls)) total_needed).
      * injection Hscan as <- <-. lia.
      * apply IH in Hscan; [done|lia].
Qed.

(** An answer that breaks off has put all its new URLs into the set. *)
Lemma scan_results_raises (results : Results) (total_needed : Z)
    (seen urls : list string) (e : PyExn) (seen' : pyset) :
  scan_results results total_needed seen urls = (Raise e, seen') ->
  seen' = seen ++ fresh seen (rows results).
Proof.
  revert seen urls.
  induction results as [|e'|image rest IH]; intros seen urls Hscan;
    cbn [scan_results] in Hscan.
  - done.
  - injection Hscan as _ <-. cbn. by rewrite app_nil_r.
  - cbn [rows fresh]. destruct image as [url|].
    + destruct (Str.nonempty url && negb (set_in url seen)) eqn:Hnew.
      * destruct (Z.geb_spec (Z.of_nat (length (urls ++ [url]))) total_needed);
          [done|].
        apply IH in Hscan. rewrite Hscan.
        apply andb_prop in Hnew as [_ Hnew%negb_true_iff].
        rewrite (set_add_new _ _ (proj1 (set_in_false _ _) Hnew)).
        by rewrite <- app_assoc.
      * destruct (Z.geb_spec (Z.of_nat (length urls)) total_needed); [done|].
        by apply IH in Hscan.
    + destruct (Z.geb_spec (Z.of_nat (length urls)) total_needed); [done|].
      by apply IH in Hscan.
Qed.

Lemma fetch_attempts_budget (n : nat) (keyword : string) (total_needed : Z)
    (seen : pyset) (calls : nat)
    (r : exn (list string)) (seen' : pyset) (calls' : nat) :
  fetch_attempts ddgs_images n keyword total_needed seen calls = (r, seen', calls') ->
  exists urls, r = Ret urls
    /\ (calls <= calls' <= calls + n)%nat
    /\ Z.of_nat (length urls) <= Z.max 1 total_needed
    /\ (urls <> [] -> (calls < calls')%nat)
    /\ ((forall k, exists e, ddgs_images k keyword (total_needed * 5) = Fails e) ->
        urls = [] /\ seen' = seen /\ calls' = (calls + n)%nat).
Proof.
  revert seen calls. induction n as [|n IH]; intros seen calls H; cbn in H.
  { injection H as <- <- <-. exists []. cbn. repeat split; try lia; done. }
  destruct (scan_results (ddgs_images calls keyword (total_needed * 5))
              total_needed seen []) as [[out|e] seen1] eqn:Hscan.
  - injection H as <- <- <-. exists out.
    split; [done|]. split; [lia|]. split.
    { eapply scan_results_length; [|exact Hscan]. cbn. lia. }
    split; [intros _; lia|].
    intros Hfail. destruct (Hfail calls) as [e He]. by rewrite He in Hscan.
  - apply IH in H as (urls & -> & Hcalls & Hlen & Hpos & Hall). exists urls.
    split; [done|]. split; [lia|]. split; [done|]. split; [intros ?; lia|].
    intros Hfail. destruct (Hall Hfail) as (-> & -> & ->).
    destruct (Hfail calls) as [e' He]. rewrite He in Hscan. injection Hscan as _ <-.
    repeat split. lia.
Qed.

(** X4: the search adapter never raises, whatever it is asked for: it makes
    at most [retries] queries, none when [retries <= 0] and at least one
    when it returns a URL; it returns at most [max(1, total_needed)] URLs;
    when every query raises at once it returns the empty list after
    [retries] queries and leaves the set as it was. *)
Theorem search_budget (keyword : string) (total_needed : Z) (seen : pyset)
    (calls : nat) (retries : Z) :
  let out := fetch_image_urls ddgs_images keyword total_needed seen calls retries in
  exists urls,
    out.1.1 = Ret urls
    /\ (calls <= out.2 <= calls + Z.to_nat retries)%nat
    /\ Z.of_nat (length urls) <= Z.max 1 total_needed
    /\ (urls <> [] -> (calls < out.2)%nat)
    /\ (retries <= 0 -> out = (Ret [], seen, calls))
    /\ ((forall k, exists e, ddgs_images k keyword (total_needed * 5) = Fails e) ->
        out = (Ret [], seen, (calls + Z.to_nat retries)%nat)).
Proof.
  cbv zeta. unfold fetch_image_urls.
  destruct (fetch_attempts ddgs_images (Z.to_nat retries) keyword total_needed
              seen calls) as [[r seen'] calls'] eqn:H.
  pose proof (fetch_attempts_budget _ _ _ _ _ _ _ _ H)
    as (urls & -> & Hcalls & Hlen & Hpos & Hall).
  exists urls. cbn [fst snd]. split; [done|]. split; [done|]. split; [done|].
  split; [done|]. split.
  - intros Hret. replace (Z.to_nat retries) with O in H by lia. cbn in H.
    by injection H as <- <- <-.
  - intros Hfail. by destruct (Hall Hfail) as (-> & -> & ->).
Qed.

(** X5: the URLs of an answer that breaks off are lost: when the first query
    of a call raises after some rows, every new URL of those rows is in the
    set afterwards and none of them is returned, whatever the later queries
    answer. *)
Theorem failed_attempt_loses_urls (keyword : string) (total_needed : Z)
    (seen : pyset) (calls : nat) (retries : Z) (e : PyExn) :
  0 < retries ->
  (scan_results (ddgs_images calls keyword (total_needed * 5))
     total_needed seen []).1 = Raise e ->
  let out := fetch_image_urls ddgs_images keyword total_needed seen calls retries in
  exists urls,
    out.1.1 = Ret urls
    /\ (calls < out.2)%nat
    /\ forall u,
        u ∈ fresh seen (rows (ddgs_images calls keyword (total_needed * 5))) ->
        u ∈ out.1.2 /\ u ∉ urls.
Proof.
  intros Hret Hraise. cbv zeta. unfold fetch_image_urls.
  destruct (Z.to_nat retries) as [|n] eqn:Hn; [lia|]. cbn [fetch_attempts].
  destruct (scan_results (ddgs_images calls keyword (total_needed * 5))
              total_needed seen []) as [r1 seen1] eqn:Hscan.
  cbn [fst] in Hraise. subst r1.
  pose proof (scan_results_raises _ _ _ _ _ _ Hscan) as Hseen1.
  destruct (fetch_attempts ddgs_images n keyword total_needed seen1 (S calls))
    as [[r seen'] calls'] eqn:H.
  pose proof (fetch_attempts_budget _ _ _ _ _ _ _ _ H) as (urls & -> & Hcalls & _).
  apply fetch_attempts_spec in H as (urls' & [= <-] & Hmono & Hcase).
  exists urls. cbn [fst snd]. split; [done|]. split; [lia|].
  intros u Hu.
  assert (Hin : u ∈ seen1) by (rewrite Hseen1, elem_of_app; by right).
  split; [by apply Hmono|].
  destruct Hcase as [->|(k & seen_k & _ & Hsub & _ & [j ->] & _)];
    [apply not_elem_of_nil|].
  intros Hu'. apply elem_of_take in Hu' as (i & Hi%list_elem_of_lookup_2 & _).
  apply fresh_not_seen in Hi. by apply Hi, Hsub.
Qed.

End SearchBudget.

(** * What a round leaves behind *)

Lemma sum_list_with_insert {A : Type} (f : A -> nat) (l : list A) (i : nat) (x y : A) :
  l !! i = Some x ->
  (sum_list_with f (<[i := y]> l) + f x = sum_list_with f l + f y)%nat.
Proof.
  intros Hx.
  rewrite insert_take_drop by (by eapply lookup_lt_Some).
  rewrite <- (take_drop_middle l i x Hx) at 3.
  rewrite !sum_list_with_app. simpl. lia.
Qed.

Lemma successes_app (l1 l2 : list (exn (option string))) :
  successes (l1 ++ l2) = successes l1 + successes l2.
Proof. induction l1 as [|[r|e] l1 IH]; simpl; lia. Qed.

Lemma successes_le_length (l : list (exn (option string))) :
  successes l <= Z.of_nat (length l).
Proof. induction l as [|[r|e] l IH]; simpl; [lia| |lia]. destruct (truthy r); lia. Qed.

Section RoundEffects.

Variable net : Net.
Variables (folder person_name : string) (max_retries : nat).
Variable threads : nat.
Variable schedule : nat -> nat.

Local Abbreviation step := (worker_step net folder person_name max_retries).
Local Abbreviation adv := (advance net folder person_name max_retries).
Local Abbreviation pstep := (pool_step net folder person_name max_retries threads schedule).
Local Abbreviation prun := (run_pool net folder person_name max_retries threads schedule).
Local Abbreviation target := (target_path folder person_name).

(** The file that a step writes, if any. *)
Lemma worker_step_files (url : string) (pc pc' : Pc) (sh sh' : Shared) :
  step url pc sh = (pc', sh') ->
  exists added,
    files sh' = files sh ++ added
    /\ (forall f, f ∈ added -> exists ext, file_path f = target (file_hash f) ext)
    /\ (is_finished pc = false ->
        match pc' with
        | Finished (Ret (Some saved)) =>
            exists f, added = [f] /\ file_complete f = true /\ file_path f = saved
        | _ => all_partial added
        end).
Proof.
  intros H.
  assert (Hnone : forall pc0 sh0,
             (pc0, sh0) = (pc', sh') ->
             files sh0 = files sh ->
             (forall saved, pc0 <> Finished (Ret (Some saved))) ->
             exists added,
               files sh' = files sh ++ added
               /\ (forall f, f ∈ added -> exists ext, file_path f = target (file_hash f) ext)
               /\ (is_finished pc = false ->
                   match pc' with
                   | Finished (Ret (Some saved)) =>
                       exists f, added = [f] /\ file_complete f = true
                                 /\ file_path f = saved
                   | _ => all_partial added
                   end)).
  { intros pc0 sh0 [= <- <-] Hfiles Hpc. exists []. rewrite app_nil_r.
    split; [done|]. split; [intros f Hf; by apply elem_of_nil in Hf|].
    intros _. destruct pc0 as [| | | | |[[saved|]|e]]; try constructor.
    by destruct (Hpc saved). }
  assert (Hnext : forall attempt saved,
             next_attempt max_retries attempt <> Finished (Ret (Some saved))).
  { intros attempt saved. unfold next_attempt.
    by destruct (S attempt <? max_retries)%nat. }
  destruct pc as [|attempt|attempt response img_bytes|attempt response img_bytes| |r];
    cbn [worker_step] in H.
  - destruct (urlparse url) as [parsed|e]; [|by apply (Hnone _ _ H)].
    destruct (bool_decide _); apply (Hnone _ _ H); try done.
    intros saved. by destruct (0 <? max_retries)%nat.
  - destruct (session_get net _ url) as [response|e]; [|by apply (Hnone _ _ H)].
    destruct (acceptable response); [|by apply (Hnone _ _ H)].
    destruct (content response); by apply (Hnone _ _ H).
  - destruct (set_in _ _); by apply (Hnone _ _ H).
  - destruct (get_extension_from_url_or_content _ url response) as [ext|e];
      [|by apply (Hnone _ _ H)].
    unfold write_image in H.
    destruct (disk net (writes sh) _) as [| |written].
    + injection H as <- <-. eexists [_]. cbn. split; [done|]. split.
      * intros f Hf. apply list_elem_of_singleton in Hf as ->. by exists ext.
      * intros _. by eexists.
    + by apply (Hnone _ _ H).
    + injection H as <- <-. eexists [_]. cbn. split; [done|]. split.
      * intros f Hf. apply list_elem_of_singleton in Hf as ->. by exists ext.
      * intros _. pose proof (Hnext attempt) as Hn.
        destruct (next_attempt max_retries attempt) as [| | | | |[[saved|]|e]];
          try by repeat constructor.
        by destruct (Hn saved).
  - by apply (Hnone _ _ H).
  - injection H as <- <-. exists []. rewrite app_nil_r.
    split; [done|]. split; [intros f Hf; by apply elem_of_nil in Hf|]. done.
Qed.

Lemma worker_step_gets (url : string) (pc pc' : Pc) (sh sh' : Shared) :
  step url pc sh = (pc', sh') ->
  exists gets,
    requests sh' = requests sh ++ gets
    /\ (forall u, u ∈ gets -> u = url)
    /\ (length gets + gets_left max_retries pc' <= gets_left max_retries pc)%nat.
Proof.
  assert (Hnext : forall attempt,
             (gets_left max_retries (next_attempt max_retries attempt)
              <= max_retries - S attempt)%nat).
  { intros attempt. unfold next_attempt.
    destruct (Nat.ltb_spec (S attempt) max_retries); cbn; lia. }
  intros H.
  assert (Hsame : forall pc0 sh0,
             (pc0, sh0) = (pc', sh') -> requests sh0 = requests sh ->
             (gets_left max_retries pc0 <= gets_left max_retries pc)%nat ->
             exists gets,
               requests sh' = requests sh ++ gets
               /\ (forall u, u ∈ gets -> u = url)
               /\ (length gets + gets_left max_retries pc'
                   <= gets_left max_retries pc)%nat).
  { intros pc0 sh0 [= <- <-] Hreq Hle. exists []. rewrite app_nil_r.
    split; [done|]. split; [intros u Hu; by apply elem_of_nil in Hu|]. cbn. lia. }
  assert (Hget : forall pc0 sh0 attempt,
             (pc0, sh0) = (pc', sh') -> pc = AtGet attempt ->
             requests sh0 = requests sh ++ [url] ->
             (gets_left max_retries pc0 <= max_retries - S attempt)%nat ->
             exists gets,
               requests sh' = requests sh ++ gets
               /\ (forall u, u ∈ gets -> u = url)
               /\ (length gets + gets_left max_retries pc'
                   <= gets_left max_retries pc)%nat).
  { intros pc0 sh0 attempt [= <- <-] -> Hreq Hle. exists [url].
    split; [done|]. split; [intros u Hu; by apply list_elem_of_singleton in Hu|].
    cbn. lia. }
  destruct pc as [|attempt|attempt response img_bytes|attempt response img_bytes| |r];
    cbn [worker_step] in H.
  - destruct (urlparse url) as [parsed|e]; [|apply (Hsame _ _ H); [done|cbn; lia]].
    destruct (bool_decide _); apply (Hsame _ _ H); try done; [cbn; lia|].
    destruct (Nat.ltb_spec 0 max_retries); cbn; lia.
  - destruct (session_get net _ url) as [response|e];
      [|by apply (Hget _ _ attempt H)].
    destruct (acceptable response); [|by apply (Hget _ _ attempt H)].
    destruct (content response); apply (Hget _ _ attempt H); try done; cbn; lia.
  - destruct (set_in _ _); apply (Hsame _ _ H); try done; cbn; lia.
  - destruct (get_extension_from_url_or_content _ url response) as [ext|e];
      [|apply (Hsame _ _ H); [done|cbn; apply Hnext]].
    destruct (write_image _ _ _ _ _) as [[saved|] sh1] eqn:Hwrite;
      apply write_image_cases in Hwrite as (_ & _ & Hreq & _);
      apply (Hsame _ _ H); try done; cbn; first [lia | apply Hnext].
  - apply (Hsame _ _ H); [done | cbn; lia].
  - apply (Hsame _ _ H); [done | cbn; lia].
Qed.

Lemma round_inv_submit (image_urls : list string) (sh : Shared) :
  round_inv max_retries sh image_urls (mkPool (submit image_urls) sh []).
Proof.
  split; cbn [workers shared completed].
  - unfold submit. rewrite <- list_fmap_compose. by rewrite list_fmap_id.
  - unfold finished_count, submit. induction image_urls as [|u us IH]; [done|].
    cbn. by rewrite <- IH.
  - cbn. lia.
  - exists []. rewrite app_nil_r. split; [done|].
    split; [intros u Hu; by apply elem_of_nil in Hu|].
    unfold submit. induction image_urls as [|u us IH]; cbn; [lia|]. cbn in IH. lia.
Qed.

Lemma round_inv_advance (sh0 : Shared) (image_urls : list string) (p : Pool)
    (i : nat) (w : Worker) :
  round_inv max_retries sh0 image_urls p ->
  workers p !! i = Some w ->
  is_finished (w_pc w) = false ->
  round_inv max_retries sh0 image_urls (adv i w p).
Proof.
  intros [Hurls Hres Hsaved (gets & Hreq & Hgets & Hbudget)] Hw Hfin.
  unfold advance.
  destruct (step (w_url w) (w_pc w) (shared p)) as [pc' sh'] eqn:Hstep.
  pose proof (worker_step_files _ _ _ _ _ Hstep) as (added & Hfiles & _ & Hadded).
  specialize (Hadded Hfin).
  pose proof (worker_step_gets _ _ _ _ _ Hstep) as (new & Hreq' & Hnew & Hleft).
  pose proof (sum_list_with_insert
                (fun w => if is_finished (w_pc w) then 1%nat else 0%nat)
                _ i w (mkWorker (w_url w) pc') Hw) as Hcount.
  pose proof (sum_list_with_insert (fun w => gets_left max_retries (w_pc w))
                _ i w (mkWorker (w_url w) pc') Hw) as Hsum.
  cbn [w_pc] in Hcount, Hsum. rewrite Hfin in Hcount.
  split; cbn [workers shared completed].
  - rewrite list_fmap_insert. cbn [w_url]. rewrite list_insert_id; [done|].
    by rewrite list_lookup_fmap, Hw.
  - unfold finished_count in *.
    destruct pc' as [| | | | |r]; cbn [is_finished] in Hcount;
      rewrite ?length_app; cbn [length]; lia.
  - rewrite Hfiles, complete_app, length_app, Nat2Z.inj_add, Hsaved.
    destruct pc' as [| | | | |[[saved|]|e]];
      try (rewrite (complete_partial _ Hadded); cbn [length]; lia).
    + destruct Hadded as (f & -> & Hf & Hpath).
      rewrite successes_app. cbn [successes truthy].
      assert (Hsaved' : Str.nonempty saved = true).
      { pose proof (worker_step_files _ _ _ _ _ Hstep) as (added' & Hfiles' & Hp & _).
        rewrite Hfiles in Hfiles'. apply app_inv_head in Hfiles' as <-.
        destruct (Hp f) as [ext Hext]; [by apply list_elem_of_singleton|].
        rewrite Hpath in Hext. rewrite Hext.
        pose proof (target_path_nonempty folder person_name (file_hash f) ext) as Hne.
        by destruct (target (file_hash f) ext). }
      rewrite Hsaved'. unfold complete. cbn. rewrite Hf. cbn. lia.
    + rewrite (complete_partial _ Hadded), successes_app. cbn. lia.
    + rewrite (complete_partial _ Hadded), successes_app. cbn. lia.
  - exists (gets ++ new). rewrite Hreq', Hreq, <- app_assoc. split; [done|]. split.
    + intros u Hu. apply elem_of_app in Hu as [Hu|Hu]; [by apply Hgets|].
      apply Hnew in Hu as ->. rewrite <- Hurls.
      apply list_elem_of_fmap. exists w. split; [done|].
      by eapply list_elem_of_lookup_2.
    + rewrite length_app. lia.
Qed.

Lemma round_inv_run (sh0 : Shared) (image_urls : list string)
    (fuel n : nat) (p : Pool) :
  round_inv max_retries sh0 image_urls p ->
  round_inv max_retries sh0 image_urls (prun fuel n p).
Proof.
  revert n p. induction fuel as [|fuel IH]; intros n p Hinv; [done|].
  cbn [run_pool]. apply IH.
  destruct (pool_step_cases net folder person_name max_retries threads schedule n p)
    as [[_ ->]|(i & w & Hw & Hfin & ->)]; [done|].
  by apply round_inv_advance.
Qed.

End RoundEffects.

Section RoundTheorems.

Variable net : Net.
Variables (folder person_name : string) (max_retries : nat).
Variable threads : nat.
Variable schedule : nat -> nat.

Local Abbreviation step := (worker_step net folder person_name max_retries).
Local Abbreviation adv := (advance net folder person_name max_retries).
Local Abbreviation pstep := (pool_step net folder person_name max_retries threads schedule).
Local Abbreviation prun := (run_pool net folder person_name max_retries threads schedule).
Local Abbreviation round := (dispatch net folder person_name max_retries threads schedule).
Local Abbreviation target := (target_path folder person_name).

Lemma finished_count_le (ws : list Worker) : (finished_count ws <= length ws)%nat.
Proof.
  unfold finished_count. induction ws as [|w ws IH]; cbn; [lia|].
  destruct (is_finished (w_pc w)); lia.
Qed.

Lemma finished_count_all (ws : list Worker) :
  (forall w, w ∈ ws -> is_finished (w_pc w) = true) ->
  finished_count ws = length ws.
Proof.
  unfold finished_count. induction ws as [|w ws IH]; intros H; cbn; [done|].
  rewrite (H w) by apply list_elem_of_here. rewrite IH; [done|].
  intros w' Hw'. apply H. by apply list_elem_of_further.
Qed.


Lemma dispatch_inv (image_urls : list string) (sh : Shared) (fuel : nat) :
  round_inv max_retries sh image_urls
    (prun fuel 0 (mkPool (submit image_urls) sh [])).
Proof. apply round_inv_run, round_inv_submit. Qed.

(** X6: with at least one thread, the block that runs the pool ends with
    one result for every URL submitted, whatever the scheduler does. *)
Theorem one_result_per_url (image_urls : list string) (sh : Shared) :
  (0 < threads)%nat ->
  length (round image_urls sh).1 = length image_urls.
Proof.
  intros Hthreads. unfold dispatch. cbn [fst].
  pose proof (dispatch_inv image_urls sh (length image_urls * (3 * max_retries + 5))) as [Hurls Hres _ _].
  rewrite Hres, finished_count_all by (by apply dispatch_finishes).
  apply (f_equal length) in Hurls. by rewrite length_fmap in Hurls.
Qed.

(** X7: a round issues GETs for the URLs submitted only, and in all at
    most [max_retries] times their number, whatever the number of threads
    and the scheduler. *)
Theorem round_request_budget (image_urls : list string) (sh : Shared) :
  exists gets,
    requests (round image_urls sh).2 = requests sh ++ gets
    /\ (forall u, u ∈ gets -> u ∈ image_urls)
    /\ (length gets <= length image_urls * max_retries)%nat.
Proof.
  unfold dispatch. cbn [snd].
  pose proof (dispatch_inv image_urls sh (length image_urls * (3 * max_retries + 5)))
    as [_ _ _ (gets & Hreq & Hgets & Hlen)].
  exists gets. split; [done|]. split; [done|]. lia.
Qed.

(** What a round returns and what it has written. *)
Lemma dispatch_saved (image_urls : list string) (sh : Shared) :
  Z.of_nat (length (complete (files (round image_urls sh).2)))
  = Z.of_nat (length (complete (files sh))) + successes (round image_urls sh).1
  /\ successes (round image_urls sh).1 <= Z.of_nat (length image_urls).
Proof.
  unfold dispatch. cbn [fst snd].
  pose proof (dispatch_inv image_urls sh (length image_urls * (3 * max_retries + 5))) as [Hurls Hres Hsaved _].
  split; [done|].
  etransitivity; [apply successes_le_length|].
  rewrite Hres. pose proof (finished_count_le (workers
    (prun (length image_urls * (3 * max_retries + 5)) 0
       (mkPool (submit image_urls) sh [])))) as Hle.
  apply (f_equal length) in Hurls. rewrite length_fmap in Hurls. lia.
Qed.

End RoundTheorems.

(** * One thread *)

Section OneThread.

Variable net : Net.
Variables (folder person_name : string) (max_retries : nat).
Variable schedule : nat -> nat.

Local Abbreviation step := (worker_step net folder person_name max_retries).
Local Abbreviation run := (run_worker net folder person_name max_retries).
Local Abbreviation call := (download_image net folder person_name max_retries).
Local Abbreviation each := (download_each net folder person_name max_retries).
Local Abbreviation adv := (advance net folder person_name max_retries).
Local Abbreviation pstep := (pool_step net folder person_name max_retries 1 schedule).
Local Abbreviation prun := (run_pool net folder person_name max_retries 1 schedule).
Local Abbreviation left := (steps_left max_retries).

Lemma steps_left_finished (pc : Pc) : is_finished pc = true -> left pc = O.
Proof. by destruct pc. Qed.

(** With the steps it has left, a worker comes to its end, and more steps
    change nothing. *)
Lemma run_worker_ends (m fuel : nat) (url : string) (pc : Pc) (sh : Shared) :
  (left pc <= m)%nat -> (m <= fuel)%nat ->
  run fuel url pc sh = run m url pc sh
  /\ is_finished (run m url pc sh).1 = true.
Proof.
  revert fuel pc sh. induction m as [|m IH]; intros fuel pc sh Hleft Hfuel.
  - destruct pc as [| | | | |r]; cbn in Hleft; try lia.
    by rewrite run_worker_finished.
  - destruct (is_finished pc) eqn:Hfin.
    { destruct pc as [| | | | |r]; try done. by rewrite !run_worker_finished. }
    destruct fuel as [|fuel]; [lia|]. rewrite !run_worker_S.
    pose proof (worker_step_left net folder person_name max_retries url pc sh Hfin).
    apply IH; lia.
Qed.

Lemma unfinished_from_middle (k : nat) (finished : list Worker) (w : Worker)
    (todo : list Worker) :
  (forall v, v ∈ finished -> is_finished (w_pc v) = true) ->
  is_finished (w_pc w) = false ->
  exists rest,
    unfinished_from k (finished ++ w :: todo) = (k + length finished)%nat :: rest.
Proof.
  revert k. induction finished as [|v vs IH]; intros k Hdone Hw; cbn.
  - rewrite Hw, Nat.add_0_r. by eexists.
  - rewrite (Hdone v) by apply list_elem_of_here.
    destruct (IH (S k)) as [rest ->]; [|done|].
    + intros v' Hv'. apply Hdone. by apply list_elem_of_further.
    + exists rest. f_equal. lia.
Qed.

(** The one thread takes the first call that has not returned. *)
Lemma pool_step_single (n : nat) (finished : list Worker) (w : Worker)
    (todo : list Worker) (sh : Shared) (results : list (exn (option string))) :
  (forall v, v ∈ finished -> is_finished (w_pc v) = true) ->
  is_finished (w_pc w) = false ->
  pstep n (mkPool (finished ++ w :: todo) sh results)
  = (let '(pc, sh') := step (w_url w) (w_pc w) sh in
     mkPool (finished ++ mkWorker (w_url w) pc :: todo) sh'
       (match pc with
        | Finished result => results ++ [result]
        | _ => results
        end)).
Proof.
  intros Hdone Hw. unfold pool_step, runnable. cbn [workers].
  destruct (unfinished_from_middle 0 finished w todo Hdone Hw) as [rest ->].
  cbn [take length]. rewrite Nat.mod_1_r. cbn [lookup list_lookup].
  rewrite list_lookup_middle by done.
  unfold advance. cbn [workers shared completed].
  destruct (step (w_url w) (w_pc w) sh) as [pc sh'].
  by rewrite insert_app_r_alt, Nat.sub_diag by lia.
Qed.

Lemma run_pool_done (fuel n : nat) (p : Pool) :
  (forall w, w ∈ workers p -> is_finished (w_pc w) = true) ->
  prun fuel n p = p.
Proof.
  intros Hdone. revert n. induction fuel as [|fuel IH]; intros n; [done|].
  cbn [run_pool]. rewrite pool_step_done; [apply IH|].
  by apply total_left_zero.
Qed.

Lemma run_pool_single (fuel n : nat) (finished : list Worker) (url : string)
    (pc : Pc) (rest : list string) (sh : Shared)
    (results : list (exn (option string))) :
  (forall v, v ∈ finished -> is_finished (w_pc v) = true) ->
  is_finished pc = false ->
  (left pc + length rest * (3 * max_retries + 5) <= fuel)%nat ->
  let p := prun fuel n (mkPool (finished ++ mkWorker url pc :: submit rest) sh results) in
  let ended := run (left pc) url pc sh in
  exists r,
    ended.1 = Finished r
    /\ completed p = results ++ r :: (each rest ended.2).1
    /\ shared p = (each rest ended.2).2.
Proof.
  revert n finished url pc rest sh results.
  induction fuel as [|fuel IH]; intros n finished url pc rest sh results Hdone Hpc Hfuel.
  { destruct pc; cbn in Hfuel; try done; lia. }
  cbv zeta. cbn [run_pool].
  rewrite (pool_step_single n finished (mkWorker url pc)) by done. cbn [w_url w_pc].
  pose proof (worker_step_left net folder person_name max_retries url pc sh Hpc) as Hless.
  destruct (left pc) as [|m] eqn:Hm; [lia|]. rewrite run_worker_S.
  destruct (step url pc sh) as [pc' sh'] eqn:Hstep. cbn [fst snd] in *.
  destruct (is_finished pc') eqn:Hfin.
  - destruct pc' as [| | | | |r]; try done.
    rewrite run_worker_finished. cbn [fst snd]. exists r. split; [done|].
    destruct rest as [|url2 rest].
    + cbn [submit fmap list_fmap download_each].
      rewrite run_pool_done.
      * done.
      * cbn [workers]. intros w Hw. apply elem_of_app in Hw as [Hw|Hw]; [by apply Hdone|].
        by apply list_elem_of_singleton in Hw as ->.
    + change (submit (url2 :: rest)) with (mkWorker url2 AtStart :: submit rest).
      replace (finished ++ mkWorker url (Finished r)
                        :: mkWorker url2 AtStart :: submit rest)
        with ((finished ++ [mkWorker url (Finished r)])
                ++ mkWorker url2 AtStart :: submit rest)
        by (by rewrite <- app_assoc).
      destruct (IH (S n) (finished ++ [mkWorker url (Finished r)]) url2 AtStart rest
                  sh' (results ++ [r])) as (r2 & Hr2 & Hres & Hsh); try done.
      * intros w Hw. apply elem_of_app in Hw as [Hw|Hw]; [by apply Hdone|].
        by apply list_elem_of_singleton in Hw as ->.
      * cbn [steps_left length] in *. lia.
      * cbv zeta in Hres, Hsh. rewrite Hres, Hsh. cbn [download_each].
        cbn [steps_left] in Hr2 |- *.
        rewrite (run_worker_download_image net folder person_name max_retries
                   (3 * max_retries + 5) url2 sh') in * by lia.
        destruct (call url2 sh') as [r2' sh2]. cbn [fst snd] in *.
        injection Hr2 as ->.
        destruct (each rest sh2) as [rs sh3]. cbn [fst snd].
        by rewrite <- app_assoc.
  - destruct (IH (S n) finished url pc' rest sh' results) as (r & Hr & Hres & Hsh);
      try done; [lia|].
    cbv zeta in Hres, Hsh.
    destruct (run_worker_ends (left pc') m url pc' sh') as [Heq _]; [lia|lia|].
    rewrite Heq. exists r.
    assert (Hsame : match pc' with
                    | Finished result => results ++ [result]
                    | _ => results
                    end = results) by (by destruct pc').
    by rewrite Hsame.
Qed.

(** X8: with one thread, a round is the calls one after the other, in the
    order in which the URLs were submitted: it returns the results and
    leaves the shared state that [download_image], called on each URL in
    turn, returns and leaves, whatever the scheduler. *)
Theorem one_thread_in_turn (image_urls : list string) (sh : Shared) :
  dispatch net folder person_name max_retries 1 schedule image_urls sh
  = each image_urls sh.
Proof.
  unfold dispatch. destruct image_urls as [|url rest]; [done|].
  change (submit (url :: rest)) with ([] ++ mkWorker url AtStart :: submit rest).
  destruct (run_pool_single (length (url :: rest) * (3 * max_retries + 5)) 0 []
              url AtStart rest sh []) as (r & Hr & Hres & Hsh); try done.
  { intros v Hv. by apply elem_of_nil in Hv. }
  cbv zeta in Hres, Hsh. rewrite Hres, Hsh. cbn [download_each steps_left] in *.
  rewrite (run_worker_download_image net folder person_name max_retries
             (3 * max_retries + 5) url sh) in * by lia.
  destruct (call url sh) as [r' sh1]. cbn [fst snd] in *. injection Hr as ->.
  by destruct (each rest sh1) as [rs sh2].
Qed.

End OneThread.

(** * What a run keeps *)

Section RunInvariant.

Variable search : string -> Z -> pyset -> nat -> exn (list string) * pyset * nat.
Variable fetch_all :
  nat -> nat -> list string -> string -> string -> Shared ->
  list (exn (option string)) * Shared.
Variable set_order : list string -> list string.
Variable search_terms : list string.
Variable save_name : string.
Variable num_images : Z.
Variable save_folder : string.
Variables threads batch_size : Z.

Local Abbreviation body :=
  (pass search fetch_all set_order search_terms save_name num_images save_folder
     threads batch_size).
Local Abbreviation loop :=
  (download_loop search fetch_all set_order search_terms save_name num_images
     save_folder threads batch_size).

(** What every pass keeps holds when the loop ends, however it ends. *)
Lemma loop_invariant (I : Run -> Prop) (fuel : nat) (st : Run) :
  (forall st, I st -> downloaded_count st < num_images -> I (after (body st))) ->
  I st -> I (final (loop fuel st)).
Proof.
  intros Hpass. revert st. induction fuel as [|fuel IH]; intros st Hst;
    cbn [download_loop]; destruct (Z.ltb_spec (downloaded_count st) num_images);
    try done.
  specialize (Hpass st Hst ltac:(done)).
  destruct (body st) as [st'|st'|e st']; cbn [after] in Hpass; [|done|done].
  by apply IH.
Qed.

End RunInvariant.

Section RealRun.

Variable env : Env.
Variable search_terms : list string.
Variable save_name : string.
Variable num_images : Z.
Variable save_folder : string.
Variables threads batch_size : Z.

Local Abbreviation body :=
  (pass (search_adapter env) (worker_pool env) (set_iteration env) search_terms
     save_name num_images save_folder threads batch_size).
Local Abbreviation loop :=
  (download_loop (search_adapter env) (worker_pool env) (set_iteration env)
     search_terms save_name num_images save_folder threads batch_size).
Local Abbreviation dir := (folder save_name save_folder).

(** The two ways a pass of the source changes the state: it leaves the
    shared state and the count alone, or it dispatches a round for at most
    as many URLs as are still wanted. *)
Lemma real_pass_keeps (I : Run -> Prop) :
  (forall st seen' calls' batch' term',
      I st ->
      I (mkRun seen' calls' (run_shared st) (downloaded_count st) batch' term')) ->
  (forall st image_urls seen' calls',
      I st -> downloaded_count st < num_images ->
      Z.of_nat (length image_urls) <= num_images - downloaded_count st ->
      let fetched :=
        dispatch (network env) dir save_name default_max_retries (Z.to_nat threads)
          (schedule env (Z.to_nat (batch_number st))) image_urls (run_shared st) in
      I (mkRun (truncate (set_iteration env) seen') calls'
           (truncate_hashes (set_iteration env) fetched.2)
           (collect fetched.1 num_images (downloaded_count st))
           (batch_number st + 1) (term_index st + 1))) ->
  forall st, I st -> downloaded_count st < num_images -> I (after (body st)).
Proof.
  intros Hsame Hround st Hst Hlt.
  destruct search_terms as [|term terms] eqn:Hterms.
  { unfold pass. cbn. by destruct st. }
  rewrite <- Hterms in *.
  assert (Hne : search_terms <> []) by (by rewrite Hterms).
  destruct (keyword_exists search_terms (term_index st) Hne) as [keyword Hkw].
  destruct (search_adapter env keyword
              (Z.min batch_size (num_images - downloaded_count st))
              (seen_urls st) (ddgs_calls st)) as [[answer seen'] calls'] eqn:Hsearch.
  rewrite (pass_unfold _ _ _ _ _ _ _ _ _ st keyword answer seen' calls' Hne Hkw Hsearch).
  unfold search_adapter, fetch_image_urls in Hsearch.
  pose proof (fetch_attempts_budget _ _ _ _ _ _ _ _ _ Hsearch)
    as (urls & -> & _ & Hlen & _).
  destruct urls as [|url urls].
  { cbn zeta. destruct (_ >=? _); cbn [after]; by apply Hsame. }
  destruct (Z.leb_spec threads 0); cbn [after]; [by apply Hsame|].
  unfold worker_pool. apply (Hround st (url :: urls) seen' calls' Hst Hlt). lia.
Qed.

(** X9: the counter of a run is the number of files it has written to
    their end, at every point where the run can stand (returned, crashed or
    still looping), for every backend, network, disk, scheduler and
    arguments; it is never negative and never above the target. *)
Theorem count_is_files_written (fuel : nat) :
  let st := final (download_images env search_terms save_name num_images
                     save_folder threads batch_size fuel) in
  downloaded_count st = Z.of_nat (length (complete (files (run_shared st))))
  /\ 0 <= downloaded_count st <= Z.max 0 num_images.
Proof.
  cbv zeta. unfold download_images, download_images_with.
  apply (loop_invariant _ _ _ _ _ _ _ _ _
           (fun st => downloaded_count st
                      = Z.of_nat (length (complete (files (run_shared st))))
                      /\ 0 <= downloaded_count st <= Z.max 0 num_images));
    [|cbn; lia].
  apply real_pass_keeps.
  - intros st seen' calls' batch' term' Hst. exact Hst.
  - intros st image_urls seen' calls' [Hcount Hrange] Hlt Hlen fetched.
    cbn [downloaded_count run_shared truncate_hashes files].
    destruct (dispatch_saved (network env) dir save_name default_max_retries
                (Z.to_nat threads) (schedule env (Z.to_nat (batch_number st)))
                image_urls (run_shared st)) as [Hsaved Hle].
    fold fetched in Hsaved, Hle.
    pose proof (successes_nonneg fetched.1).
    rewrite (collect_min _ _ _ Hlt), Hsaved. lia.
Qed.


End RealRun.

(** * When a run gives up *)

Section EarlyStop.

Variable search : string -> Z -> pyset -> nat -> exn (list string) * pyset * nat.
Variable fetch_all :
  nat -> nat -> list string -> string -> string -> Shared ->
  list (exn (option string)) * Shared.
Variable set_order : list string -> list string.
Variable search_terms : list string.
Variable save_name : string.
Variable num_images : Z.
Variable save_folder : string.
Variables threads batch_size : Z.

Local Abbreviation body :=
  (pass search fetch_all set_order search_terms save_name num_images save_folder
     threads batch_size).
Local Abbreviation loop :=
  (download_loop search fetch_all set_order search_terms save_name num_images
     save_folder threads batch_size).
Local Abbreviation len := (Z.of_nat (length search_terms)).

(** A pass that goes on or breaks has moved to the next keyword; one that
    breaks has found nothing and has used up the keywords. *)
Lemma pass_term_index (st : Run) :
  match body st with
  | Continue st' =>
      term_index st' = term_index st + 1
      /\ batch_number st <= batch_number st' <= batch_number st + 1
  | Break st' =>
      term_index st' = term_index st + 1 /\ len <= term_index st'
      /\ batch_number st' = batch_number st
      /\ downloaded_count st' = downloaded_count st
  | Escapes _ st' => term_index st' = term_index st
  end.
Proof.
  destruct search_terms as [|term terms] eqn:Hterms; [done|].
  rewrite <- Hterms in *.
  assert (Hne : search_terms <> []) by (by rewrite Hterms).
  destruct (keyword_exists search_terms (term_index st) Hne) as [keyword Hkw].
  destruct (search keyword (Z.min batch_size (num_images - downloaded_count st))
              (seen_urls st) (ddgs_calls st)) as [[answer seen'] calls'] eqn:Hsearch.
  rewrite (pass_unfold _ _ _ _ _ _ _ _ _ st keyword answer seen' calls' Hne Hkw Hsearch).
  destruct answer as [[|url urls]|e]; [|by destruct (threads <=? 0); cbn; try lia|done].
  cbn zeta. destruct (Z.geb_spec (term_index st + 1) len); cbn; lia.
Qed.

Lemma loop_term_index (fuel : nat) (st st' : Run) :
  loop fuel st = Done st' ->
  downloaded_count st' < num_images ->
  len <= term_index st' /\ term_index st < term_index st'.
Proof.
  revert st. induction fuel as [|fuel IH]; intros st; cbn [download_loop];
    destruct (Z.ltb_spec (downloaded_count st) num_images); try done.
  - intros [= <-] ?. lia.
  - pose proof (pass_term_index st) as Hpass.
    destruct (body st) as [st1|st1|e st1]; [| |done].
    + intros Hloop Hlt. destruct (IH _ Hloop Hlt). lia.
    + intros [= <-] _. lia.
  - intros [= <-] ?. lia.
Qed.

(** The passes of a run that returns short of its target are as many as
    [term_index] has grown by: with that many passes the run returns, and
    with fewer it is still going. *)
Lemma loop_passes (fuel : nat) (st st' : Run) :
  loop fuel st = Done st' ->
  downloaded_count st' < num_images ->
  let passes := Z.to_nat (term_index st' - term_index st) in
  (passes <= fuel)%nat
  /\ loop passes st = Done st'
  /\ forall fuel', (fuel' < passes)%nat -> exists st'', loop fuel' st = Running st''.
Proof.
  revert st. induction fuel as [|fuel IH]; intros st Hloop Hshort.
  { cbn [download_loop] in Hloop.
    destruct (Z.ltb_spec (downloaded_count st) num_images); [done|].
    injection Hloop as <-. lia. }
  pose proof (loop_term_index _ _ _ Hloop Hshort) as [_ Hgrows].
  cbn [download_loop] in Hloop.
  destruct (Z.ltb_spec (downloaded_count st) num_images) as [Hlt|];
    [|injection Hloop as <-; lia].
  pose proof (pass_term_index st) as Hpass.
  assert (Hfirst : loop 0 st = Running st).
  { cbn [download_loop]. by destruct (Z.ltb_spec (downloaded_count st) num_images); [|lia]. }
  destruct (body st) as [st1|st1|e st1] eqn:Hbody; [| |done].
  - destruct Hpass as [Hindex _].
    destruct (IH st1 Hloop Hshort) as (Hle & Hdone & Hgoing). cbn zeta.
    replace (Z.to_nat (term_index st' - term_index st))
      with (S (Z.to_nat (term_index st' - term_index st1))).
    2: { pose proof (loop_term_index _ _ _ Hloop Hshort). lia. }
    split; [lia|]. split.
    + cbn [download_loop].
      destruct (Z.ltb_spec (downloaded_count st) num_images); [|lia].
      by rewrite Hbody.
    + intros [|fuel'] Hfuel'; [by eexists|].
      destruct (Hgoing fuel' ltac:(lia)) as [st'' Hst''].
      exists st''. cbn [download_loop].
      destruct (Z.ltb_spec (downloaded_count st) num_images); [|lia].
      by rewrite Hbody.
  - injection Hloop as <-. destruct Hpass as (Hindex & _). cbn zeta.
    replace (Z.to_nat (term_index st1 - term_index st)) with 1%nat by lia.
    split; [lia|]. split.
    + cbn [download_loop].
      destruct (Z.ltb_spec (downloaded_count st) num_images); [|lia].
      by rewrite Hbody.
    + intros fuel' Hfuel'. assert (fuel' = O) as -> by lia. by eexists.
Qed.

(** X11: how a run gives up.  Every pass that does not raise moves to the
    next keyword, so [term_index] counts the passes: a run that returns
    short of the target has made as many passes as [term_index] has grown
    by, and [term_index] is [len(search_terms)] or more by then, so that a
    call of [download_images] that returns short has made at least
    [len(search_terms)] passes.  From pass number [len(search_terms)] on,
    one keyword without new results ends the run, whatever the other
    keywords have given or could still give; before that, the run moves on
    to the next keyword. *)
Theorem early_stop_rule :
  (forall st : Run,
      match body st with
      | Continue st' | Break st' => term_index st' = term_index st + 1
      | Escapes _ st' => term_index st' = term_index st
      end)
  /\ (forall (fuel : nat) (st st' : Run),
         loop fuel st = Done st' ->
         downloaded_count st' < num_images ->
         let passes := Z.to_nat (term_index st' - term_index st) in
         len <= term_index st' /\ term_index st < term_index st'
         /\ (passes <= fuel)%nat
         /\ loop passes st = Done st'
         /\ forall fuel', (fuel' < passes)%nat ->
                          exists st'', loop fuel' st = Running st'')
  /\ (forall (fuel : nat) (st' : Run),
         download_images_with search fetch_all set_order search_terms save_name
           num_images save_folder threads batch_size fuel = Done st' ->
         downloaded_count st' < num_images ->
         (length search_terms <= fuel)%nat
         /\ forall fuel', (fuel' < length search_terms)%nat ->
              exists st'',
                download_images_with search fetch_all set_order search_terms
                  save_name num_images save_folder threads batch_size fuel'
                = Running st'')
  /\ (forall (fuel : nat) (st : Run) (keyword : string) (seen' : pyset) (calls' : nat),
         downloaded_count st < num_images ->
         search_terms !! Z.to_nat (term_index st mod len) = Some keyword ->
         search keyword (Z.min batch_size (num_images - downloaded_count st))
           (seen_urls st) (ddgs_calls st) = (Ret [], seen', calls') ->
         let st' := mkRun seen' calls' (run_shared st) (downloaded_count st)
                      (batch_number st) (term_index st + 1) in
         loop (S fuel) st
         = if len <=? term_index st + 1 then Done st' else loop fuel st').
Proof.
  split; [|split; [|split]].
  - intros st. pose proof (pass_term_index st) as Hpass.
    destruct (body st); tauto.
  - intros fuel st st' Hloop Hshort passes.
    destruct (loop_term_index _ _ _ Hloop Hshort) as [Hlen Hgrows].
    destruct (loop_passes _ _ _ Hloop Hshort) as (Hle & Hdone & Hgoing).
    by repeat split.
  - unfold download_images_with. intros fuel st' Hloop Hshort.
    destruct (loop_term_index _ _ _ Hloop Hshort) as [Hlen _].
    destruct (loop_passes _ _ _ Hloop Hshort) as (Hle & _ & Hgoing).
    cbn zeta in Hle, Hgoing. change (term_index initial_run) with 0 in Hle, Hgoing.
    split; [lia|]. intros fuel' Hfuel'. apply Hgoing. lia.
  - intros fuel st keyword seen' calls' Hlt Hkw Hsearch st'.
    assert (Hne : search_terms <> []).
    { intros E. rewrite E in Hkw. by rewrite lookup_nil in Hkw. }
    cbn [download_loop]. destruct (Z.ltb_spec (downloaded_count st) num_images); [|lia].
    rewrite (pass_unfold _ _ _ _ _ _ _ _ _ st keyword _ seen' calls' Hne Hkw Hsearch).
    cbn zeta. fold st'.
    destruct (Z.geb_spec (term_index st + 1) len), (Z.leb_spec len (term_index st + 1));
      done || lia.
Qed.

End EarlyStop.

Section DeadBackend.

Variable env : Env.
Variable search_terms : list string.
Variable save_name : string.
Variable num_images : Z.
Variable save_folder : string.
Variables threads batch_size : Z.

Local Abbreviation loop :=
  (download_loop (search_adapter env) (worker_pool env) (set_iteration env)
     search_terms save_name num_images save_folder threads batch_size).
Local Abbreviation len := (Z.of_nat (length search_terms)).

Hypothesis backend_down :
  forall n keyword max_results, exists e, ddgs_images env n keyword max_results = Fails e.

Lemma search_adapter_down (keyword : string) (total_needed : Z) (seen : pyset)
    (calls : nat) :
  search_adapter env keyword total_needed seen calls = (Ret [], seen, (calls + 3)%nat).
Proof.
  unfold search_adapter, fetch_image_urls.
  destruct (fetch_attempts (ddgs_images env) (Z.to_nat default_retries) keyword
              total_needed seen calls) as [[r seen'] calls'] eqn:H.
  apply fetch_attempts_budget in H as (urls & -> & _ & _ & _ & Hall).
  destruct Hall as (-> & -> & ->); [|done].
  intros k. apply backend_down.
Qed.

Lemma loop_backend_down (k : nat) (fuel : nat) (st : Run) :
  downloaded_count st < num_images ->
  0 <= term_index st ->
  term_index st + Z.of_nat (S k) = len ->
  (S k <= fuel)%nat ->
  loop fuel st
  = Done (mkRun (seen_urls st) (ddgs_calls st + 3 * S k) (run_shared st)
            (downloaded_count st) (batch_number st) len).
Proof.
  revert fuel st. induction k as [|k IH]; intros fuel st Hlt Hpos Hidx Hfuel;
    (destruct fuel as [|fuel]; [lia|]).
  all: assert (Hne : search_terms <> [])
         by (intros E; rewrite E in Hidx; cbn in Hidx; lia).
  all: destruct (keyword_exists search_terms (term_index st) Hne) as [keyword Hkw].
  all: cbn [download_loop];
       destruct (Z.ltb_spec (downloaded_count st) num_images); [|lia].
  all: rewrite (pass_unfold _ _ _ _ _ _ _ _ _ st keyword _ _ _ Hne Hkw
                  (search_adapter_down _ _ _ _)); cbn zeta.
  - destruct (Z.geb_spec (term_index st + 1) len); [|lia].
    do 2 f_equal; lia.
  - destruct (Z.geb_spec (term_index st + 1) len); [lia|].
    rewrite IH; cbn [downloaded_count term_index seen_urls ddgs_calls run_shared
                       batch_number]; try lia.
    do 2 f_equal. lia.
Qed.

(** X12: with a search backend that is down (every query raises), a run for
    at least one image makes three queries for each search term, in turn,
    and returns: [3 * len(search_terms)] queries, no request, no file,
    nothing downloaded. *)
Theorem backend_down_run (fuel : nat) :
  search_terms <> [] -> 1 <= num_images -> (length search_terms <= fuel)%nat ->
  download_images env search_terms save_name num_images save_folder threads
    batch_size fuel
  = Done (mkRun [] (3 * length search_terms) initial_shared 0 0 len).
Proof.
  intros Hne Hnum Hfuel. unfold download_images, download_images_with.
  destruct search_terms as [|term terms] eqn:Hterms; [done|]. rewrite <- Hterms in *.
  rewrite (loop_backend_down (length terms) fuel initial_run); cbn; try lia.
  - rewrite Hterms. cbn [length]. do 2 f_equal.
  - rewrite Hterms. cbn [length]. lia.
  - rewrite Hterms in Hfuel. cbn [length] in Hfuel. lia.
Qed.

End DeadBackend.

(** * A run without an end *)

Section NoEnd.

Variable search : string -> Z -> pyset -> nat -> exn (list string) * pyset * nat.
Variable fetch_all :
  nat -> nat -> list string -> string -> string -> Shared ->
  list (exn (option string)) * Shared.
Variable set_order : list string -> list string.
Variable search_terms : list string.
Variable save_name : string.
Variable num_images : Z.
Variable save_folder : string.
Variables threads batch_size : Z.

Local Abbreviation loop :=
  (download_loop search fetch_all set_order search_terms save_name num_images
     save_folder threads batch_size).

Hypothesis terms : search_terms <> [].
Hypothesis pool : 1 <= threads.
Hypothesis batch : 1 <= batch_size.
Hypothesis search_finds :
  forall keyword total_needed seen calls,
    1 <= total_needed ->
    exists url urls, (search keyword total_needed seen calls).1.1 = Ret (url :: urls).
Hypothesis fetch_fails :
  forall round workers image_urls dir name sh,
    successes (fetch_all round workers image_urls dir name sh).1 = 0.

Lemma loop_no_end (fuel : nat) (st : Run) :
  downloaded_count st < num_images ->
  exists st',
    loop fuel st = Running st'
    /\ downloaded_count st' = downloaded_count st
    /\ batch_number st' = batch_number st + Z.of_nat fuel
    /\ term_index st' = term_index st + Z.of_nat fuel.
Proof.
  revert st. induction fuel as [|fuel IH]; intros st Hlt; cbn [download_loop];
    destruct (Z.ltb_spec (downloaded_count st) num_images); try lia.
  { exists st. repeat split; lia. }
  destruct (keyword_exists search_terms (term_index st) terms) as [keyword Hkw].
  destruct (search keyword (Z.min batch_size (num_images - downloaded_count st))
              (seen_urls st) (ddgs_calls st)) as [[answer seen'] calls'] eqn:Hsearch.
  rewrite (pass_unfold _ _ _ _ _ _ _ _ _ st keyword answer seen' calls' terms Hkw Hsearch).
  destruct (search_finds keyword (Z.min batch_size (num_images - downloaded_count st))
              (seen_urls st) (ddgs_calls st) ltac:(lia)) as (url & urls & Hfound).
  rewrite Hsearch in Hfound. cbn [fst] in Hfound. subst answer.
  destruct (Z.leb_spec threads 0); [lia|]. cbn zeta.
  rewrite (collect_min _ _ _ Hlt), fetch_fails.
  destruct (IH (mkRun (truncate set_order seen') calls'
                  (truncate_hashes set_order
                     (fetch_all (Z.to_nat (batch_number st)) (Z.to_nat threads)
                        (url :: urls) (folder save_name save_folder) save_name
                        (run_shared st)).2)
                  (Z.min num_images (downloaded_count st + 0))
                  (batch_number st + 1) (term_index st + 1)))
    as (st' & Hloop & Hcount & Hbatch & Hidx); [cbn; lia|].
  exists st'. split; [exact Hloop|]. cbn in Hcount, Hbatch, Hidx. lia.
Qed.

End NoEnd.

(** X13: a run has no bound on its rounds.  As long as the search adapter
    finds URLs (asked for at least one) and no call of a round returns a
    path, the run goes on: after any number of passes it is still looping,
    with nothing downloaded and as many rounds dispatched as passes
    made. *)
Theorem no_progress_no_end
    (search : string -> Z -> pyset -> nat -> exn (list string) * pyset * nat)
    (fetch_all : nat -> nat -> list string -> string -> string -> Shared ->
                 list (exn (option string)) * Shared)
    (set_order : list string -> list string)
    (search_terms : list string) (save_name : string) (num_images : Z)
    (save_folder : string) (threads batch_size : Z) (fuel : nat) :
  search_terms <> [] -> 1 <= num_images -> 1 <= threads -> 1 <= batch_size ->
  (forall keyword total_needed seen calls,
      1 <= total_needed ->
      exists url urls, (search keyword total_needed seen calls).1.1 = Ret (url :: urls)) ->
  (forall round workers image_urls dir name sh,
      successes (fetch_all round workers image_urls dir name sh).1 = 0) ->
  exists st,
    download_images_with search fetch_all set_order search_terms save_name
      num_images save_folder threads batch_size fuel = Running st
    /\ downloaded_count st = 0
    /\ batch_number st = Z.of_nat fuel
    /\ term_index st = Z.of_nat fuel.
Proof.
  intros Hterms Hnum Hthreads Hbatch Hsearch Hfetch.
  destruct (loop_no_end search fetch_all set_order search_terms save_name num_images
              save_folder threads batch_size Hterms Hthreads Hbatch Hsearch Hfetch
              fuel initial_run) as (st & Hloop & Hcount & Hrounds & Hidx); [cbn; lia|].
  exists st. split; [exact Hloop|]. cbn in Hcount, Hrounds, Hidx. lia.
Qed.

(** * What memory control forgets *)

Lemma filter_all {A : Type} (P : A -> Prop) `{!forall x, Decision (P x)} (l : list A) :
  Forall P l -> filter P l = l.
Proof.
  induction 1 as [|x l Hx _ IH]; [done|]. by rewrite filter_cons_True, IH.
Qed.

Lemma filter_none {A : Type} (P : A -> Prop) `{!forall x, Decision (P x)} (l : list A) :
  Forall (fun x => ~ P x) l -> filter P l = [].
Proof.
  induction 1 as [|x l Hx _ IH]; [done|]. by rewrite filter_cons_False.
Qed.

Section Forgetting.

Variable set_order : list string -> list string.
Hypothesis set_order_members : forall s, set_order s ≡ₚ s.

(** The members that the cut drops are as many as the set had above
    25,000. *)
Lemma truncate_forgotten (s : pyset) :
  NoDup s -> 50000 < Z.of_nat (length s) ->
  Z.of_nat (length (filter (fun x => x ∉ truncate set_order s) s))
  = Z.of_nat (length s) - 25000.
Proof.
  intros Hnodup Hlarge.
  rewrite (truncate_large set_order set_order_members s Hlarge).
  set (m := Z.to_nat (Z.of_nat (length s) - 25000)).
  pose proof (set_order_members s) as Hperm.
  assert (Hlen : length (set_order s) = length s) by (by apply Permutation_length).
  rewrite <- (filter_Permutation _ _ _ Hperm).
  assert (Hnd : NoDup (set_order s)) by (by rewrite Hperm).
  rewrite <- (take_drop m (set_order s)) in Hnd.
  apply NoDup_app in Hnd as (_ & Hdisj & _).
  set (kept := drop m (set_order s)) in *.
  rewrite <- (take_drop m (set_order s)). fold kept.
  rewrite filter_app, filter_all, filter_none.
  - rewrite app_nil_r, length_take. lia.
  - apply Forall_forall. intros x Hx Hnot. by apply Hnot.
  - apply Forall_forall. intros x Hx. by apply Hdisj.
Qed.

End Forgetting.

(** A file that is written replaces what the disk held at its path. *)
Lemma on_disk_snoc (written : list File) (g : File) :
  on_disk (written ++ [g])
  = filter (fun f => file_path f <> file_path g) (on_disk written) ++ [g].
Proof.
  induction written as [|f written IH]; [done|].
  cbn [app on_disk]. rewrite fmap_app. cbn [fmap list_fmap].
  destruct (decide (file_path f ∈ file_path <$> written)) as [Hin|Hout].
  - rewrite !bool_decide_eq_true_2; [done|done|]. rewrite elem_of_app. by left.
  - rewrite (bool_decide_eq_false_2 (file_path f ∈ file_path <$> written)) by done.
    destruct (decide (file_path f = file_path g)) as [Hsame|Hother].
    + rewrite bool_decide_eq_true_2.
      2: { rewrite elem_of_app, list_elem_of_singleton. by right. }
      by rewrite filter_cons_False by (by intros H; apply H).
    + rewrite bool_decide_eq_false_2.
      2: { rewrite elem_of_app, list_elem_of_singleton. by intros [|]. }
      by rewrite filter_cons_True, IH by done.
Qed.

Section Refetch.

Variable net : Net.
Variables (folder person_name : string) (max_retries : nat).

(** A payload whose digest the set does not hold is written at the path
    that its digest and its extension make. *)
Lemma download_image_writes (url : string) (parsed : ParseResult)
    (sh : Shared) (response : Response) (img_bytes : bytes) :
  (0 < max_retries)%nat ->
  urlparse url = Ret parsed ->
  netloc parsed ∉ bad_domains sh ->
  session_get net (length (requests sh)) url = Ret response ->
  acceptable response = true ->
  content response = Ret img_bytes ->
  md5_hexdigest net img_bytes ∉ seen_hashes sh ->
  (forall file_path, disk net (writes sh) file_path = WriteOk) ->
  exists ext,
    get_extension_from_url_or_content (guess_extension net) url response = Ret ext
    /\ download_image net folder person_name max_retries url sh
       = (Ret (Some (target_path folder person_name
                       (md5_hexdigest net img_bytes) ext)),
          add_file (mkFile (target_path folder person_name
                              (md5_hexdigest net img_bytes) ext)
                      (md5_hexdigest net img_bytes) img_bytes true)
            (log_write (add_hash (md5_hexdigest net img_bytes)
                          (log_request url sh)))).
Proof.
  intros Hmax Hparse Hbad Hget Hacc Hcontent Hnew Hdisk.
  unfold download_image. rewrite Hparse, bool_decide_eq_false_2 by done.
  destruct (Nat.lt_exists_pred 0 max_retries Hmax) as (n & -> & _).
  rewrite download_attempts_S, Hget, Hacc, Hcontent. cbn zeta.
  rewrite (proj2 (set_in_false _ _)) by done.
  destruct (get_extension_returns (guess_extension net) url parsed response Hparse)
    as [ext Hext].
  exists ext. split; [done|]. rewrite Hext.
  unfold write_image. cbn [writes add_hash log_request]. by rewrite Hdisk.
Qed.

End Refetch.

(** X14: what the cut of a set of more than 50,000 entries forgets, and
    what that undoes.  As many members as the set had above 25,000 are no
    longer in it.  A URL among them that the backend offers again, first in
    an answer that does not break off, is returned again by the search
    adapter.  A digest among them no longer stops a duplicate: a call that
    receives a payload which was written under that digest writes it
    again, at the path that the digest and the extension make, and
    returns the path.  The disk then holds the new file at that path and
    no other file there: the earlier file is overwritten when its path is
    the same, and stays beside the new one, two files with one digest,
    when it is not. *)
Theorem truncation_forgets (set_order : list string -> list string) :
  (forall s, set_order s ≡ₚ s) ->
  (forall s : pyset,
      NoDup s -> 50000 < Z.of_nat (length s) ->
      Z.of_nat (length (filter (fun x => x ∉ truncate set_order s) s))
      = Z.of_nat (length s) - 25000)
  /\ (forall (ddgs_images : nat -> string -> Z -> Results) (keyword : string)
             (total_needed : Z) (s : pyset) (u : string) (rest : Results)
             (calls : nat) (retries : Z),
         u ∈ s -> u ∉ truncate set_order s -> u <> "" -> 0 < retries ->
         ddgs_images calls keyword (total_needed * 5) = Row (Some u) rest ->
         never_fails rest ->
         exists urls,
           (fetch_image_urls ddgs_images keyword total_needed
              (truncate set_order s) calls retries).1.1 = Ret (u :: urls))
  /\ (forall (net : Net) (folder person_name : string) (max_retries : nat)
             (url : string) (parsed : ParseResult) (sh : Shared)
             (response : Response) (img_bytes : bytes) (f : File),
         (0 < max_retries)%nat ->
         urlparse url = Ret parsed -> netloc parsed ∉ bad_domains sh ->
         session_get net (length (requests sh)) url = Ret response ->
         acceptable response = true -> content response = Ret img_bytes ->
         (forall target, disk net (writes sh) target = WriteOk) ->
         f ∈ files sh -> file_hash f = md5_hexdigest net img_bytes ->
         md5_hexdigest net img_bytes ∉ truncate set_order (seen_hashes sh) ->
         exists ext,
           get_extension_from_url_or_content (guess_extension net) url response
           = Ret ext
           /\ let saved := target_path folder person_name (file_hash f) ext in
              let g := mkFile saved (file_hash f) img_bytes true in
              let call := download_image net folder person_name max_retries url
                            (truncate_hashes set_order sh) in
              call.1 = Ret (Some saved)
              /\ files call.2 = files sh ++ [g]
              /\ on_disk (files call.2)
                 = filter (fun x => file_path x <> saved) (on_disk (files sh)) ++ [g]
              /\ (forall x, x ∈ on_disk (files call.2) -> file_path x = saved -> x = g)
              /\ (f ∈ on_disk (files sh) -> file_path f <> saved ->
                  f ∈ on_disk (files call.2) /\ g ∈ on_disk (files call.2)
                  /\ f <> g /\ file_hash g = file_hash f)).
Proof.
  intros Hperm. split; [by apply truncate_forgotten|]. split.
  - intros ddgs_images keyword total_needed s u rest calls retries
      Hin Hout Hne Hretries Hrow Hrest.
    unfold fetch_image_urls.
    destruct (Z.to_nat retries) as [|n] eqn:Hn; [lia|]. cbn [fetch_attempts].
    rewrite Hrow. cbn [scan_results].
    assert (Hnew : Str.nonempty u && negb (set_in u (truncate set_order s)) = true).
    { rewrite (proj2 (set_in_false _ _) Hout). by destruct u. }
    rewrite Hnew. cbn [app length].
    destruct (Z.geb_spec (Z.of_nat 1) total_needed); [by exists []|].
    destruct (scan_results rest total_needed (set_add u (truncate set_order s)) [u])
      as [r seen'] eqn:Hscan.
    destruct (scan_results_returns rest total_needed
                (set_add u (truncate set_order s)) [u] Hrest) as [out Hout'].
    rewrite Hscan in Hout'. cbn [fst] in Hout'. subst r.
    apply scan_results_prefix in Hscan as (j & _ & Hshape).
    rewrite (Hshape out eq_refl). cbn. by eexists.
  - intros net folder person_name max_retries url parsed sh response img_bytes f
      Hmax Hparse Hbad Hget Hacc Hcontent Hdisk Hf Hhash Hgone.
    destruct (download_image_writes net folder person_name max_retries url parsed
                (truncate_hashes set_order sh) response img_bytes)
      as (ext & Hext & Hcall); try done.
    exists ext. split; [done|]. cbn zeta. rewrite Hcall, Hhash.
    cbn [fst snd files add_file log_write add_hash log_request truncate_hashes].
    set (saved := target_path folder person_name (md5_hexdigest net img_bytes) ext).
    set (g := mkFile saved (md5_hexdigest net img_bytes) img_bytes true).
    assert (Hon : on_disk (files sh ++ [g])
                  = filter (fun x => file_path x <> saved) (on_disk (files sh)) ++ [g])
      by apply on_disk_snoc.
    split; [done|]. split; [done|]. split; [done|]. split.
    + intros x Hx Hpath. rewrite Hon, elem_of_app in Hx.
      destruct Hx as [Hx|Hx%list_elem_of_singleton]; [|done].
      by apply list_elem_of_filter in Hx as [Hx _].
    + intros Hfdisk Hother. rewrite Hon, !elem_of_app, list_elem_of_filter.
      split; [by left|]. split; [right; by apply list_elem_of_singleton|].
      split; [|done]. intros ->. by apply Hother.
Qed.

(** * The shape of an extension *)

Section ExtensionShape.
Import Str StrFacts.

(** X15: for every URL that parses, the extension is found without an
    exception, in one of three ways.  From the URL: the path is a root, a
    dot and the extension, which holds neither dot nor slash and has at
    most 4 characters (it may be empty).  From the content type, when the
    path has no extension or one of more than 4 characters: the entry of
    the host table, without its leading dots.  Or [jpg], when the table has
    no entry either. *)
Theorem extension_shape (guess : string -> option string) (url : string)
    (parsed : ParseResult) (response : Response) :
  urlparse url = Ret parsed ->
  let from_url := snd (splitext (path parsed)) in
  let content_type := split_head ";" (header_content_type response) in
  exists ext,
    get_extension_from_url_or_content guess url response = Ret ext
    /\ ((path parsed = fst (splitext (path parsed)) +:+ "." +:+ ext
         /\ mem "." ext = false /\ mem "/" ext = false
         /\ (String.length ext <= 4)%nat)
        \/ ((from_url = "" \/ (5 < String.length from_url)%nat)
            /\ ((exists guessed,
                    guess content_type = Some guessed /\ guessed <> ""
                    /\ ext = lstrip "." guessed)
                \/ ((guess content_type = None \/ guess content_type = Some "")
                    /\ ext = "jpg")))).
Proof.
  intros Hparse. cbv zeta. unfold get_extension_from_url_or_content.
  rewrite Hparse. cbn [mbind exn_bind].
  destruct (splitext_shape (path parsed)) as [Hjoin Hshape].
  destruct (nonempty (snd (splitext (path parsed)))
            && (len (snd (splitext (path parsed))) <=? 5)) eqn:Hcond.
  - eexists. split; [done|]. left.
    apply andb_prop in Hcond as [Hne Hlen%Z.leb_le].
    destruct Hshape as [Hempty|(e & He & Hdot & Hslash)];
      [by rewrite Hempty in Hne|].
    rewrite He in *. rewrite lstrip_dot by done.
    split; [by rewrite Hjoin|]. split; [done|]. split; [done|].
    rewrite len_dot in Hlen. lia.
  - assert (Hwhy : snd (splitext (path parsed)) = ""
                   \/ (5 < String.length (snd (splitext (path parsed))))%nat).
    { destruct (snd (splitext (path parsed))) as [|c rest] eqn:Hext; [by left|].
      right. cbn [nonempty andb] in Hcond. apply Z.leb_gt in Hcond.
      unfold len in Hcond. lia. }
    destruct (guess (split_head ";" (header_content_type response)))
      as [guessed|] eqn:Hguess.
    + destruct guessed as [|c rest] eqn:Hg; cbn [nonempty].
      * exists "jpg". split; [done|]. right. split; [done|]. right. split; [by right|done].
      * eexists. split; [done|]. right. split; [done|]. left.
        exists (String c rest). by repeat split.
    + exists "jpg". split; [done|]. right. split; [done|]. right. split; [by left|done].
Qed.

End ExtensionShape.

(** * Which of the files the cropper reads *)

Section CropperFiles.
Import Str StrFacts.

Lemma lower_app (a b : string) : lower (a +:+ b) = lower a +:+ lower b.
Proof.
  induction a as [|c a IH]; [done|]. rewrite append_cons. cbn [lower].
  by rewrite append_cons, IH.
Qed.

Lemma lower_char_dot (c : ascii) : Ascii.eqb "." (lower_char c) = Ascii.eqb "." c.
Proof.
  unfold lower_char. destruct (is_upper c) eqn:Hup; [|done].
  unfold is_upper in Hup. apply andb_prop in Hup as [Hlo%Nat.leb_le Hhi%Nat.leb_le].
  destruct (Ascii.eqb_spec "." c) as [<-|_].
  { change (nat_of_ascii ".") with 46%nat in *. lia. }
  apply Ascii.eqb_neq. intros E. apply (f_equal nat_of_ascii) in E.
  rewrite nat_ascii_embedding in E by lia.
  change (nat_of_ascii ".") with 46%nat in E. lia.
Qed.

Lemma mem_dot_lower (s : string) : mem "." (lower s) = mem "." s.
Proof.
  induction s as [|c s IH]; [done|]. cbn [lower mem]. by rewrite lower_char_dot, IH.
Qed.

Lemma endswith_cons (suffix : string) (c : ascii) (s : string) :
  endswith suffix (String c s) = String.eqb suffix (String c s) || endswith suffix s.
Proof. reflexivity. Qed.

Lemma endswith_no_dot (t e : string) :
  mem "." e = false -> endswith ("." +:+ t) e = false.
Proof.
  induction e as [|c e IH]; intros H; [done|].
  cbn [mem] in H. apply orb_false_elim in H as [Hc He].
  rewrite endswith_cons, (IH He), orb_false_r.
  change ("." +:+ t) with (String "." t). cbn [String.eqb]. by rewrite Hc.
Qed.

(** A name with an extension ends with a dotted suffix exactly when the
    suffix is the extension. *)
Lemma endswith_extension (stem e t : string) :
  mem "." e = false -> mem "." t = false ->
  endswith ("." +:+ t) (stem +:+ "." +:+ e) = String.eqb e t.
Proof.
  intros He Ht. induction stem as [|c stem IH].
  - rewrite append_nil. change ("." +:+ e) with (String "." e).
    rewrite (endswith_cons ("." +:+ t) "." e).
    rewrite (endswith_no_dot t e He), orb_false_r.
    change ("." +:+ t) with (String "." t).
    cbn [String.eqb]. rewrite Ascii.eqb_refl. apply String.eqb_sym.
  - rewrite (append_cons c stem), endswith_cons, IH.
    destruct (String.eqb_spec ("." +:+ t) (String c (stem +:+ "." +:+ e)))
      as [E|_]; [|done].
    exfalso. change ("." +:+ t) with (String "." t) in E. injection E as _ ->.
    rewrite !mem_app in Ht. cbn in Ht. by rewrite orb_true_r in Ht.
Qed.

(** X16: the files of the scraper that the cropper reads.  The scraper
    names a file [name_digest.ext]; when [ext] holds no dot, as every
    extension taken from a URL does, the cropper reads the file exactly
    when [ext], in lower case, is [png], [jpg], [jpeg], [bmp] or [tiff].  A
    file saved as [gif] or [webp] is passed over. *)
Theorem cropper_reads (stem ext : string) :
  mem "." ext = false ->
  is_image_name (stem +:+ "." +:+ ext)
  = bool_decide (lower ext ∈ ["png"; "jpg"; "jpeg"; "bmp"; "tiff"]).
Proof.
  intros Hext. unfold is_image_name, image_suffixes.
  rewrite !lower_app. change (lower ".") with ".".
  assert (Hlow : mem "." (lower ext) = false) by (by rewrite mem_dot_lower).
  cbn [existsb].
  change ".png" with ("." +:+ "png"). change ".jpg" with ("." +:+ "jpg").
  change ".jpeg" with ("." +:+ "jpeg"). change ".bmp" with ("." +:+ "bmp").
  change ".tiff" with ("." +:+ "tiff").
  rewrite !endswith_extension by done.
  rewrite orb_false_r.
  destruct (String.eqb_spec (lower ext) "png") as [->|H1]; [done|].
  destruct (String.eqb_spec (lower ext) "jpg") as [->|H2]; [done|].
  destruct (String.eqb_spec (lower ext) "jpeg") as [->|H3]; [done|].
  destruct (String.eqb_spec (lower ext) "bmp") as [->|H4]; [done|].
  destruct (String.eqb_spec (lower ext) "tiff") as [->|H5]; [done|].
  cbn [orb]. symmetry. apply bool_decide_eq_false.
  rewrite !elem_of_cons, elem_of_nil. tauto.
Qed.

End CropperFiles.

(** * What the orchestrator asks for, and arguments out of range *)

Section Asking.

Variables search search' :
  string -> Z -> pyset -> nat -> exn (list string) * pyset * nat.
Variable fetch_all :
  nat -> nat -> list string -> string -> string -> Shared ->
  list (exn (option string)) * Shared.
Variable set_order : list string -> list string.
Variable search_terms : list string.
Variable save_name : string.
Variable num_images : Z.
Variable save_folder : string.
Variables threads batch_size : Z.

Hypothesis batch : 1 <= batch_size.
Hypothesis agree :
  forall keyword total_needed seen calls,
    1 <= total_needed <= batch_size ->
    total_needed <= num_images ->
    search keyword total_needed seen calls = search' keyword total_needed seen calls.

Lemma pass_asks_in_range (st : Run) :
  0 <= downloaded_count st < num_images ->
  pass search fetch_all set_order search_terms save_name num_images save_folder
    threads batch_size st
  = pass search' fetch_all set_order search_terms save_name num_images save_folder
      threads batch_size st.
Proof.
  intros Hlt. unfold pass. cbn zeta.
  destruct (Z.of_nat (length search_terms) =? 0); [done|].
  destruct (search_terms !! _) as [keyword|]; [|done].
  by rewrite agree by lia.
Qed.

Lemma loop_asks_in_range (fuel : nat) (st : Run) :
  0 <= downloaded_count st ->
  download_loop search fetch_all set_order search_terms save_name num_images
    save_folder threads batch_size fuel st
  = download_loop search' fetch_all set_order search_terms save_name num_images
      save_folder threads batch_size fuel st.
Proof.
  revert st. induction fuel as [|fuel IH]; intros st Hpos; cbn [download_loop];
    [done|].
  destruct (Z.ltb_spec (downloaded_count st) num_images); [|done].
  rewrite <- pass_asks_in_range by lia.
  pose proof (pass_term_index search fetch_all set_order search_terms save_name
                num_images save_folder threads batch_size st) as _.
  destruct (pass search fetch_all set_order search_terms save_name num_images
              save_folder threads batch_size st) as [st'|st'|e st'] eqn:Hpass;
    [|done|done].
  apply IH.
  assert (Hmono : downloaded_count st <= downloaded_count st'); [|lia].
  revert Hpass. unfold pass. cbn zeta.
  destruct (Z.of_nat (length search_terms) =? 0); [done|].
  destruct (search_terms !! _) as [keyword|]; [|done].
  destruct (search keyword _ _ _) as [[[[|url urls]|e] seen'] calls'].
  - destruct (_ >=? _); [done|]. by intros [= <-].
  - destruct (threads <=? 0); [done|].
    destruct (fetch_all _ _ _ _ _ _) as [results sh]. intros [= <-]. cbn.
    rewrite collect_min by done. pose proof (successes_nonneg results). lia.
  - done.
Qed.

End Asking.

(** X17: with a batch size of at least 1, the orchestrator asks the search
    adapter for at least one URL and at most [batch_size], and never for
    more than the target: a run is the same with any other adapter that
    agrees with this one on such requests. *)
Theorem adapter_asked_in_range
    (search search' : string -> Z -> pyset -> nat -> exn (list string) * pyset * nat)
    (fetch_all : nat -> nat -> list string -> string -> string -> Shared ->
                 list (exn (option string)) * Shared)
    (set_order : list string -> list string)
    (search_terms : list string) (save_name : string) (num_images : Z)
    (save_folder : string) (threads batch_size : Z) (fuel : nat) :
  1 <= batch_size ->
  (forall keyword total_needed seen calls,
      1 <= total_needed <= batch_size ->
      total_needed <= num_images ->
      search keyword total_needed seen calls = search' keyword total_needed seen calls) ->
  download_images_with search fetch_all set_order search_terms save_name
    num_images save_folder threads batch_size fuel
  = download_images_with search' fetch_all set_order search_terms save_name
      num_images save_folder threads batch_size fuel.
Proof.
  intros Hbatch Hagree. unfold download_images_with.
  by apply loop_asks_in_range.
Qed.

(** X18: arguments out of range.  With a target of zero or less,
    [download_images] returns at once: nothing is searched, and an empty
    list of search terms raises nothing.  With [threads <= 0], the first
    pass that has URLs to dispatch raises the [ValueError] of
    [ThreadPoolExecutor], the URLs being in the set of seen URLs by then.
    With [batch_size <= 0], the adapter of the source hands over one URL
    at most, so that a pass adds at most one download. *)
Theorem arguments_out_of_range :
  (forall search fetch_all set_order search_terms save_name num_images save_folder
          threads batch_size fuel,
      num_images <= 0 ->
      download_images_with search fetch_all set_order search_terms save_name
        num_images save_folder threads batch_size fuel = Done initial_run)
  /\ (forall search fetch_all set_order search_terms save_name num_images
             save_folder threads batch_size fuel (st : Run) keyword url urls
             seen' calls',
         threads <= 0 ->
         downloaded_count st < num_images ->
         search_terms !! Z.to_nat (term_index st mod Z.of_nat (length search_terms))
         = Some keyword ->
         search keyword (Z.min batch_size (num_images - downloaded_count st))
           (seen_urls st) (ddgs_calls st) = (Ret (url :: urls), seen', calls') ->
         download_loop search fetch_all set_order search_terms save_name num_images
           save_folder threads batch_size (S fuel) st
         = Crashed ValueError
             (mkRun seen' calls' (run_shared st) (downloaded_count st)
                (batch_number st) (term_index st)))
  /\ (forall env search_terms save_name num_images save_folder threads batch_size
             (st : Run),
         batch_size <= 0 ->
         downloaded_count st < num_images ->
         downloaded_count
           (after (pass (search_adapter env) (worker_pool env) (set_iteration env)
                     search_terms save_name num_images save_folder threads
                     batch_size st))
         <= downloaded_count st + 1).
Proof.
  split; [|split].
  - intros search fetch_all set_order search_terms save_name num_images save_folder
      threads batch_size fuel Hnum.
    unfold download_images_with.
    destruct fuel; cbn [download_loop initial_run downloaded_count];
      by destruct (Z.ltb_spec 0 num_images); [lia|].
  - intros search fetch_all set_order search_terms save_name num_images save_folder
      threads batch_size fuel st keyword url urls seen' calls' Hthreads Hlt Hkw Hsearch.
    assert (Hne : search_terms <> []).
    { intros E. rewrite E in Hkw. by rewrite lookup_nil in Hkw. }
    cbn [download_loop]. destruct (Z.ltb_spec (downloaded_count st) num_images); [|lia].
    rewrite (pass_unfold _ _ _ _ _ _ _ _ _ st keyword _ seen' calls' Hne Hkw Hsearch).
    by destruct (Z.leb_spec threads 0); [|lia].
  - intros env search_terms save_name num_images save_folder threads batch_size st
      Hbatch Hlt.
    destruct search_terms as [|term terms] eqn:Hterms.
    { unfold pass. change (Z.of_nat (length []) =? 0) with true.
      cbn [after]. lia. }
    rewrite <- Hterms in *.
    assert (Hne : search_terms <> []) by (by rewrite Hterms).
    destruct (keyword_exists search_terms (term_index st) Hne) as [keyword Hkw].
    destruct (search_adapter env keyword
                (Z.min batch_size (num_images - downloaded_count st))
                (seen_urls st) (ddgs_calls st)) as [[answer seen'] calls'] eqn:Hsearch.
    rewrite (pass_unfold _ _ _ _ _ _ _ _ _ st keyword answer seen' calls' Hne Hkw Hsearch).
    unfold search_adapter, fetch_image_urls in Hsearch.
    pose proof (fetch_attempts_budget _ _ _ _ _ _ _ _ _ Hsearch)
      as (urls & -> & _ & Hlen & _).
    destruct urls as [|url urls].
    { cbn zeta. destruct (_ >=? _); cbn; lia. }
    destruct (Z.leb_spec threads 0); [cbn; lia|]. cbn [after downloaded_count].
    unfold worker_pool.
    destruct (dispatch_saved (network env) (folder save_name save_folder) save_name
                default_max_retries (Z.to_nat threads)
                (schedule env (Z.to_nat (batch_number st))) (url :: urls)
                (run_shared st)) as [_ Hle].
    rewrite (collect_min _ _ _ Hlt). lia.
Qed.

(** * The theorems on samples *)

Lemma exceptions_contained_witness :
  download_image dead_net "images/Ben" "Ben" 3 broken_url initial_shared
  = (Raise ValueError, initial_shared).
Proof.
  pose proof (exceptions_contained dead_net "images/Ben" "Ben" 3 broken_url
                initial_shared ValueError eq_refl) as (_ & _ & H).
  exact H.
Defined.

Lemma failed_attempt_loses_urls_witness :
  exists urls,
    (fetch_image_urls sample_backend "cats" 3 [] 0 3).1.1 = Ret urls
    /\ "http://b/2.png" ∈ (fetch_image_urls sample_backend "cats" 3 [] 0 3).1.2
    /\ "http://b/2.png" ∉ urls.
Proof.
  destruct (failed_attempt_loses_urls sample_backend "cats" 3 [] 0 3 SearchException
              ltac:(lia) eq_refl) as (urls & Hret & _ & Hlost).
  exists urls. split; [exact Hret|]. apply Hlost.
  change (fresh [] (rows (sample_backend 0 "cats" (3 * 5))))
    with ["http://a/1.jpg"; "http://b/2.png"].
  apply list_elem_of_further, list_elem_of_here.
Defined.

Lemma one_result_per_url_witness :
  length (dispatch same_picture_net "images/Ben" "Ben" 3 2 (fun n => n)
            [url_a; url_b] initial_shared).1
  = length [url_a; url_b].
Proof. apply one_result_per_url. lia. Defined.

Lemma backend_down_run_witness :
  download_images down_env ["cats"; "dogs"] "Ben" 5 "images" 10 50 2
  = Done (mkRun [] (3 * length ["cats"; "dogs"]) initial_shared 0 0
            (Z.of_nat (length ["cats"; "dogs"]))).
Proof.
  apply backend_down_run.
  - intros n keyword max_results. by exists SearchException.
  - discriminate.
  - lia.
  - cbn. lia.
Defined.

Lemma crowded_large : NoDup crowded /\ 50000 < Z.of_nat (length crowded).
Proof.
  unfold crowded. split.
  - apply (@NoDup_fmap_2 _ _ numbered numbered_inj), NoDup_seq.
  - rewrite length_fmap, length_seq. lia.
Qed.

(** The newest URL of [crowded] is cut when the set is iterated from its
    newest entry to its oldest. *)
Lemma newest_url_cut :
  numbered (Z.to_nat 50000) ∈ crowded
  /\ (numbered (Z.to_nat 50000) ∉ truncate reverse crowded)
  /\ numbered (Z.to_nat 50000) <> "".
Proof.
  assert (H : 50000 < Z.of_nat (S (Z.to_nat 50000))) by lia.
  pose proof (reverse_order_keeps_oldest (Z.to_nat 50000) H)
    as (Hlast & _ & _ & Hnew & _).
  split; [|split; [exact Hnew | done]].
  apply last_Some in Hlast as [l Hl]. fold crowded in Hl. rewrite Hl.
  rewrite elem_of_app, list_elem_of_singleton. by right.
Qed.

(** So is the digest of the sample picture, the newest of
    [crowded_hashes]. *)
Lemma newest_digest_cut :
  md5_hexdigest same_picture_net [Byte.x61; Byte.x62]
  ∉ truncate reverse (seen_hashes crowded_shared).
Proof.
  cbn [seen_hashes crowded_shared].
  assert (Hlen : length crowded_hashes = S (Z.to_nat 50000)).
  { unfold crowded_hashes. rewrite length_app, length_fmap, length_seq.
    cbn [length]. lia. }
  rewrite (truncate_large reverse reverse_Permutation) by (rewrite Hlen; lia).
  rewrite drop_reverse, elem_of_reverse, Hlen.
  replace (S (Z.to_nat 50000) - Z.to_nat (Z.of_nat (S (Z.to_nat 50000)) - 25000))%nat
    with (Z.to_nat 25000) by lia.
  unfold crowded_hashes. rewrite take_app_le by (rewrite length_fmap, length_seq; lia).
  intros (i & Hi & _)%elem_of_take.
  apply list_lookup_fmap_Some in Hi as (n & Hn & _).
  change ("ab" = "http://x.example/" +:+ pretty n) in Hn. discriminate Hn.
Qed.

Lemma truncation_forgets_witness :
  Z.of_nat (length (filter (fun x => x ∉ truncate reverse crowded) crowded))
  = Z.of_nat (length crowded) - 25000
  /\ (exists urls,
         (fetch_image_urls stale_backend "cats" 1 (truncate reverse crowded) 0 3).1.1
         = Ret (numbered (Z.to_nat 50000) :: urls))
  /\ (exists ext,
         get_extension_from_url_or_content (guess_extension same_picture_net)
           url_a picture = Ret ext
         /\ let saved := target_path "images/Ben" "Ben" (file_hash picture_file) ext in
            let g := mkFile saved (file_hash picture_file) [Byte.x61; Byte.x62] true in
            let call := download_image same_picture_net "images/Ben" "Ben" 3 url_a
                          (truncate_hashes reverse crowded_shared) in
            call.1 = Ret (Some saved)
            /\ files call.2 = files crowded_shared ++ [g]
            /\ on_disk (files call.2)
               = filter (fun x => file_path x <> saved)
                   (on_disk (files crowded_shared)) ++ [g]
            /\ (forall x, x ∈ on_disk (files call.2) -> file_path x = saved -> x = g)
            /\ (picture_file ∈ on_disk (files crowded_shared) ->
                file_path picture_file <> saved ->
                picture_file ∈ on_disk (files call.2) /\ g ∈ on_disk (files call.2)
                /\ picture_file <> g /\ file_hash g = file_hash picture_file)).
Proof.
  pose proof (truncation_forgets reverse reverse_Permutation) as (Hcut & Hurl & Hhash).
  destruct crowded_large as [Hnodup Hlen].
  destruct newest_url_cut as (Hin & Hout & Hne).
  split; [exact (Hcut crowded Hnodup Hlen)|]. split.
  - apply (Hurl stale_backend "cats" 1 crowded (numbered (Z.to_nat 50000)) NoMore
             O 3 Hin Hout Hne); [lia | reflexivity | exact I].
  - apply (Hhash same_picture_net "images/Ben" "Ben" 3%nat url_a parsed_a
             crowded_shared picture [Byte.x61; Byte.x62] picture_file).
    + lia.
    + reflexivity.
    + apply not_elem_of_empty.
    + reflexivity.
    + reflexivity.
    + reflexivity.
    + reflexivity.
    + apply list_elem_of_singleton. reflexivity.
    + reflexivity.
    + exact newest_digest_cut.
Defined.

Lemma extension_shape_witness :
  exists ext,
    get_extension_from_url_or_content sample_types_map url_a picture = Ret ext.
Proof.
  destruct (extension_shape sample_types_map url_a parsed_a picture eq_refl)
    as (ext & Hext & _).
  exists ext. exact Hext.
Defined.

Lemma cropper_reads_witness :
  is_image_name ("Ben_0cc175b9" +:+ "." +:+ "webp")
  = bool_decide (Str.lower "webp" ∈ ["png"; "jpg"; "jpeg"; "bmp"; "tiff"])
  /\ is_image_name ("Ben_0cc175b9" +:+ "." +:+ "JPG")
     = bool_decide (Str.lower "JPG" ∈ ["png"; "jpg"; "jpeg"; "bmp"; "tiff"]).
Proof. split; apply cropper_reads; reflexivity. Defined.

Lemma no_progress_no_end_witness :
  exists st,
    download_images_with full_search unlucky_pool reverse ["cats"] "Ben" 5 "images"
      10 2 3 = Running st
    /\ downloaded_count st = 0
    /\ batch_number st = Z.of_nat 3
    /\ term_index st = Z.of_nat 3.
Proof.
  apply no_progress_no_end; try lia; [discriminate| |].
  - intros keyword total_needed seen calls Hpos. unfold full_search. cbn [fst].
    destruct (Z.to_nat total_needed) as [|k] eqn:Hk; [lia|].
    cbn [seq fmap list_fmap]. by eexists _, _.
  - intros round workers image_urls dir name sh. unfold unlucky_pool. cbn [fst].
    induction image_urls as [|url urls IH]; [done|]. cbn. exact IH.
Defined.

Lemma adapter_asked_in_range_witness :
  download_images_with (search_adapter flaky_env) (worker_pool flaky_env)
    (set_iteration flaky_env) ["cats"] "Ben" 2 "images" 2 50 3
  = download_images_with (strict_adapter flaky_env) (worker_pool flaky_env)
      (set_iteration flaky_env) ["cats"] "Ben" 2 "images" 2 50 3.
Proof.
  apply adapter_asked_in_range.
  - lia.
  - intros keyword total_needed seen calls Hrange _. unfold strict_adapter.
    by destruct (Z.leb_spec total_needed 0); [lia|].
Defined.
